(** * Reddit -> Discord verifier: the parsing and matching engine

    A shallow embedding of the two entry scripts of the repository:
    the command-driven bot (strict two-way verify, [Verifier] below) and
    the earlier push-driven script (src/index.js, [Legacy] below).

    Strings.  A JavaScript string is modelled as a list of 8-bit
    characters.  The model is exact on ASCII text.  A character above 127
    is an opaque letter: it is not white space and has no other case, so
    the non-ASCII white space of [String.prototype.trim] and of the
    regular-expression class [\s], and the non-ASCII case pairs of
    [toLowerCase] and of the [i] flag, are outside the model.  The one
    non-ASCII literal of the source (the check mark of the bot's own
    success notice) is kept as its UTF-8 bytes. *)

From Stdlib Require Import Ascii String List ZArith Lia Bool Arith Sorted.
Import ListNotations.

Set Implicit Arguments.
Set Warnings "-notation-for-abbreviation".

(* ================================================================== *)
(** ** JavaScript string primitives *)

Module Js.

Definition jsstring := list ascii.

Definition str (s : string) : jsstring := list_ascii_of_string s.

Definition LF : ascii := ascii_of_nat 10.
Definition CR : ascii := ascii_of_nat 13.

(** The ASCII part of ECMAScript WhiteSpace and LineTerminator:
    TAB, LF, VT, FF, CR and SP. *)
Definition is_ws (c : ascii) : bool :=
  let n := nat_of_ascii c in
  ((9 <=? n) && (n <=? 13)) || (n =? 32).

Fixpoint dropWhile (p : ascii -> bool) (s : jsstring) : jsstring :=
  match s with
  | [] => []
  | c :: t => if p c then dropWhile p t else s
  end.

Fixpoint takeWhile (p : ascii -> bool) (s : jsstring) : jsstring :=
  match s with
  | [] => []
  | c :: t => if p c then c :: takeWhile p t else []
  end.

Definition trimStart (s : jsstring) : jsstring := dropWhile is_ws s.
Definition trimEnd (s : jsstring) : jsstring := rev (dropWhile is_ws (rev s)).

(** [s.trim()] *)
Definition trim (s : jsstring) : jsstring := trimEnd (trimStart s).

Definition lower (c : ascii) : ascii :=
  let n := nat_of_ascii c in
  if (65 <=? n) && (n <=? 90) then ascii_of_nat (n + 32) else c.

(** [s.toLowerCase()] *)
Definition toLowerCase (s : jsstring) : jsstring := map lower s.

Definition string_eqb (a b : jsstring) : bool :=
  if list_eq_dec ascii_dec a b then true else false.

(** [s.startsWith(p)] *)
Fixpoint startsWith (p s : jsstring) : bool :=
  match p, s with
  | [], _ => true
  | _ :: _, [] => false
  | a :: p', b :: s' => Ascii.eqb a b && startsWith p' s'
  end.

(** [s.includes(p)] *)
Fixpoint includes (p s : jsstring) : bool :=
  startsWith p s ||
  match s with
  | [] => false
  | _ :: t => includes p t
  end.

(** [s.split(sep)] for a one-character separator: never the empty list. *)
Fixpoint split (sep : ascii) (s : jsstring) : list jsstring :=
  match s with
  | [] => [[]]
  | c :: t =>
      if Ascii.eqb c sep then [] :: split sep t
      else match split sep t with
           | [] => [[c]]
           | h :: r => (c :: h) :: r
           end
  end.

(** [parts.join(sep)] *)
Fixpoint join (sep : jsstring) (parts : list jsstring) : jsstring :=
  match parts with
  | [] => []
  | [p] => p
  | p :: rest => p ++ sep ++ join sep rest
  end.

(** Truthiness of a string: [Boolean(s)], [!s], [s || d]. *)
Definition truthy (s : jsstring) : bool :=
  match s with [] => false | _ :: _ => true end.

Definition or_else (s d : jsstring) : jsstring := if truthy s then s else d.

(** *** Regular-expression pieces

    Each piece takes the rest of the pattern as a continuation [k] and the
    text still to be matched, and tries its alternatives in the order of a
    backtracking matcher: a greedy quantifier first consumes, and gives a
    character back only when the continuation has failed. *)

Section Regex.
Variable A : Type.

(** a literal, matched case-insensitively (flag [i]) *)
Definition lit_ci (p : jsstring) (k : jsstring -> option A)
    (s : jsstring) : option A :=
  if startsWith (toLowerCase p) (toLowerCase s)
  then k (skipn (length p) s) else None.

(** a literal, matched exactly *)
Definition lit (p : jsstring) (k : jsstring -> option A)
    (s : jsstring) : option A :=
  if startsWith p s then k (skipn (length p) s) else None.

(** [(c* )] for a character class [c], greedy; the continuation receives
    the characters consumed and the rest *)
Fixpoint star_cap (c : ascii -> bool) (k : jsstring -> jsstring -> option A)
    (s : jsstring) : option A :=
  match s with
  | [] => k [] []
  | a :: t =>
      if c a
      then match star_cap c (fun v r => k (a :: v) r) t with
           | Some x => Some x
           | None => k [] s
           end
      else k [] s
  end.

(** [(c+)] for a character class [c], greedy *)
Definition plus_cap (c : ascii -> bool) (k : jsstring -> jsstring -> option A)
    (s : jsstring) : option A :=
  match s with
  | [] => None
  | a :: t => if c a then star_cap c (fun v r => k (a :: v) r) t else None
  end.

(** [c*] and [c+] outside a capture group *)
Definition rstar (c : ascii -> bool) (k : jsstring -> option A) :=
  star_cap c (fun _ r => k r).
Definition rplus (c : ascii -> bool) (k : jsstring -> option A) :=
  plus_cap c (fun _ r => k r).

(** [(?:g)?], greedy: with the group first, then without it *)
Definition opt (g : (jsstring -> option A) -> jsstring -> option A)
    (k : jsstring -> option A) (s : jsstring) : option A :=
  match g k s with
  | Some v => Some v
  | None => k s
  end.

(** [$] without the [m] flag: the end of the input *)
Definition eoi (k : jsstring -> option A) (s : jsstring) : option A :=
  match s with
  | [] => k []
  | _ :: _ => None
  end.

(** an unanchored search: the leftmost position where [m] matches *)
Fixpoint search (m : jsstring -> option A) (s : jsstring) : option A :=
  match m s with
  | Some v => Some v
  | None =>
      match s with
      | [] => None
      | _ :: t => search m t
      end
  end.
End Regex.

(** [s.replace(re, out)] with the [g] flag, for a pattern that never
    matches the empty string.  [m] tries the pattern at the current
    position and gives the replacement text and the text after the match;
    [skip] counts the characters of a match that are still to be passed
    over. *)
Fixpoint replace_from (m : jsstring -> option (jsstring * jsstring))
    (skip : nat) (s : jsstring) : jsstring :=
  match s with
  | [] => []
  | c :: t =>
      match skip with
      | S n => replace_from m n t
      | O =>
          match m s with
          | Some (out, rest) =>
              out ++ replace_from m (length s - length rest - 1) t
          | None => c :: replace_from m 0 t
          end
      end
  end.

Definition replace_all (m : jsstring -> option (jsstring * jsstring))
    (s : jsstring) : jsstring := replace_from m 0 s.

Definition not_ws (c : ascii) : bool := negb (is_ws c).
Definition not_eol (c : ascii) : bool := negb (Ascii.eqb c LF || Ascii.eqb c CR).
Definition not_char (x c : ascii) : bool := negb (Ascii.eqb c x).

End Js.

Import Js.

(* ================================================================== *)
(** ** The command-driven bot: helpers, parser, matcher, verify command *)

Module Verifier.

(** [normalize(str)]: [(str || '').trim().toLowerCase()] *)
Definition normalize (s : jsstring) : jsstring := toLowerCase (trim s).

(** [str.replace(/^\*{1,2}/, '')] *)
Definition is_star (c : ascii) : bool := Ascii.eqb c "*"%char.

Definition strip_leading_stars (s : jsstring) : jsstring :=
  match s with
  | c1 :: t1 =>
      if is_star c1
      then match t1 with
           | c2 :: t2 => if is_star c2 then t2 else t1
           | [] => t1
           end
      else s
  | [] => s
  end.

(** [\*{1,2}$] tried at one position: two stars then the end, else one
    star then the end. *)
Definition stars_to_end (s : jsstring) : bool :=
  match s with
  | [c1; c2] => is_star c1 && is_star c2
  | [c1] => is_star c1
  | _ => false
  end.

(** [str.replace(/\*{1,2}$/, '')]: the leftmost position where the
    pattern matches; everything from there on is removed. *)
Fixpoint strip_trailing_stars (s : jsstring) : jsstring :=
  match s with
  | [] => []
  | c :: t => if stars_to_end s then [] else c :: strip_trailing_stars t
  end.

(** [str.match(/^\[([^\]]+)\]\([^)]+\)$/)], group 1 *)
Definition link_wrapper (s : jsstring) : option jsstring :=
  lit (str "[")
    (plus_cap (not_char "]"%char) (fun label =>
       lit (str "]")
         (lit (str "(")
            (plus_cap (not_char ")"%char) (fun _ =>
               lit (str ")") (eoi (fun _ => Some label))))))) s.

(** [stripMarkdown(str)] *)
Definition stripMarkdown (s : jsstring) : jsstring :=
  if negb (truthy s) then s
  else
    let s1 := strip_trailing_stars (strip_leading_stars s) in
    let s2 := match link_wrapper s1 with
              | Some label => label
              | None => s1
              end in
    trim (strip_trailing_stars (strip_leading_stars s2)).

Record Field := { name : jsstring; value : jsstring }.

(** An embed; an absent description is the empty string (both falsy). *)
Record Embed := { description : jsstring; fields : list Field }.

(** A fetched message.  [id] is the snowflake, which orders the messages
    of a channel by age. *)
Record Message := {
  id : N;
  createdTimestamp : Z;
  content : jsstring;
  embeds : list Embed
}.

(** [buildFullTextFromMessage(message)] *)
Definition buildFullTextFromMessage (message : Message) : jsstring :=
  let parts0 :=
    if truthy (content message) && (0 <? length (trim (content message)))
    then [content message] else [] in
  let of_embed (e : Embed) :=
    (if truthy (description e) then [description e] else [])
    ++ map (fun f => name f ++ str ": " ++ value f) (fields e) in
  join [LF] (parts0 ++ flat_map of_embed (embeds message)).

Record Parsed := {
  redditName : jsstring;
  discordName : jsstring;
  status : jsstring
}.

(** [rawLines.map(l => l.trim()).filter(Boolean)] *)
Definition lines_of (fullText : jsstring) : list jsstring :=
  filter truthy (map trim (split LF fullText)).

(** the check mark U+2705 *)
Definition check_mark : jsstring :=
  [ascii_of_nat 226; ascii_of_nat 156; ascii_of_nat 133].

Definition bot_echo (first : jsstring) : bool :=
  startsWith (check_mark ++ str " Linked Reddit") first
  || startsWith (str "I couldn't find a member") first.

(** [line.toLowerCase().startsWith(label)] *)
Definition has_label (label : string) (line : jsstring) : bool :=
  startsWith (str label) (toLowerCase line).

(** [line.replace(/^label\s*/i, '')] *)
Definition strip_label (label : string) (line : jsstring) : jsstring :=
  match lit_ci (str label) (rstar is_ws (fun r => Some r)) line with
  | Some r => r
  | None => line
  end.

(** [/discord(?:\s+with\s+discord\s+id)?:\s*([^\s]+)/i] at one position *)
Definition discord_id_at : jsstring -> option jsstring :=
  lit_ci (str "discord")
    (opt (fun k =>
            rplus is_ws (lit_ci (str "with")
              (rplus is_ws (lit_ci (str "discord")
                 (rplus is_ws (lit_ci (str "id") k))))))
         (lit_ci (str ":")
            (rstar is_ws (plus_cap not_ws (fun v _ => Some v))))).

(** 1) Author line -> reddit name, with the first line as fallback *)
Definition parse_redditName (lines : list jsstring) : jsstring :=
  let redditName :=
    match find (has_label "author:") lines with
    | Some authorLine =>
        let namePart := stripMarkdown (trim (strip_label "author:" authorLine)) in
        if truthy namePart then Some namePart else None
    | None => None
    end in
  match redditName with
  | Some n => n
  | None => stripMarkdown (hd [] lines)
  end.

(** 2) Body line -> Discord name; [None] is [null] *)
Definition parse_discordName (lines : list jsstring) : option jsstring :=
  match find (has_label "body:") lines with
  | Some bodyLine =>
      let bodyPart := stripMarkdown (trim (strip_label "body:" bodyLine)) in
      match search discord_id_at bodyPart with
      | Some g1 => Some (trim g1)
      | None => None
      end
  | None => None
  end.

(** 3) Status line -> status *)
Definition parse_status (lines : list jsstring) : jsstring :=
  match find (has_label "status:") lines with
  | Some statusLine =>
      let parts := split ":"%char statusLine in
      or_else (trim (or_else (nth 1 parts []) [])) (str "Unknown")
  | None => str "Unknown"
  end.

(** [parseModmailMessageFromFullText(fullText)]; [None] is [null] *)
Definition parseModmailMessageFromFullText (fullText : jsstring)
    : option Parsed :=
  let lines := lines_of fullText in
  match lines with
  | [] => None
  | first :: _ =>
      if bot_echo first then None
      else
        let redditName := parse_redditName lines in
        let discordName := parse_discordName lines in
        let status := parse_status lines in
        match discordName with
        | Some d =>
            if negb (truthy redditName) || negb (truthy d) then None
            else Some {| redditName := redditName;
                         discordName := d;
                         status := status |}
        | None => None
        end
  end.

(** *** The matcher *)

Record User := {
  username : jsstring;
  globalName : option jsstring;   (* [None] is [null] *)
  tag : jsstring
}.

Record Match := { parsed : Parsed; message : Message }.

Definition MAX_SCANNED : nat := 500.

(** [modmailChannel.messages.fetch({ limit, before })] on a channel whose
    history is [channel]: the messages older than [before] (a smaller
    snowflake), in the order of the history, at most [limit] of them. *)
Definition fetch (channel : list Message) (limit : nat) (before : option N)
    : list Message :=
  firstn limit
    match before with
    | None => channel
    | Some b => filter (fun m => (id m <? b)%N) channel
    end.

(** How the [for] loop over one batch ends: by a [return], or by running
    off the end of the batch. *)
Inductive BatchExit :=
| Return (r : option Match)
| Exhausted.

Section FindMatching.
Variable cutoff : Z.
Variables targetReddit username' globalName' : jsstring.

Definition is_banned (status : jsstring) : bool :=
  truthy status && includes (str "banned") (toLowerCase status).

Definition discordMatches (parsedDiscord : jsstring) : bool :=
  if string_eqb parsedDiscord username' then true
  else if truthy globalName' && string_eqb parsedDiscord globalName'
       then true
       else false.

(** The body of [for (const msg of batch.values())], with the counter
    [scanned] threaded through. *)
Fixpoint scan_batch (batch : list Message) (scanned : nat)
    : BatchExit * nat :=
  match batch with
  | [] => (Exhausted, scanned)
  | msg :: rest =>
      let scanned := S scanned in
      if MAX_SCANNED <? scanned then (Return None, scanned)
      else if (createdTimestamp msg <? cutoff)%Z then (Return None, scanned)
      else
        match parseModmailMessageFromFullText
                (buildFullTextFromMessage msg) with
        | None => scan_batch rest scanned
        | Some p =>
            let parsedReddit := normalize (redditName p) in
            let parsedDiscord := normalize (discordName p) in
            if is_banned (status p) then scan_batch rest scanned
            else if negb (string_eqb parsedReddit targetReddit)
            then scan_batch rest scanned
            else if negb (discordMatches parsedDiscord)
            then scan_batch rest scanned
            else (Return (Some {| parsed := p; message := msg |}), scanned)
        end
  end.

(** The [while (true)] loop.  [fuel] bounds the number of pages; the
    result is [None] only when the fuel runs out.  Otherwise it is the
    value returned together with the final value of [scanned]. *)
Fixpoint scan_pages (fuel : nat) (channel : list Message)
    (lastId : option N) (scanned : nat) : option (option Match * nat) :=
  match fuel with
  | O => None
  | S fuel' =>
      match fetch channel 100 lastId with
      | [] => Some (None, scanned)
      | (m0 :: _) as batch =>
          match scan_batch batch scanned with
          | (Return r, n) => Some (r, n)
          | (Exhausted, n) =>
              scan_pages fuel' channel (Some (id (last batch m0))) n
          end
      end
  end.
End FindMatching.

(** [findMatchingModmail(modmailChannel, redditNameInput, member,
    lookbackHours)], run at the time [now] (the value of [Date.now()], in
    milliseconds) for a whole number of hours.  The cursor [lastId] starts
    undefined; once set it is a snowflake, hence truthy, and is passed to
    every later fetch. *)
Definition findMatchingModmail (fuel : nat) (now : Z)
    (modmailChannel : list Message) (redditNameInput : jsstring)
    (member : User) (lookbackHours : Z) : option (option Match * nat) :=
  let cutoff := (now - lookbackHours * 60 * 60 * 1000)%Z in
  let targetReddit := normalize redditNameInput in
  let username := normalize (username member) in
  let globalName :=
    normalize (match globalName member with Some g => g | None => [] end) in
  scan_pages cutoff targetReddit username globalName
    fuel modmailChannel None 0.

(** *** The verify command *)

Record Config := { ROLE_ID : N; LOOKBACK_HOURS : Z }.

(** The account of the invoking member, as far as the command changes it. *)
Record Account := { roles : list N; nickname : option jsstring }.

(** What the collaborators answer during one run of the command. *)
Record World := {
  guild_resolves : bool;
  modmail_channel : option (bool * list Message);
      (* [None]: the fetch failed; else [isTextBased()] and the history *)
  member_of : option User;
  account : Account;
  clock : Z;
  roles_add_succeeds : bool;
  setNickname_succeeds : bool
}.

(** The replies of the command, by template, with the interpolated values. *)
Inductive Reply :=
| Usage
| GuildNotFound
| ChannelMisconfigured
| MemberUnresolved
| Searching (hours : Z) (redditNameInput : jsstring)
| NoRecentModmail (redditNameInput : jsstring) (hours : Z) (username : jsstring)
| StatusBlocked (redditName status : jsstring)
| RoleNotAdded (redditName : jsstring)
| Verified (redditName username profileUrl discordName : jsstring).

Inductive Event :=
| Replied (r : Reply)
| RolesAdd (role : N)
| SetNickname (nick : jsstring)
| LogRoleAdded
| LogRoleFailed
| LogNicknameSet
| LogNicknameFailed.

(** [content.split(/\s+/)]; [in_sep] tells that the previous character
    belonged to a separator. *)
Fixpoint split_ws_from (in_sep : bool) (s : jsstring) : list jsstring :=
  match s with
  | [] => [[]]
  | c :: t =>
      if is_ws c
      then if in_sep then split_ws_from true t else [] :: split_ws_from true t
      else match split_ws_from false t with
           | [] => [[c]]
           | h :: r => (c :: h) :: r
           end
  end.

Definition split_ws (s : jsstring) : list jsstring := split_ws_from false s.

(** [if (input.toLowerCase().startsWith('u/')) input = input.substring(2)] *)
Definition strip_u_prefix (redditNameInput : jsstring) : jsstring :=
  if startsWith (str "u/") (toLowerCase redditNameInput)
  then skipn 2 redditNameInput
  else redditNameInput.

Definition add_role (r : N) (a : Account) : Account :=
  {| roles := if existsb (N.eqb r) (roles a) then roles a else r :: roles a;
     nickname := nickname a |}.

Definition set_nick (n : jsstring) (a : Account) : Account :=
  {| roles := roles a; nickname := Some n |}.

(** [handleVerifyCommand(message)].  The result is the trace of the run
    and the account afterwards, or [None] when the search ran out of
    fuel.  Replies are taken to be delivered. *)
Definition handleVerifyCommand (fuel : nat) (cfg : Config) (w : World)
    (content : jsstring) : option (list Event * Account) :=
  let args := split_ws (trim content) in
  if length args <? 2 then Some ([Replied Usage], account w)
  else
    let redditNameInput := strip_u_prefix (nth 1 args []) in
    if negb (guild_resolves w)
    then Some ([Replied GuildNotFound], account w)
    else
      match modmail_channel w with
      | None | Some (false, _) =>
          Some ([Replied ChannelMisconfigured], account w)
      | Some (true, history) =>
          match member_of w with
          | None => Some ([Replied MemberUnresolved], account w)
          | Some member =>
              let searching :=
                Replied (Searching (LOOKBACK_HOURS cfg) redditNameInput) in
              match findMatchingModmail fuel (clock w) history
                      redditNameInput member (LOOKBACK_HOURS cfg) with
              | None => None
              | Some (None, _) =>
                  Some ([searching;
                         Replied (NoRecentModmail redditNameInput
                                    (LOOKBACK_HOURS cfg) (username member))],
                        account w)
              | Some (Some mt, _) =>
                  let p := parsed mt in
                  if is_banned (status p)
                  then Some ([searching;
                              Replied (StatusBlocked (redditName p) (status p))],
                             account w)
                  else if negb (roles_add_succeeds w)
                  then Some ([searching; RolesAdd (ROLE_ID cfg); LogRoleFailed;
                              Replied (RoleNotAdded (redditName p))],
                             account w)
                  else
                    let a1 := add_role (ROLE_ID cfg) (account w) in
                    let newNick :=
                      redditName p ++ str " | " ++ username member in
                    let nick_events :=
                      if setNickname_succeeds w
                      then [SetNickname newNick; LogNicknameSet]
                      else [SetNickname newNick; LogNicknameFailed] in
                    let a2 :=
                      if setNickname_succeeds w then set_nick newNick a1
                      else a1 in
                    let redditProfileUrl :=
                      str "https://www.reddit.com/u/" ++ redditName p in
                    Some ([searching; RolesAdd (ROLE_ID cfg); LogRoleAdded]
                          ++ nick_events
                          ++ [Replied (Verified (redditName p)
                                         (username member) redditProfileUrl
                                         (discordName p))],
                          a2)
              end
          end
      end.

End Verifier.

(* ================================================================== *)
(** ** The push-driven script (src/index.js) *)

Module Legacy.

(** [/\[([^\]]+)\]\([^)]*\)/] at one position: the label and the text
    after the match *)
Definition link_at : jsstring -> option (jsstring * jsstring) :=
  lit (str "[")
    (plus_cap (not_char "]"%char) (fun label =>
       lit (str "]")
         (lit (str "(")
            (star_cap (not_char ")"%char) (fun _ =>
               lit (str ")") (fun rest => Some (label, rest))))))).

(** a pattern that is one literal, replaced by nothing *)
Definition erase (p : string) : jsstring -> option (jsstring * jsstring) :=
  lit (str p) (fun rest => Some ([], rest)).

(** [stripFormatting(text)] *)
Definition stripFormatting (text : jsstring) : jsstring :=
  if negb (truthy text) then []
  else
    trim (replace_all (erase "`")
            (replace_all (erase "**")
               (replace_all link_at text))).

(** [content.match(/Label:\s*([^\n\r]+)/i)], group 1 *)
Definition labelled (label : string) : jsstring -> option jsstring :=
  search (lit_ci (str label)
            (rstar is_ws (plus_cap not_eol (fun v _ => Some v)))).

(** [content.match(/^([^\n\r]+)/)], group 1 *)
Definition first_line : jsstring -> option jsstring :=
  plus_cap not_eol (fun v _ => Some v).

(** [content.match(/Body:\s*Phrase\s*([^\s]+)/i)], group 1 *)
Definition body_phrase (phrase : string) : jsstring -> option jsstring :=
  search (lit_ci (str "Body:")
            (rstar is_ws
               (lit_ci (str phrase)
                  (rstar is_ws (plus_cap not_ws (fun v _ => Some v)))))).

(** 0) the status check *)
Definition status_banned (content : jsstring) : bool :=
  match labelled "Status:" content with
  | Some v => includes (str "banned") (toLowerCase (trim v))
  | None => false
  end.

(** [a || b] on values that are a string or [null] *)
Definition first_truthy (a b : option jsstring) : option jsstring :=
  match a with
  | Some (_ :: _) => a
  | _ => b
  end.

(** 1) [finalRedditUser] *)
Definition finalRedditUser (content : jsstring) : jsstring :=
  let redditUser :=
    match labelled "Participant:" content with
    | Some v => Some (trim v)
    | None =>
        match labelled "Author:" content with
        | Some v => Some (trim v)
        | None => None
        end
    end in
  let fallbackRedditUser :=
    match first_line content with
    | Some v => Some (trim v)
    | None => None
    end in
  match first_truthy (first_truthy redditUser fallbackRedditUser)
          (Some (str "RedditUser")) with
  | Some u => u
  | None => []
  end.

(** 2) [discordName]; [None] is [null] *)
Definition discordName (content : jsstring) : option jsstring :=
  match body_phrase "Verify Discord:" content with
  | Some v => Some (trim v)
  | None =>
      match body_phrase "Register Discord with Discord ID:" content with
      | Some v => Some (trim v)
      | None => None
      end
  end.

(** What the guild answers while one forwarded message is handled. *)
Record World := {
  target_member : option jsstring;  (* the tag of the member found, if any *)
  role_exists : bool;
  has_role : bool;
  roles_add_succeeds : bool;
  setNickname_succeeds : bool
}.

Inductive Event :=
| LogBanned
| LogNoDiscordName
| RepliedMemberNotFound (discordName : jsstring)
| LogRoleNotFound
| RolesAdd
| LogRoleAdded
| LogRoleFailed
| LogAlreadyHasRole
| SetNickname (nick : jsstring)
| LogNicknameSet
| LogNicknameFailed
| RepliedLinked (finalRedditUser memberTag : jsstring).

(** The [MessageCreate] handler on a message of the watched channel,
    from the text of the message on. *)
Definition onMessageCreate (w : World) (rawText : jsstring) : list Event :=
  let content := stripFormatting rawText in
  if status_banned content then [LogBanned]
  else
    let user := finalRedditUser content in
    match first_truthy (discordName content) None with
    | None => [LogNoDiscordName]
    | Some d =>
        match target_member w with
        | None => [RepliedMemberNotFound d]
        | Some memberTag =>
            if negb (role_exists w) then [LogRoleNotFound]
            else
              (if has_role w then [LogAlreadyHasRole]
               else if roles_add_succeeds w then [RolesAdd; LogRoleAdded]
               else [RolesAdd; LogRoleFailed])
              ++ (let newNick := user ++ str " | " ++ d in
                  if setNickname_succeeds w
                  then [SetNickname newNick; LogNicknameSet]
                  else [SetNickname newNick; LogNicknameFailed])
              ++ [RepliedLinked user memberTag]
        end
    end.

End Legacy.

Import Verifier.

(* ================================================================== *)
(** ** Texts and histories used in the examples *)

Definition lines_text (ls : list string) : jsstring := join [LF] (map str ls).

(** End-to-end scenario 1 of the specification. *)
Definition scenario1 : jsstring :=
  str "Author: Hermit_Toad" ++ [LF]
  ++ str "Body: Register Discord with Discord ID: pikachucatcher88" ++ [LF]
  ++ str "Status: Active".

(** A forwarded record whose status value itself contains the separator. *)
Definition status_with_colon : jsstring :=
  str "Author: Hermit_Toad" ++ [LF]
  ++ str "Body: Register Discord with Discord ID: pikachucatcher88" ++ [LF]
  ++ str "Status: Mod note: banned".

(** A linked, emphasised name followed by inline code. *)
Definition linked_name : jsstring :=
  str "[**Hermit_Toad**](https://www.reddit.com/u/Hermit_Toad) `ok`".

Definition wrapped_name : jsstring :=
  str "[**Hermit_Toad**](https://www.reddit.com/u/Hermit_Toad)".

(** *** The scanner and the matcher in the words of the specification *)

(** [a] is newer than [b]: it has the larger snowflake, and is not older
    by its time stamp. *)
Definition newer (a b : Message) : Prop :=
  (id b < id a)%N /\ (createdTimestamp b <= createdTimestamp a)%Z.

(** A history retrievable in reverse-chronological pages. *)
Definition newest_first (h : list Message) : Prop := StronglySorted newer h.

(** Equality after trimming and lower-casing both sides. *)
Definition ci_equal (a b : jsstring) : Prop := normalize a = normalize b.

(** The names of the invoking account that a claim may match. *)
Definition candidate_names (member : User) : list jsstring :=
  username member :: match globalName member with
                     | Some g => [g]
                     | None => []
                     end.

(** The three checks of the loop body of [findMatchingModmail], on the
    normalized names. *)
Definition loop_checks (targetReddit username globalName : jsstring)
    (p : Parsed) : bool :=
  negb (is_banned (status p))
  && string_eqb (normalize (redditName p)) targetReddit
  && discordMatches username globalName (normalize (discordName p)).

Module Spec.

Fixpoint take_while (p : Message -> bool) (l : list Message) : list Message :=
  match l with
  | [] => []
  | m :: t => if p m then m :: take_while p t else []
  end.

(** The messages a scan inspects and parses: at most [maxScanned], up to
    the first one older than the cutoff. *)
Definition window (channel : list Message) (cutoff : Z) (maxScanned : nat)
    : list Message :=
  take_while (fun m => negb (createdTimestamp m <? cutoff)%Z)
    (firstn maxScanned channel).

Definition record_of (m : Message) : list Match :=
  match parseModmailMessageFromFullText (buildFullTextFromMessage m) with
  | Some p => [{| parsed := p; message := m |}]
  | None => []
  end.

(** The scanner: the parsed records of the window, newest first; messages
    that fail parsing are skipped. *)
Definition scan (channel : list Message) (cutoff : Z) (maxScanned : nat)
    : list Match :=
  flat_map record_of (window channel cutoff maxScanned).

(** The query of one verification attempt. *)
Record Query := {
  externalIdentityInput : jsstring;
  candidateLocalNames : list jsstring;
  lookbackCutoff : Z;
  maxScanned : nat
}.

(** Equality of identities: both sides trimmed and lower-cased. *)
Definition ci_eqb (a b : jsstring) : bool :=
  string_eqb (normalize a) (normalize b).

(** A status denotes a banned state when it contains the marker, in any
    case. *)
Definition banned (status : jsstring) : bool :=
  includes (str "banned") (toLowerCase status).

(** The three checks, in order: not banned, the external identity is the
    query's, the local identity claim is one of the candidate names. *)
Definition passes (q : Query) (p : Parsed) : bool :=
  negb (banned (status p))
  && ci_eqb (redditName p) (externalIdentityInput q)
  && existsb (ci_eqb (discordName p)) (candidateLocalNames q).

(** The matcher: the first record of the scan that passes. *)
Definition findMatch (channel : list Message) (q : Query) : option Match :=
  find (fun mt => passes q (parsed mt))
    (scan channel (lookbackCutoff q) (maxScanned q)).

End Spec.

(** The result of scanning the whole history as one batch. *)
Definition whole_scan (cutoff : Z) (targetReddit username globalName : jsstring)
    (channel : list Message) (scanned : nat) : option Match * nat :=
  match scan_batch cutoff targetReddit username globalName channel scanned with
  | (Return r, n) => (r, n)
  | (Exhausted, n) => (None, n)
  end.

(** The cursor after the messages [seen]: the snowflake of the last one. *)
Definition cursor (seen : list Message) : option N :=
  match seen with
  | [] => None
  | m :: _ => Some (id (last seen m))
  end.

(** The cutoff of a search started at [now]. *)
Definition cutoff_of (now lookbackHours : Z) : Z :=
  (now - lookbackHours * 60 * 60 * 1000)%Z.

(** The query that a call of [findMatchingModmail] stands for. *)
Definition query_of (now : Z) (redditNameInput : jsstring) (member : User)
    (lookbackHours : Z) : Spec.Query :=
  {| Spec.externalIdentityInput := redditNameInput;
     Spec.candidateLocalNames := candidate_names member;
     Spec.lookbackCutoff := cutoff_of now lookbackHours;
     Spec.maxScanned := MAX_SCANNED |}.

Definition globalName_or_empty (member : User) : jsstring :=
  match globalName member with Some g => g | None => [] end.

(** *** A small channel: the account of scenario 2 and four forwards *)

Definition toad : User :=
  {| username := str "pikachucatcher88";
     globalName := Some (str "Pika");
     tag := str "pikachucatcher88#0" |}.

Definition now0 : Z := 1700000000000.
Definition hour : Z := 3600000.

Definition plain (i : N) (ts : Z) (text : jsstring) : Message :=
  {| id := i; createdTimestamp := ts; content := text; embeds := [] |}.

(** A forward that carries the record in the fields of an embed. *)
Definition embedded (i : N) (ts : Z) (author body st : string) : Message :=
  {| id := i; createdTimestamp := ts; content := [];
     embeds := [ {| description := [];
                    fields := [ {| name := str "Author"; value := str author |};
                                {| name := str "Body"; value := str body |};
                                {| name := str "Status"; value := str st |} ] |} ] |}.

Definition chatter : Message := plain 50 (now0 - hour) (str "hello mods").

Definition newer_forward : Message :=
  embedded 40 (now0 - 2 * hour)
    "[**Hermit_Toad**](https://www.reddit.com/u/Hermit_Toad)"
    "Register Discord with Discord ID: PikachuCatcher88" "Active".

Definition older_forward : Message := plain 30 (now0 - 3 * hour) scenario1.

Definition stale_forward : Message := plain 20 (now0 - 13 * hour) scenario1.

Definition ancient_forward : Message := plain 10 (now0 - 14 * hour) scenario1.

Definition channel0 : list Message :=
  [chatter; newer_forward; older_forward; stale_forward; ancient_forward].

(** [n] messages of chatter, newest first, all newer than the forwards. *)
Fixpoint fillers (n : nat) : list Message :=
  match n with
  | O => []
  | S k => plain (N.of_nat (1000 + n)) now0 (str "hello") :: fillers k
  end.



(** The argument of the command, as [handleVerifyCommand] reads it. *)
Definition verify_argument (content : jsstring) : jsstring :=
  strip_u_prefix (nth 1 (split_ws (trim content)) []).

Definition cfg0 : Config := {| ROLE_ID := 777; LOOKBACK_HOURS := 12 |}.

Definition world0 : World :=
  {| guild_resolves := true;
     modmail_channel := Some (true, channel0);
     member_of := Some toad;
     account := {| roles := []; nickname := None |};
     clock := now0;
     roles_add_succeeds := true;
     setNickname_succeeds := true |}.

(** A forward with a Participant line and an Author line of different
    values. *)
Definition participant_text : jsstring :=
  str "Participant: Alice" ++ [LF]
  ++ str "Author: Bob" ++ [LF]
  ++ str "Body: Verify Discord: bobby".

(** The same, after a line that mentions the label in passing. *)
Definition participant_midline : jsstring :=
  str "Re participant: zed" ++ [LF] ++ participant_text.

(** A forward without a body line, and one whose only name is markup. *)
Definition no_body_text : jsstring :=
  str "Author: Hermit_Toad" ++ [LF] ++ str "Status: Active".

Definition no_name_text : jsstring :=
  str "**" ++ [LF] ++ str "Body: Verify Discord: toad".

(** Markup that a pass of a normalizer would still remove. *)
Definition first_is_star (s : jsstring) : bool :=
  match s with c :: _ => is_star c | [] => false end.

Fixpoint last_is_star (s : jsstring) : bool :=
  match s with
  | [] => false
  | [c] => is_star c
  | _ :: t => last_is_star t
  end.

(** Some position of [s] begins a link [[label](url)]. *)
Definition has_link (s : jsstring) : bool :=
  match search Legacy.link_at s with Some _ => true | None => false end.

(** The characters the two normalizers treat as markup. *)
Definition is_marker (c : ascii) : bool :=
  Ascii.eqb c "*"%char || Ascii.eqb c "`"%char || Ascii.eqb c "["%char.

Definition marker_free (s : jsstring) : Prop :=
  forallb (fun c => negb (is_marker c)) s = true.

(** A string that does not begin with white space. *)
Definition no_lead_ws (s : jsstring) : Prop :=
  match s with [] => True | c :: _ => is_ws c = false end.

(* ================================================================== *)
(** ** The lookup command of the command-driven bot *)

Module Commands.

(** The replies of [!reddit], by template. *)
Inductive LookupReply :=
| CouldNotResolve
| NotLinked
| ProfileLink (redditName nickname url : jsstring).

(** [handleRedditCommand(message)].  [mentioned] is the display name of
    the first member mentioned, [self] the one of the author's member
    ([None] when there is no such member). *)
Definition handleRedditCommand (mentioned self : option jsstring)
    : LookupReply :=
  let targetMember :=
    match mentioned with
    | Some m => Some m
    | None => self
    end in
  match targetMember with
  | None => CouldNotResolve
  | Some nickname =>
      if negb (truthy nickname) || negb (includes (str "|") nickname)
      then NotLinked
      else
        let redditNameRaw := trim (hd [] (split "|"%char nickname)) in
        let redditName :=
          if startsWith (str "u/") (toLowerCase redditNameRaw)
          then skipn 2 redditNameRaw
          else redditNameRaw in
        ProfileLink redditName nickname
          (str "https://www.reddit.com/u/" ++ redditName)
  end.

End Commands.

(** *** Well-formed forwards *)

(** A token: not empty, without white space. *)
Definition token (s : jsstring) : Prop :=
  s <> [] /\ forallb not_ws s = true.

(** The value of a field: one line, not empty, without white space at
    either end. *)
Definition field_value (s : jsstring) : Prop :=
  s <> [] /\ trim s = s /\ forallb (not_char LF) s = true.

(** The two phrasings of the body that the parser accepts. *)
Definition register_phrase : jsstring :=
  str "Register Discord with Discord ID: ".
Definition verify_phrase : jsstring := str "Verify Discord: ".

(** The text of a forward with its three labelled lines. *)
Definition forward_text (author body st : jsstring) : jsstring :=
  str "Author: " ++ author ++ LF :: str "Body: " ++ body
  ++ LF :: str "Status: " ++ st.

(** The same forward as the fields of an embed. *)
Definition forward_embed (i : N) (ts : Z) (author body st : jsstring)
    : Message :=
  {| id := i; createdTimestamp := ts; content := [];
     embeds := [ {| description := [];
                    fields := [ {| name := str "Author"; value := author |};
                                {| name := str "Body"; value := body |};
                                {| name := str "Status"; value := st |} ] |} ] |}.

(** Scenario 4: the only forward in the channel has a banned status. *)
Definition banned_forward : Message :=
  plain 60 (now0 - hour)
    (forward_text (str "Hermit_Toad")
       (register_phrase ++ str "pikachucatcher88") (str "Banned")).

Definition world_banned : World :=
  {| guild_resolves := true;
     modmail_channel := Some (true, [banned_forward]);
     member_of := Some toad;
     account := {| roles := []; nickname := None |};
     clock := now0;
     roles_add_succeeds := true;
     setNickname_succeeds := true |}.

(** The markup shapes the normalizers are written for: bold text and a
    link with a label and a target. *)
Definition bold (s : jsstring) : jsstring := str "**" ++ s ++ str "**".

Definition md_link (label url : jsstring) : jsstring :=
  str "[" ++ label ++ str "](" ++ url ++ str ")".

(** A name without markup: not empty, without white space at either end,
    none of the characters star, backquote and opening bracket, and no
    closing bracket. *)
Definition plain_name (s : jsstring) : Prop :=
  s <> [] /\ trim s = s /\ marker_free s
  /\ forallb (not_char "]"%char) s = true.

(** The target of a link: not empty, no closing parenthesis. *)
Definition link_target (u : jsstring) : Prop :=
  u <> [] /\ forallb (not_char ")"%char) u = true.

(** A forward as the relay writes it: one of the two phrasings, an
    author without markup characters, a Discord name that is one token
    and does not end in a star, a status without a colon. *)
Definition well_formed (phrase a d st : jsstring) : Prop :=
  (phrase = register_phrase \/ phrase = verify_phrase)
  /\ field_value a /\ marker_free a
  /\ token d /\ last_is_star d = false
  /\ field_value st /\ forallb (not_char ":"%char) st = true.

(** A command line: the command word, white space, one argument. *)
Definition command_line (cmd sep arg : jsstring) : Prop :=
  token cmd /\ sep <> [] /\ forallb is_ws sep = true /\ token arg.

(** A well-formed forward without markup, with values that the patterns
    of the push-driven script read whole: no colon and no line break in
    the author, the Discord name and the status. *)
Definition colon_free (s : jsstring) : Prop :=
  forallb (not_char ":"%char) s = true.

Definition plain_forward (phrase a d st : jsstring) : Prop :=
  well_formed phrase a d st
  /\ forallb not_eol a = true /\ colon_free a
  /\ marker_free d /\ colon_free d
  /\ forallb not_eol st = true /\ marker_free st.

(** *** The text that the push-driven script sees *)

Module LegacyMessage.

Record Field := { name : jsstring; value : jsstring }.

(** An embed; an absent title or description is the empty string. *)
Record Embed := {
  title : jsstring;
  description : jsstring;
  fields : list Field
}.

Record Message := { content : jsstring; embeds : list Embed }.

(** [getMessageText(message)]: the content, then for each embed its title,
    its description and the name and the value of each field, every piece
    on a line of its own. *)
Definition getMessageText (message : Message) : jsstring :=
  let of_field (f : Field) :=
    (if truthy (name f) then [name f] else [])
    ++ (if truthy (value f) then [value f] else []) in
  let of_embed (e : Embed) :=
    (if truthy (title e) then [title e] else [])
    ++ (if truthy (description e) then [description e] else [])
    ++ flat_map of_field (fields e) in
  join [LF]
    ((if truthy (content message) then [content message] else [])
     ++ flat_map of_embed (embeds message)).

(** A forward carried by the fields of an embed. *)
Definition forward_fields (author body st : jsstring) : Message :=
  {| content := [];
     embeds := [ {| title := []; description := [];
                    fields := [ {| name := str "Author"; value := author |};
                                {| name := str "Body"; value := body |};
                                {| name := str "Status"; value := st |} ] |} ] |}.

(** A forward carried by the content of the message. *)
Definition forward_content (author body st : jsstring) : Message :=
  {| content := forward_text author body st; embeds := [] |}.

End LegacyMessage.

(* ================================================================== *)
(** ** Strings: trimming *)

Section Trim.

Lemma dropWhile_app_single p (l : jsstring) c :
  dropWhile p (l ++ [c]) =
  if forallb p l then dropWhile p [c] else dropWhile p l ++ [c].
Proof.
  induction l as [|a l IH]; simpl; [reflexivity|].
  destruct (p a); simpl; [exact IH | reflexivity].
Qed.

Lemma dropWhile_nil_iff p (l : jsstring) :
  dropWhile p l = [] <-> forallb p l = true.
Proof.
  induction l as [|a l IH]; simpl; [tauto|].
  destruct (p a); simpl; [exact IH | split; discriminate].
Qed.

(** [trimEnd] read from the front of the string. *)
Lemma trimEnd_cons c s :
  trimEnd (c :: s) =
  if truthy (trimEnd s) then c :: trimEnd s
  else if is_ws c then [] else [c].
Proof.
  unfold trimEnd; simpl rev.
  rewrite dropWhile_app_single.
  destruct (forallb is_ws (rev s)) eqn:E.
  - apply dropWhile_nil_iff in E. rewrite E; simpl.
    destruct (is_ws c); reflexivity.
  - destruct (dropWhile is_ws (rev s)) as [|a l] eqn:D.
    + apply dropWhile_nil_iff in D. congruence.
    + rewrite rev_app_distr; simpl.
      destruct (rev l ++ [a]) eqn:R; [destruct (rev l); discriminate|].
      reflexivity.
Qed.

Lemma trimEnd_nil : trimEnd [] = [].
Proof. reflexivity. Qed.

Lemma dropWhile_no_lead_ws s : no_lead_ws (dropWhile is_ws s).
Proof.
  induction s as [|a s IH]; simpl; [exact I|].
  destruct (is_ws a) eqn:E; [exact IH | simpl; exact E].
Qed.

Lemma no_lead_ws_fixed s : no_lead_ws s -> dropWhile is_ws s = s.
Proof. destruct s; simpl; [reflexivity | intros ->; reflexivity]. Qed.

Lemma trimEnd_no_lead_ws s : no_lead_ws s -> no_lead_ws (trimEnd s).
Proof.
  destruct s as [|c s]; [intros _; exact I|].
  simpl; intros H. rewrite trimEnd_cons.
  destruct (truthy (trimEnd s)); simpl; [exact H|].
  rewrite H; simpl; exact H.
Qed.

Lemma trimEnd_idem s : trimEnd (trimEnd s) = trimEnd s.
Proof.
  unfold trimEnd. rewrite rev_involutive.
  rewrite no_lead_ws_fixed by apply dropWhile_no_lead_ws. reflexivity.
Qed.

Lemma trim_no_lead_ws s : no_lead_ws (trim s).
Proof. apply trimEnd_no_lead_ws, dropWhile_no_lead_ws. Qed.

Lemma trim_idem s : trim (trim s) = trim s.
Proof.
  unfold trim at 1. unfold trimStart.
  rewrite no_lead_ws_fixed by apply trim_no_lead_ws.
  unfold trim. apply trimEnd_idem.
Qed.

Lemma trim_nil : trim [] = [].
Proof. reflexivity. Qed.

Lemma forallb_dropWhile (q p : ascii -> bool) s :
  forallb q s = true -> forallb q (dropWhile p s) = true.
Proof.
  induction s as [|a s IH]; simpl; [reflexivity|].
  intros H; apply andb_true_iff in H as [Ha Hs].
  destruct (p a); [auto | simpl; rewrite Ha, Hs; reflexivity].
Qed.

Lemma forallb_rev (q : ascii -> bool) (s : jsstring) :
  forallb q (rev s) = forallb q s.
Proof.
  induction s as [|a s IH]; simpl; [reflexivity|].
  rewrite forallb_app, IH; simpl. rewrite andb_true_r. apply andb_comm.
Qed.

Lemma forallb_trim (q : ascii -> bool) s :
  forallb q s = true -> forallb q (trim s) = true.
Proof.
  intros H. unfold trim, trimEnd, trimStart.
  rewrite forallb_rev. apply forallb_dropWhile.
  rewrite forallb_rev. apply forallb_dropWhile. exact H.
Qed.

Lemma trimEnd_snoc s c : is_ws c = false -> trimEnd (s ++ [c]) = s ++ [c].
Proof.
  intros H. unfold trimEnd. rewrite rev_app_distr. simpl.
  rewrite H. simpl. rewrite rev_involutive. reflexivity.
Qed.

(** A token, a non-empty string without white space, is its own trim. *)
Lemma trim_token g :
  g <> [] -> forallb not_ws g = true -> trim g = g.
Proof.
  intros Hne Hg. unfold trim, trimStart.
  assert (Hd : dropWhile is_ws g = g).
  { destruct g as [|c g]; [reflexivity|]. simpl in *.
    apply andb_true_iff in Hg as [Hc _].
    unfold not_ws in Hc. apply negb_true_iff in Hc. rewrite Hc. reflexivity. }
  rewrite Hd. destruct (exists_last Hne) as (t & c & ->).
  rewrite forallb_app in Hg. apply andb_true_iff in Hg as [_ Hc].
  simpl in Hc. rewrite andb_true_r in Hc.
  unfold not_ws in Hc. apply negb_true_iff in Hc.
  apply trimEnd_snoc, Hc.
Qed.

End Trim.

(* ================================================================== *)
(** ** Regular-expression pieces: when a pattern cannot match *)

Section RegexFacts.

Variable A : Type.

Lemma startsWith_cons_inv x p s :
  startsWith (x :: p) s = true -> exists t, s = x :: t.
Proof.
  destruct s as [|b s]; simpl; [discriminate|].
  intros H; apply andb_true_iff in H as [H _].
  apply Ascii.eqb_eq in H; subst; eauto.
Qed.

Lemma lit_first x p (k : jsstring -> option A) s :
  lit (x :: p) k s <> None -> exists t, s = x :: t.
Proof.
  unfold lit. destruct (startsWith (x :: p) s) eqn:E; [|congruence].
  intros _; eapply startsWith_cons_inv; eauto.
Qed.

End RegexFacts.

Lemma replace_all_absent x m s :
  (forall t, m t <> None -> exists t', t = x :: t') ->
  forallb (not_char x) s = true ->
  replace_all m s = s.
Proof.
  intros Hm. unfold replace_all.
  induction s as [|a s IH]; simpl; [reflexivity|].
  intros H; apply andb_true_iff in H as [Ha Hs].
  destruct (m (a :: s)) as [[out rest]|] eqn:E.
  - destruct (Hm (a :: s)) as [t' Ht]; [congruence|].
    inversion Ht; subst. unfold not_char in Ha.
    rewrite Ascii.eqb_refl in Ha. discriminate.
  - rewrite IH by assumption. reflexivity.
Qed.

Lemma marker_free_not_char s x :
  is_marker x = true -> marker_free s -> forallb (not_char x) s = true.
Proof.
  intros Hx H. apply forallb_forall; intros c Hc.
  unfold marker_free in H. rewrite forallb_forall in H.
  specialize (H c Hc). unfold not_char.
  destruct (Ascii.eqb c x) eqn:E; [|reflexivity].
  apply Ascii.eqb_eq in E; subst. rewrite Hx in H. discriminate.
Qed.

(* ================================================================== *)
(** ** The normalizers on text without markup *)

Lemma stripFormatting_marker_free y :
  marker_free y -> Legacy.stripFormatting y = trim y.
Proof.
  intros H. unfold Legacy.stripFormatting.
  destruct y as [|c y]; [reflexivity|]. simpl negb. cbv iota.
  rewrite (@replace_all_absent "["%char Legacy.link_at).
  - rewrite (@replace_all_absent "*"%char (Legacy.erase "**")).
    + rewrite (@replace_all_absent "`"%char (Legacy.erase "`")).
      * reflexivity.
      * intros t. apply lit_first.
      * apply marker_free_not_char; [reflexivity | exact H].
    + intros t. apply lit_first.
    + apply marker_free_not_char; [reflexivity | exact H].
  - intros t. apply lit_first.
  - apply marker_free_not_char; [reflexivity | exact H].
Qed.

Lemma strip_trailing_stars_absent s :
  forallb (not_char "*"%char) s = true -> strip_trailing_stars s = s.
Proof.
  induction s as [|a s IH]; [reflexivity|].
  intros H; simpl in H; apply andb_true_iff in H as [Ha Hs].
  unfold not_char in Ha. apply negb_true_iff in Ha.
  change (strip_trailing_stars (a :: s))
    with (if stars_to_end (a :: s) then [] else a :: strip_trailing_stars s).
  assert (E : stars_to_end (a :: s) = false).
  { unfold stars_to_end, is_star. rewrite Ha.
    destruct s as [|b [|c s']]; reflexivity. }
  rewrite E, IH by assumption. reflexivity.
Qed.

Lemma strip_leading_stars_absent s :
  forallb (not_char "*"%char) s = true -> strip_leading_stars s = s.
Proof.
  destruct s as [|a s]; [reflexivity|].
  intros H; simpl in H; apply andb_true_iff in H as [Ha _].
  unfold not_char in Ha. apply negb_true_iff in Ha.
  unfold strip_leading_stars, is_star. rewrite Ha. reflexivity.
Qed.

Lemma link_wrapper_absent s :
  forallb (not_char "["%char) s = true -> link_wrapper s = None.
Proof.
  intros H. destruct (link_wrapper s) eqn:E; [|reflexivity].
  assert (Hne : link_wrapper s <> None) by congruence.
  unfold link_wrapper in Hne. change (str "[") with ["["%char] in Hne.
  apply lit_first in Hne as [t Ht].
  subst. simpl in H. discriminate.
Qed.

Lemma stripMarkdown_marker_free y :
  marker_free y -> stripMarkdown y = trim y.
Proof.
  intros H. unfold stripMarkdown.
  destruct (truthy y) eqn:T; simpl.
  - assert (Hs := marker_free_not_char "*"%char eq_refl H).
    assert (Hl := marker_free_not_char "["%char eq_refl H).
    rewrite !(strip_leading_stars_absent y Hs).
    rewrite !(strip_trailing_stars_absent y Hs).
    rewrite (link_wrapper_absent y Hl).
    rewrite (strip_leading_stars_absent y Hs).
    rewrite (strip_trailing_stars_absent y Hs). reflexivity.
  - destruct y; [reflexivity | discriminate].
Qed.

Lemma stripFormatting_trimmed x :
  trim (Legacy.stripFormatting x) = Legacy.stripFormatting x.
Proof.
  unfold Legacy.stripFormatting.
  destruct (negb (truthy x)); [reflexivity | apply trim_idem].
Qed.

Lemma stripMarkdown_trimmed x :
  trim (stripMarkdown x) = stripMarkdown x.
Proof.
  unfold stripMarkdown.
  destruct (truthy x) eqn:T; simpl; [apply trim_idem|].
  destruct x; [reflexivity | discriminate].
Qed.

(* ================================================================== *)
(** ** Regular-expression pieces: what a match consumed *)

Section RegexSound.

Variable A : Type.

Lemma startsWith_split p s :
  startsWith p s = true -> s = p ++ skipn (length p) s.
Proof.
  revert s. induction p as [|a p IH]; intros s; [reflexivity|].
  destruct s as [|b s]; simpl; [discriminate|].
  intros H. apply andb_true_iff in H as [Hab H].
  apply Ascii.eqb_eq in Hab. subst. f_equal. apply IH, H.
Qed.

Lemma lit_sound p (k : jsstring -> option A) s x :
  lit p k s = Some x -> exists r, s = p ++ r /\ k r = Some x.
Proof.
  unfold lit. destruct (startsWith p s) eqn:E; [|discriminate].
  intros H. exists (skipn (length p) s).
  split; [apply startsWith_split, E | exact H].
Qed.

Lemma star_cap_sound c s : forall (k : jsstring -> jsstring -> option A) x,
  star_cap c k s = Some x -> exists v r, s = v ++ r /\ k v r = Some x.
Proof.
  induction s as [|a s IH]; intros k x; simpl.
  - intros H. exists [], []. auto.
  - destruct (c a); [|intros H; exists [], (a :: s); auto].
    destruct (star_cap c (fun v r => k (a :: v) r) s) as [y|] eqn:E.
    + intros H; inversion H; subst.
      apply IH in E as (v & r & -> & Hk). exists (a :: v), r. auto.
    + intros H. exists [], (a :: s). auto.
Qed.

Lemma plus_cap_sound c s (k : jsstring -> jsstring -> option A) x :
  plus_cap c k s = Some x -> exists v r, s = v ++ r /\ k v r = Some x.
Proof.
  unfold plus_cap. destruct s as [|a s]; [discriminate|].
  destruct (c a); [|discriminate].
  intros H. apply star_cap_sound in H as (v & r & -> & Hk).
  exists (a :: v), r. auto.
Qed.

(** The characters a greedy run consumed belong to its class. *)
Lemma star_cap_class c s : forall (k : jsstring -> jsstring -> option A) x,
  star_cap c k s = Some x ->
  exists v r, forallb c v = true /\ k v r = Some x.
Proof.
  induction s as [|a s IH]; intros k x; simpl.
  - intros H. exists [], []. auto.
  - destruct (c a) eqn:Ca; [|intros H; exists [], (a :: s); auto].
    destruct (star_cap c (fun v r => k (a :: v) r) s) as [y|] eqn:E.
    + intros H; inversion H; subst.
      apply IH in E as (v & r & Hv & Hk). exists (a :: v), r.
      simpl. rewrite Ca, Hv. auto.
    + intros H. exists [], (a :: s). auto.
Qed.

Lemma plus_cap_class c s (k : jsstring -> jsstring -> option A) x :
  plus_cap c k s = Some x ->
  exists v r, v <> [] /\ forallb c v = true /\ k v r = Some x.
Proof.
  unfold plus_cap. destruct s as [|a s]; [discriminate|].
  destruct (c a) eqn:Ca; [|discriminate].
  intros H. apply star_cap_class in H as (v & r & Hv & Hk).
  exists (a :: v), r. simpl. rewrite Ca, Hv.
  split; [discriminate | auto].
Qed.

Lemma lit_ci_sound p (k : jsstring -> option A) s x :
  lit_ci p k s = Some x -> exists r, k r = Some x.
Proof.
  unfold lit_ci. destruct (startsWith _ _); [|discriminate]. eauto.
Qed.

Lemma rstar_sound c (k : jsstring -> option A) s x :
  rstar c k s = Some x -> exists r, k r = Some x.
Proof.
  unfold rstar. intros H. apply star_cap_class in H as (v & r & _ & H). eauto.
Qed.

Lemma rplus_sound c (k : jsstring -> option A) s x :
  rplus c k s = Some x -> exists r, k r = Some x.
Proof.
  unfold rplus. intros H.
  apply plus_cap_class in H as (v & r & _ & _ & H). eauto.
Qed.

Lemma search_sound (m : jsstring -> option A) s x :
  search m s = Some x -> exists s', m s' = Some x.
Proof.
  induction s as [|c t IH]; simpl.
  - destruct (m []) eqn:E; [|discriminate]. intros H; inversion H; subst. eauto.
  - destruct (m (c :: t)) eqn:E; [intros H; inversion H; subst; eauto|].
    exact IH.
Qed.

End RegexSound.

(** A link is longer than its label. *)
Lemma link_at_shrinks s label rest :
  Legacy.link_at s = Some (label, rest) ->
  length label + length rest < length s.
Proof.
  unfold Legacy.link_at. intros H.
  apply lit_sound in H as (r1 & -> & H).
  apply plus_cap_sound in H as (v & r2 & -> & H).
  apply lit_sound in H as (r3 & -> & H).
  apply lit_sound in H as (r4 & -> & H).
  apply star_cap_sound in H as (u & r5 & -> & H).
  apply lit_sound in H as (r6 & -> & H).
  inversion H; subst.
  repeat (rewrite length_app; simpl). lia.
Qed.

Lemma link_wrapper_shrinks s label :
  link_wrapper s = Some label -> length label < length s.
Proof.
  unfold link_wrapper. intros H.
  apply lit_sound in H as (r1 & -> & H).
  apply plus_cap_sound in H as (v & r2 & -> & H).
  apply lit_sound in H as (r3 & -> & H).
  apply lit_sound in H as (r4 & -> & H).
  apply plus_cap_sound in H as (u & r5 & -> & H).
  apply lit_sound in H as (r6 & -> & H).
  unfold eoi in H. destruct r6; inversion H; subst.
  repeat (rewrite length_app; simpl). lia.
Qed.

Lemma erase_shrinks p s out rest :
  Legacy.erase p s = Some (out, rest) ->
  str p <> [] -> length out + length rest < length s.
Proof.
  unfold Legacy.erase. intros H Hp.
  apply lit_sound in H as (r & -> & H). inversion H; subst.
  rewrite length_app. destruct (str p); [congruence | simpl; lia].
Qed.

(* ================================================================== *)
(** ** Global replacement *)

Section Replace.

Variable m : jsstring -> option (jsstring * jsstring).

(** Every replacement is shorter than what it replaces. *)
Hypothesis m_shrinks : forall s out rest,
  m s = Some (out, rest) -> length out + length rest < length s.

Lemma replace_from_cons skip c t :
  replace_from m skip (c :: t) =
  match skip with
  | S n => replace_from m n t
  | O =>
      match m (c :: t) with
      | Some (out, rest) =>
          out ++ replace_from m (length (c :: t) - length rest - 1) t
      | None => c :: replace_from m 0 t
      end
  end.
Proof. reflexivity. Qed.

Lemma replace_from_length s : forall skip,
  length (replace_from m skip s) + Nat.min skip (length s) <= length s.
Proof.
  induction s as [|c t IH]; intros skip; [simpl; lia|].
  rewrite replace_from_cons. destruct skip as [|n].
  - destruct (m (c :: t)) as [[out rest]|] eqn:E.
    + apply m_shrinks in E. rewrite length_app.
      specialize (IH (length (c :: t) - length rest - 1)).
      simpl length in *. lia.
    + specialize (IH 0). simpl length. lia.
  - specialize (IH n). simpl length. lia.
Qed.

Lemma replace_all_length s : length (replace_all m s) <= length s.
Proof. unfold replace_all. pose proof (replace_from_length s 0). lia. Qed.

Lemma replace_all_shorter s :
  search m s <> None -> length (replace_all m s) < length s.
Proof.
  unfold replace_all. induction s as [|c t IH].
  - simpl. destruct (m []) as [[out rest]|] eqn:E; [|congruence].
    apply m_shrinks in E. simpl in E. lia.
  - rewrite replace_from_cons. simpl search.
    destruct (m (c :: t)) as [[out rest]|] eqn:E.
    + intros _. apply m_shrinks in E. rewrite length_app.
      pose proof (replace_from_length t (length (c :: t) - length rest - 1)).
      simpl length in *. lia.
    + intros H. specialize (IH H). simpl length. lia.
Qed.

End Replace.

Lemma replace_all_no_match m s :
  search m s = None -> replace_all m s = s.
Proof.
  unfold replace_all. induction s as [|c t IH]; simpl; [reflexivity|].
  destruct (m (c :: t)) as [[out rest]|]; [discriminate|].
  intros H. rewrite (IH H). reflexivity.
Qed.

Lemma includes_search p s :
  includes (str p) s = false <-> search (Legacy.erase p) s = None.
Proof.
  induction s as [|c t IH]; simpl; unfold Legacy.erase, lit.
  - destruct (startsWith (str p) []); simpl; split; congruence.
  - destruct (startsWith (str p) (c :: t)); simpl; [split; congruence|].
    exact IH.
Qed.

(** Erasing the inline-code delimiter leaves none behind. *)
Lemma erase_backquote_none s :
  forallb (not_char "`"%char) (replace_all (Legacy.erase "`") s) = true.
Proof.
  unfold replace_all. induction s as [|c t IH]; [reflexivity|].
  rewrite replace_from_cons. unfold Legacy.erase at 1, lit.
  change (startsWith (str "`") (c :: t)) with (Ascii.eqb "`" c && true).
  destruct (Ascii.eqb "`" c) eqn:E; simpl andb; cbv iota.
  - change (skipn (length (str "`")) (c :: t)) with t.
    replace (length (c :: t) - length t - 1) with 0 by (cbn [length]; lia).
    exact IH.
  - simpl forallb. unfold not_char at 1. rewrite Ascii.eqb_sym, E. exact IH.
Qed.

(* ================================================================== *)
(** ** Lengths through the steps of the normalizers *)

Lemma dropWhile_length p (s : jsstring) : length (dropWhile p s) <= length s.
Proof.
  induction s as [|c t IH]; simpl; [lia|]. destruct (p c); simpl; lia.
Qed.

Lemma trim_length s : length (trim s) <= length s.
Proof.
  unfold trim, trimEnd, trimStart. rewrite length_rev.
  pose proof (dropWhile_length is_ws (rev (dropWhile is_ws s))).
  rewrite length_rev in H.
  pose proof (dropWhile_length is_ws s). lia.
Qed.

Lemma strip_leading_stars_length s :
  length (strip_leading_stars s) <= length s
  /\ (first_is_star s = true -> length (strip_leading_stars s) < length s).
Proof.
  destruct s as [|c1 [|c2 t]]; simpl.
  - split; [lia | discriminate].
  - destruct (is_star c1); simpl; split; try lia; discriminate.
  - destruct (is_star c1); [destruct (is_star c2)|]; simpl;
      split; try lia; discriminate.
Qed.

Lemma strip_leading_stars_fixed s :
  first_is_star s = false -> strip_leading_stars s = s.
Proof. destruct s as [|c t]; simpl; [reflexivity | intros ->; reflexivity]. Qed.

Lemma strip_trailing_stars_step c t :
  strip_trailing_stars (c :: t)
  = if stars_to_end (c :: t) then [] else c :: strip_trailing_stars t.
Proof. reflexivity. Qed.

Lemma strip_trailing_stars_length s :
  length (strip_trailing_stars s) <= length s
  /\ (last_is_star s = true -> length (strip_trailing_stars s) < length s).
Proof.
  induction s as [|c t [IH1 IH2]]; [simpl; split; [lia | discriminate]|].
  rewrite strip_trailing_stars_step.
  destruct (stars_to_end (c :: t)) eqn:E; simpl length; [split; lia|].
  split; [lia|]. intros L.
  destruct t as [|d t']; [simpl in *; congruence|].
  assert (L' : last_is_star (d :: t') = true) by exact L.
  specialize (IH2 L'). lia.
Qed.

Lemma strip_trailing_stars_fixed s :
  last_is_star s = false -> strip_trailing_stars s = s.
Proof.
  induction s as [|c t IH]; [reflexivity|]. intros L.
  rewrite strip_trailing_stars_step.
  destruct t as [|d t'].
  - simpl in *. rewrite L. reflexivity.
  - assert (L' : last_is_star (d :: t') = false) by exact L.
    assert (E : stars_to_end (c :: d :: t') = false).
    { destruct t' as [|e t'']; [|reflexivity].
      simpl in *. rewrite L'. apply andb_false_r. }
    rewrite E, (IH L'). reflexivity.
Qed.

(* ================================================================== *)
(** ** The formatting normalizers *)

(** One pass of [stripFormatting] never lengthens, and shortens a text
    that holds a link or a doubled star. *)
Lemma stripFormatting_length y :
  length (Legacy.stripFormatting y) <= length y
  /\ (has_link y = true \/ includes (str "**") y = true ->
      length (Legacy.stripFormatting y) < length y).
Proof.
  unfold Legacy.stripFormatting.
  destruct y as [|c y']; [simpl; split; [lia|]; intros [H|H]; discriminate|].
  set (y := c :: y'). simpl negb. cbv iota.
  pose proof (trim_length
    (replace_all (Legacy.erase "`")
       (replace_all (Legacy.erase "**") (replace_all Legacy.link_at y)))) as T.
  pose proof (@replace_all_length (Legacy.erase "`")
    (fun s o r E => @erase_shrinks "`" s o r E ltac:(discriminate))
    (replace_all (Legacy.erase "**") (replace_all Legacy.link_at y))) as B.
  pose proof (@replace_all_length (Legacy.erase "**")
    (fun s o r E => @erase_shrinks "**" s o r E ltac:(discriminate))
    (replace_all Legacy.link_at y)) as S.
  pose proof (@replace_all_length Legacy.link_at link_at_shrinks y) as L.
  split; [lia|].
  intros [H|H].
  - assert (search Legacy.link_at y <> None).
    { unfold has_link in H. destruct (search Legacy.link_at y);
        [discriminate | discriminate]. }
    pose proof (@replace_all_shorter Legacy.link_at link_at_shrinks y H0). lia.
  - destruct (search Legacy.link_at y) eqn:E.
    + assert (N : search Legacy.link_at y <> None) by congruence.
      pose proof (@replace_all_shorter Legacy.link_at link_at_shrinks y N).
      lia.
    + rewrite (replace_all_no_match _ _ E) in *.
      assert (N : search (Legacy.erase "**") y <> None).
      { intros N. apply includes_search in N. congruence. }
      pose proof (@replace_all_shorter (Legacy.erase "**")
        (fun s o r E => @erase_shrinks "**" s o r E ltac:(discriminate)) y N).
      lia.
Qed.

Lemma stripFormatting_no_backquote x :
  forallb (not_char "`"%char) (Legacy.stripFormatting x) = true.
Proof.
  unfold Legacy.stripFormatting.
  destruct (negb (truthy x)); [reflexivity|].
  apply forallb_trim, erase_backquote_none.
Qed.

(** One pass of [stripMarkdown] never lengthens, and shortens a text
    with a star at either end or one that is a link wrapper. *)
Lemma stripMarkdown_shorter y :
  first_is_star y = true \/ last_is_star y = true \/ link_wrapper y <> None ->
  length (stripMarkdown y) < length y.
Proof.
  intros H. unfold stripMarkdown.
  destruct y as [|c y']; [simpl in H; destruct H as [H|[H|H]];
                          [discriminate | discriminate | now elim H]|].
  set (y := c :: y') in *. simpl negb. cbv iota. cbv zeta.
  remember (strip_trailing_stars (strip_leading_stars y)) as s1 eqn:Hs1.
  remember (match link_wrapper s1 with Some label => label | None => s1 end)
    as s2 eqn:Hs2.
  pose proof (trim_length (strip_trailing_stars (strip_leading_stars s2))) as T.
  destruct (strip_trailing_stars_length (strip_leading_stars s2)) as [T2 _].
  destruct (strip_leading_stars_length s2) as [L2 _].
  assert (W : length s2 <= length s1).
  { rewrite Hs2. destruct (link_wrapper s1) eqn:E; [|lia].
    apply link_wrapper_shrinks in E. lia. }
  destruct (strip_trailing_stars_length (strip_leading_stars y)) as [T1 T1s].
  rewrite <- Hs1 in T1, T1s.
  destruct (strip_leading_stars_length y) as [L1 L1s].
  destruct (first_is_star y) eqn:F; [specialize (L1s eq_refl); lia|].
  rewrite (strip_leading_stars_fixed _ F) in Hs1, T1, T1s.
  destruct (last_is_star y) eqn:E; [specialize (T1s eq_refl); lia|].
  rewrite (strip_trailing_stars_fixed _ E) in Hs1.
  destruct H as [H|[H|H]]; [discriminate | discriminate|].
  assert (W' : length s2 < length y).
  { rewrite Hs2, Hs1. destruct (link_wrapper y) eqn:K; [|congruence].
    apply link_wrapper_shrinks in K. exact K. }
  lia.
Qed.

(** C6, as stated, fails on both normalizers: removing the inline-code
    delimiter from [*`*] leaves a doubled emphasis marker that only a
    second pass of [stripFormatting] removes, and trimming [ **a] exposes
    leading emphasis markers that only a second pass of [stripMarkdown]
    removes. *)
Lemma normalizers_not_idempotent :
  Legacy.stripFormatting (Legacy.stripFormatting (str "*`*"))
    <> Legacy.stripFormatting (str "*`*")
  /\ stripMarkdown (stripMarkdown (str " **a")) <> stripMarkdown (str " **a").
Proof. split; vm_compute; discriminate. Qed.

(** C6, amended: a second pass of a normalizer returns the result of the
    first exactly when that result carries no markup the normalizer would
    still remove.  For [stripFormatting] (at [x]): no doubled star and no
    link.  For [stripMarkdown] (at [y]): no star at either end, and not a
    link wrapper as a whole. *)
Theorem normalizers_idempotent_iff (x y : jsstring) :
  (Legacy.stripFormatting (Legacy.stripFormatting x) = Legacy.stripFormatting x
   <-> includes (str "**") (Legacy.stripFormatting x) = false
       /\ has_link (Legacy.stripFormatting x) = false)
  /\ (stripMarkdown (stripMarkdown y) = stripMarkdown y
      <-> first_is_star (stripMarkdown y) = false
          /\ last_is_star (stripMarkdown y) = false
          /\ link_wrapper (stripMarkdown y) = None).
Proof.
  split.
  - set (z := Legacy.stripFormatting x). split.
    + intros E.
      destruct (stripFormatting_length z) as [_ Hs].
      destruct (includes (str "**") z) eqn:I;
        [specialize (Hs (or_intror eq_refl)); rewrite E in Hs; lia|].
      destruct (has_link z) eqn:K;
        [specialize (Hs (or_introl eq_refl)); rewrite E in Hs; lia|].
      auto.
    + intros [I K].
      assert (Hz : trim z = z) by apply stripFormatting_trimmed.
      assert (Hb := stripFormatting_no_backquote x). fold z in Hb.
      unfold Legacy.stripFormatting at 1.
      destruct (negb (truthy z)) eqn:T;
        [destruct z; [reflexivity | discriminate]|].
      rewrite (replace_all_no_match Legacy.link_at z).
      2:{ unfold has_link in K. destruct (search Legacy.link_at z);
            [discriminate | reflexivity]. }
      rewrite (replace_all_no_match (Legacy.erase "**") z)
        by (apply includes_search, I).
      rewrite (@replace_all_absent "`"%char (Legacy.erase "`") z);
        [exact Hz | intros t; apply lit_first | exact Hb].
  - set (z := stripMarkdown y). split.
    + intros E.
      destruct (first_is_star z) eqn:F.
      { pose proof (@stripMarkdown_shorter z (or_introl F)). rewrite E in H. lia. }
      destruct (last_is_star z) eqn:L.
      { pose proof (@stripMarkdown_shorter z (or_intror (or_introl L))).
        rewrite E in H. lia. }
      destruct (link_wrapper z) eqn:K; [|auto].
      assert (N : link_wrapper z <> None) by congruence.
      pose proof (@stripMarkdown_shorter z (or_intror (or_intror N))).
      rewrite E in H. lia.
    + intros (F & L & K).
      assert (Hz : trim z = z) by apply stripMarkdown_trimmed.
      unfold stripMarkdown at 1.
      destruct (negb (truthy z)); [reflexivity|]. cbv zeta.
      rewrite (strip_leading_stars_fixed _ F), (strip_trailing_stars_fixed _ L).
      rewrite K.
      rewrite (strip_leading_stars_fixed _ F), (strip_trailing_stars_fixed _ L).
      exact Hz.
Qed.

(** In particular a normalizer is idempotent wherever its result holds
    none of the marker characters, and on text free of them it trims. *)
Lemma normalizers_idempotent_on_clean_output (x y : jsstring) :
  marker_free (Legacy.stripFormatting x) ->
  marker_free (stripMarkdown y) ->
  Legacy.stripFormatting (Legacy.stripFormatting x) = Legacy.stripFormatting x
  /\ stripMarkdown (stripMarkdown y) = stripMarkdown y.
Proof.
  intros Hx Hy. split.
  - rewrite (stripFormatting_marker_free Hx). apply stripFormatting_trimmed.
  - rewrite (stripMarkdown_marker_free Hy). apply stripMarkdown_trimmed.
Qed.

(** A linked, emphasised name is settled by one pass of either normalizer. *)
Example normalizers_settle_linked_name :
  Legacy.stripFormatting linked_name = str "Hermit_Toad ok"
  /\ Legacy.stripFormatting (str "Hermit_Toad ok") = str "Hermit_Toad ok"
  /\ stripMarkdown wrapped_name = str "Hermit_Toad"
  /\ stripMarkdown (str "Hermit_Toad") = str "Hermit_Toad".
Proof. repeat split; vm_compute; reflexivity. Qed.

(* ================================================================== *)
(** ** The field parser on the scenarios *)

(** C8: the parser applied to the text of scenario 1 returns exactly the
    record with external identity Hermit_Toad, local identity claim
    pikachucatcher88 and status Active. *)
Theorem parse_scenario1 :
  parseModmailMessageFromFullText scenario1
  = Some {| redditName := str "Hermit_Toad";
            discordName := str "pikachucatcher88";
            status := str "Active" |}.
Proof. vm_compute. reflexivity. Qed.

(** C9, at a status line whose value contains the separator: the record's
    status is the text between the first and the second separator, not the
    whole remainder of the line, which here carries the banned marker. *)
Theorem parse_status_with_colon :
  parseModmailMessageFromFullText status_with_colon
  = Some {| redditName := str "Hermit_Toad";
            discordName := str "pikachucatcher88";
            status := str "Mod note" |}
  /\ is_banned (str "Mod note") = false
  /\ is_banned (str "Mod note: banned") = true.
Proof. vm_compute. repeat split. Qed.

(* ================================================================== *)
(** ** The field parser fails closed *)

Lemma truthy_nonempty (s : jsstring) : truthy s = true <-> s <> [].
Proof. destruct s; simpl; split; congruence. Qed.

Lemma parse_status_nonempty lines : parse_status lines <> [].
Proof.
  unfold parse_status.
  destruct (find (has_label "status:") lines); [|discriminate].
  unfold or_else at 1.
  destruct (truthy (trim _)) eqn:T; [apply truthy_nonempty, T | discriminate].
Qed.

(** The record returned, read off the three extractions. *)
Lemma parse_some_inv text r :
  parseModmailMessageFromFullText text = Some r ->
  exists first rest,
    lines_of text = first :: rest
    /\ bot_echo first = false
    /\ redditName r = parse_redditName (lines_of text)
    /\ parse_discordName (lines_of text) = Some (discordName r)
    /\ status r = parse_status (lines_of text)
    /\ redditName r <> [] /\ discordName r <> [].
Proof.
  unfold parseModmailMessageFromFullText.
  destruct (lines_of text) as [|first rest] eqn:L; [discriminate|].
  destruct (bot_echo first) eqn:B; [discriminate|].
  destruct (parse_discordName (first :: rest)) as [d|] eqn:D; [|discriminate].
  destruct (negb (truthy (parse_redditName (first :: rest))) || negb (truthy d))
    eqn:T; [discriminate|].
  apply orb_false_iff in T as [T1 T2].
  apply negb_false_iff in T1, T2.
  intros H; inversion H; subst; simpl.
  exists first, rest.
  split; [reflexivity|]. split; [exact B|]. split; [reflexivity|].
  split; [reflexivity|]. split; [reflexivity|].
  split; apply truthy_nonempty; assumption.
Qed.

(** The local identity claim of a record is a token: not empty, without
    white space. *)
Lemma discord_id_at_token s g :
  discord_id_at s = Some g -> g <> [] /\ forallb not_ws g = true.
Proof.
  assert (K : forall r,
    lit_ci (str ":") (rstar is_ws (plus_cap not_ws (fun v _ => Some v))) r
    = Some g -> g <> [] /\ forallb not_ws g = true).
  { intros r H. apply lit_ci_sound in H as (r1 & H).
    apply rstar_sound in H as (r2 & H).
    apply plus_cap_class in H as (v & r3 & Hne & Hv & H).
    inversion H; subst. auto. }
  unfold discord_id_at. intros H.
  apply lit_ci_sound in H as (r & H). unfold opt in H.
  match type of H with
  | match ?G with _ => _ end = _ => destruct G as [y|] eqn:E
  end; [|exact (K _ H)].
  inversion H; subst.
  apply rplus_sound in E as (r1 & E). apply lit_ci_sound in E as (r2 & E).
  apply rplus_sound in E as (r3 & E). apply lit_ci_sound in E as (r4 & E).
  apply rplus_sound in E as (r5 & E). apply lit_ci_sound in E as (r6 & E).
  exact (K _ E).
Qed.

Lemma parsed_discordName_token text r :
  parseModmailMessageFromFullText text = Some r ->
  discordName r <> [] /\ forallb not_ws (discordName r) = true.
Proof.
  intros H. apply parse_some_inv in H as (f & l & _ & _ & _ & D & _).
  unfold parse_discordName in D.
  destruct (find (has_label "body:") (lines_of text)) as [bodyLine|];
    [|discriminate].
  destruct (search discord_id_at _) as [g|] eqn:E; [|discriminate].
  apply search_sound in E as (s' & E).
  apply discord_id_at_token in E as [Hne Hg].
  rewrite (trim_token Hne Hg) in D. inversion D; subst. auto.
Qed.

(** C3: the parser returns null whenever the local identity claim or the
    external identity cannot be extracted; in particular a text with no
    line carrying the body label, or with no line at all, yields null; and
    a record that is returned is never partial: its three fields are not
    empty, the local identity claim is one token without white space, and
    the fields are the values the three extractions gave. *)
Theorem parser_fails_closed (text : jsstring) :
  (parse_discordName (lines_of text) = None ->
     parseModmailMessageFromFullText text = None)
  /\ (parse_redditName (lines_of text) = [] ->
        parseModmailMessageFromFullText text = None)
  /\ (find (has_label "body:") (lines_of text) = None ->
        parseModmailMessageFromFullText text = None)
  /\ (lines_of text = [] -> parseModmailMessageFromFullText text = None)
  /\ (forall r, parseModmailMessageFromFullText text = Some r ->
        redditName r <> [] /\ discordName r <> [] /\ status r <> []
        /\ forallb not_ws (discordName r) = true
        /\ redditName r = parse_redditName (lines_of text)
        /\ parse_discordName (lines_of text) = Some (discordName r)
        /\ status r = parse_status (lines_of text)).
Proof.
  assert (HD : parse_discordName (lines_of text) = None ->
               parseModmailMessageFromFullText text = None).
  { intros H. destruct (parseModmailMessageFromFullText text) as [r|] eqn:P;
      [|reflexivity].
    apply parse_some_inv in P as (f & l & _ & _ & _ & D & _). congruence. }
  split; [exact HD|]. split; [|split; [|split]].
  - intros H. destruct (parseModmailMessageFromFullText text) as [r|] eqn:P;
      [|reflexivity].
    apply parse_some_inv in P as (f & l & _ & _ & R & _ & _ & N & _).
    congruence.
  - intros H. apply HD. unfold parse_discordName. rewrite H. reflexivity.
  - intros H. unfold parseModmailMessageFromFullText. rewrite H. reflexivity.
  - intros r P.
    destruct (parsed_discordName_token _ P) as [_ Htok].
    apply parse_some_inv in P as (f & l & _ & _ & R & D & S & N1 & N2).
    repeat split; try assumption.
    rewrite S. apply parse_status_nonempty.
Qed.

(** Both ways of failing closed occur: a text without a body line, and a
    text whose only candidate for the name is empty once stripped. *)
Example parse_without_body :
  parse_discordName (lines_of no_body_text) = None
  /\ parseModmailMessageFromFullText no_body_text = None.
Proof. split; vm_compute; reflexivity. Qed.

Example parse_without_name :
  parse_redditName (lines_of no_name_text) = []
  /\ parse_discordName (lines_of no_name_text) = Some (str "toad")
  /\ parseModmailMessageFromFullText no_name_text = None.
Proof. repeat split; vm_compute; reflexivity. Qed.

(* ================================================================== *)
(** ** The status of a record *)

(** The push-driven script reads the whole remainder of the status line
    and sees the marker in it. *)
Example legacy_status_whole_remainder :
  Legacy.labelled "Status:" (Legacy.stripFormatting status_with_colon)
  = Some (str "Mod note: banned")
  /\ Legacy.status_banned (Legacy.stripFormatting status_with_colon) = true.
Proof. split; vm_compute; reflexivity. Qed.

Lemma split_no_separator sep s :
  forallb (not_char sep) s = true -> split sep s = [s].
Proof.
  induction s as [|c s IH]; [reflexivity|].
  simpl. intros H. apply andb_true_iff in H as [Hc Hs].
  unfold not_char in Hc. apply negb_true_iff in Hc.
  rewrite Hc, (IH Hs). reflexivity.
Qed.

Lemma split_first_separator sep p v :
  forallb (not_char sep) p = true ->
  split sep (p ++ sep :: v) = p :: split sep v.
Proof.
  induction p as [|c p IH]; simpl.
  - rewrite Ascii.eqb_refl. reflexivity.
  - intros H. apply andb_true_iff in H as [Hc Hp].
    unfold not_char in Hc. apply negb_true_iff in Hc.
    rewrite Hc, (IH Hp). reflexivity.
Qed.

(** When the value of the status line holds no further separator, the
    status is the whole remainder of the line, trimmed, and the sentinel
    when that is empty; without a status line it is the sentinel. *)
Lemma parse_status_single_separator lines p v :
  find (has_label "status:") lines = Some (p ++ ":"%char :: v) ->
  forallb (not_char ":"%char) p = true ->
  forallb (not_char ":"%char) v = true ->
  parse_status lines = or_else (trim v) (str "Unknown").
Proof.
  intros F Hp Hv. unfold parse_status. rewrite F.
  rewrite (split_first_separator _ _ _ Hp), (split_no_separator _ _ Hv).
  simpl nth. unfold or_else at 2.
  destruct v; reflexivity.
Qed.

Lemma parse_status_default lines :
  find (has_label "status:") lines = None ->
  parse_status lines = str "Unknown".
Proof. intros F. unfold parse_status. rewrite F. reflexivity. Qed.

(* ================================================================== *)
(** ** The matcher: pages and the whole history *)

Lemma filter_none (X : Type) (f : X -> bool) (l : list X) :
  (forall x, In x l -> f x = false) -> filter f l = [].
Proof.
  induction l as [|a l IH]; simpl; intros H; [reflexivity|].
  rewrite (H a) by auto. apply IH; auto.
Qed.

Lemma filter_all (X : Type) (f : X -> bool) (l : list X) :
  (forall x, In x l -> f x = true) -> filter f l = l.
Proof.
  induction l as [|a l IH]; simpl; intros H; [reflexivity|].
  rewrite (H a) by auto. f_equal. apply IH; auto.
Qed.

Lemma newest_first_app_inv pre rest :
  newest_first (pre ++ rest) ->
  newest_first pre /\ newest_first rest
  /\ forall a b, In a pre -> In b rest -> newer a b.
Proof.
  induction pre as [|x pre IH]; simpl; intros H.
  - split; [constructor|]. split; [exact H|]. intros a b [].
  - apply StronglySorted_inv in H as [H Hx].
    destruct (IH H) as (Hp & Hr & Hpr).
    rewrite Forall_forall in Hx.
    split; [|split].
    + constructor; [exact Hp|]. apply Forall_forall.
      intros y Hy. apply Hx, in_or_app; auto.
    + exact Hr.
    + intros a b [->|Ha] Hb; [apply Hx, in_or_app; auto | auto].
Qed.

Lemma cursor_snoc l z : cursor (l ++ [z]) = Some (id z).
Proof.
  unfold cursor. destruct (l ++ [z]) as [|m t] eqn:E;
    [destruct l; discriminate|].
  rewrite <- E, last_last. reflexivity.
Qed.

Lemma cursor_app pre m0 b :
  cursor (pre ++ m0 :: b) = Some (id (last (m0 :: b) m0)).
Proof.
  destruct (@exists_last _ (m0 :: b)) as (l & z & E); [discriminate|].
  rewrite E, app_assoc, cursor_snoc, last_last. reflexivity.
Qed.

(** With the history sorted, the page after the cursor is the next
    hundred messages. *)
Lemma fetch_after_cursor pre rest limit :
  newest_first (pre ++ rest) ->
  fetch (pre ++ rest) limit (cursor pre) = firstn limit rest.
Proof.
  intros H. unfold fetch.
  destruct pre as [|x pre']; [reflexivity|].
  destruct (@exists_last _ (x :: pre')) as (l & z & E); [discriminate|].
  rewrite E in *. rewrite cursor_snoc. f_equal.
  apply newest_first_app_inv in H as (Hp & _ & Hpr).
  apply newest_first_app_inv in Hp as (_ & _ & Hlz).
  rewrite !filter_app. simpl.
  rewrite N.ltb_irrefl.
  rewrite filter_none, filter_all; [reflexivity| |].
  - intros b Hb. apply N.ltb_lt.
    apply (Hpr z b); [apply in_or_app; simpl; auto | exact Hb].
  - intros a Ha. apply N.ltb_ge.
    destruct (Hlz a z Ha) as [Hid _]; [simpl; auto|]. lia.
Qed.

Section Pages.

Variable cutoff : Z.
Variables targetReddit username' globalName' : jsstring.

Notation scan_batch' := (scan_batch cutoff targetReddit username' globalName').
Notation scan_pages' := (scan_pages cutoff targetReddit username' globalName').
Notation whole_scan' := (whole_scan cutoff targetReddit username' globalName').

Lemma scan_batch_app a b n :
  scan_batch' (a ++ b) n =
  match scan_batch' a n with
  | (Return r, k) => (Return r, k)
  | (Exhausted, k) => scan_batch' b k
  end.
Proof.
  revert n. induction a as [|m a IH]; intros n; [reflexivity|].
  simpl.
  destruct (MAX_SCANNED <? S n); [reflexivity|].
  destruct (createdTimestamp m <? cutoff)%Z; [reflexivity|].
  destruct (parseModmailMessageFromFullText _) as [p|]; [|apply IH].
  destruct (is_banned _); [apply IH|].
  destruct (negb (string_eqb _ _)); [apply IH|].
  destruct (negb (discordMatches _ _ _)); [apply IH | reflexivity].
Qed.

Lemma scan_pages_step fuel channel lastId n :
  scan_pages' (S fuel) channel lastId n =
  match fetch channel 100 lastId with
  | [] => Some (None, n)
  | (m0 :: _) as batch =>
      match scan_batch' batch n with
      | (Return r, k) => Some (r, k)
      | (Exhausted, k) =>
          scan_pages' fuel channel (Some (id (last batch m0))) k
      end
  end.
Proof. reflexivity. Qed.

(** The paged loop computes the scan of the whole history, as soon as the
    fuel exceeds the number of messages still to be fetched. *)
Lemma scan_pages_whole fuel :
  forall pre rest n,
    newest_first (pre ++ rest) ->
    length rest < fuel ->
    scan_pages' fuel (pre ++ rest) (cursor pre) n = Some (whole_scan' rest n).
Proof.
  induction fuel as [|fuel IH]; intros pre rest n Hs Hf; [lia|].
  rewrite scan_pages_step, (fetch_after_cursor _ _ _ Hs).
  destruct (firstn 100 rest) as [|m0 b] eqn:F.
  - destruct rest; [reflexivity | discriminate].
  - assert (E : rest = (m0 :: b) ++ skipn 100 rest)
      by (rewrite <- F; symmetry; apply firstn_skipn).
    unfold whole_scan.
    replace (scan_batch cutoff targetReddit username' globalName' rest n)
      with (scan_batch' ((m0 :: b) ++ skipn 100 rest) n)
      by (rewrite <- E; reflexivity).
    rewrite scan_batch_app.
    destruct (scan_batch' (m0 :: b) n) as [[r|] k]; [reflexivity|].
    rewrite <- cursor_app with (pre := pre).
    assert (E' : pre ++ rest = (pre ++ m0 :: b) ++ skipn 100 rest)
      by (rewrite <- app_assoc; f_equal; exact E).
    rewrite E'. apply IH.
    + rewrite <- E'. exact Hs.
    + rewrite length_skipn.
      assert (0 < length rest) by (destruct rest; [discriminate | simpl; lia]).
      lia.
Qed.

(** What a returned match tells about the batch it was found in. *)
Lemma scan_batch_found h : forall n mt k,
  scan_batch' h n = (Return (Some mt), k) ->
  exists pre post,
    h = pre ++ message mt :: post
    /\ k = n + length pre + 1
    /\ k <= MAX_SCANNED
    /\ (cutoff <= createdTimestamp (message mt))%Z
    /\ parseModmailMessageFromFullText
         (buildFullTextFromMessage (message mt)) = Some (parsed mt)
    /\ loop_checks targetReddit username' globalName' (parsed mt) = true
    /\ forall m p, In m pre ->
         parseModmailMessageFromFullText (buildFullTextFromMessage m) = Some p ->
         loop_checks targetReddit username' globalName' p = false.
Proof.
  induction h as [|m h IH]; intros n mt k; simpl; [discriminate|].
  destruct (MAX_SCANNED <? S n) eqn:Hmax; [discriminate|].
  destruct (createdTimestamp m <? cutoff)%Z eqn:Hold; [discriminate|].
  apply Nat.ltb_ge in Hmax. apply Z.ltb_ge in Hold.
  assert (Hskip :
    (forall p, parseModmailMessageFromFullText (buildFullTextFromMessage m)
               = Some p ->
               loop_checks targetReddit username' globalName' p = false) ->
    scan_batch' h (S n) = (Return (Some mt), k) ->
    exists pre post,
      m :: h = pre ++ message mt :: post
      /\ k = n + length pre + 1
      /\ k <= MAX_SCANNED
      /\ (cutoff <= createdTimestamp (message mt))%Z
      /\ parseModmailMessageFromFullText
           (buildFullTextFromMessage (message mt)) = Some (parsed mt)
      /\ loop_checks targetReddit username' globalName' (parsed mt) = true
      /\ forall m' p, In m' pre ->
           parseModmailMessageFromFullText (buildFullTextFromMessage m')
           = Some p ->
           loop_checks targetReddit username' globalName' p = false).
  { intros Hm Hrec.
    destruct (IH _ _ _ Hrec) as (pre & post & E & Hk & Hle & Hc & Hp & Hpass & Hpre).
    exists (m :: pre), post. rewrite E.
    split; [reflexivity|]. split; [simpl; lia|].
    split; [exact Hle|]. split; [exact Hc|]. split; [exact Hp|].
    split; [exact Hpass|].
    intros m' p [<-|Hin]; [apply Hm | apply (Hpre m' p Hin)]. }
  destruct (parseModmailMessageFromFullText (buildFullTextFromMessage m))
    as [p|] eqn:P.
  2:{ apply Hskip. intros p; discriminate. }
  unfold loop_checks in *.
  destruct (is_banned (status p)) eqn:B.
  { apply Hskip. intros p' E; inversion E; subst. rewrite B. reflexivity. }
  destruct (string_eqb (normalize (redditName p)) targetReddit) eqn:R; simpl.
  2:{ apply Hskip. intros p' E; inversion E; subst. rewrite B, R. reflexivity. }
  destruct (discordMatches username' globalName' (normalize (discordName p)))
    eqn:D; simpl.
  2:{ apply Hskip. intros p' E; inversion E; subst. rewrite B, R, D.
      reflexivity. }
  intros H; inversion H; subst; simpl.
  exists [], h. split; [reflexivity|]. split; [simpl; lia|].
  split; [lia|]. split; [exact Hold|]. split; [exact P|].
  split; [rewrite B, R, D; reflexivity|]. intros m' p' [].
Qed.

(** The counter never runs backwards, and a scan that stops has counted
    at most one message past the ones before the stop. *)
Lemma scan_batch_counter h : forall n e k,
  scan_batch' h n = (e, k) -> n <= k <= n + length h.
Proof.
  induction h as [|m h IH]; intros n e k; simpl.
  - intros H; inversion H; lia.
  - destruct (MAX_SCANNED <? S n); [intros H; inversion H; lia|].
    destruct (createdTimestamp m <? cutoff)%Z; [intros H; inversion H; lia|].
    assert (Hrec : scan_batch' h (S n) = (e, k) -> n <= k <= n + S (length h))
      by (intros H; apply IH in H; lia).
    destruct (parseModmailMessageFromFullText _) as [p|]; [|exact Hrec].
    destruct (is_banned _); [exact Hrec|].
    destruct (negb (string_eqb _ _)); [exact Hrec|].
    destruct (negb (discordMatches _ _ _)); [exact Hrec|].
    intros H; inversion H; lia.
Qed.

(** The first message older than the cutoff ends the scan. *)
Lemma scan_batch_old m post n :
  (createdTimestamp m < cutoff)%Z ->
  scan_batch' (m :: post) n = (Return None, S n).
Proof.
  intros H. simpl. destruct (MAX_SCANNED <? S n); [reflexivity|].
  apply Z.ltb_lt in H. rewrite H. reflexivity.
Qed.

(** The scan of the whole history is the matcher of the specification. *)
Lemma whole_scan_findMatch h : forall n,
  n <= MAX_SCANNED ->
  fst (whole_scan' h n) =
  find (fun mt => loop_checks targetReddit username' globalName' (parsed mt))
    (Spec.scan h cutoff (MAX_SCANNED - n)).
Proof.
  unfold whole_scan, Spec.scan, Spec.window.
  induction h as [|m h IH]; intros n Hn.
  - rewrite firstn_nil. reflexivity.
  - simpl scan_batch.
    destruct (MAX_SCANNED <? S n) eqn:Hmax.
    + apply Nat.ltb_lt in Hmax.
      replace (MAX_SCANNED - n) with 0 by lia. reflexivity.
    + apply Nat.ltb_ge in Hmax.
      replace (MAX_SCANNED - n) with (S (MAX_SCANNED - S n)) by lia.
      rewrite firstn_cons. simpl Spec.take_while.
      destruct (createdTimestamp m <? cutoff)%Z; [reflexivity|].
      simpl negb. cbv iota. simpl flat_map.
      unfold Spec.record_of at 1.
      destruct (parseModmailMessageFromFullText (buildFullTextFromMessage m))
        as [p|]; [|apply IH; lia].
      simpl app. simpl find. unfold loop_checks at 1. simpl parsed.
      destruct (is_banned (status p)); simpl; [apply IH; lia|].
      destruct (string_eqb (normalize (redditName p)) targetReddit); simpl;
        [|apply IH; lia].
      destruct (discordMatches username' globalName'
                  (normalize (discordName p))); simpl;
        [reflexivity | apply IH; lia].
Qed.

(** A match returned by the paged loop was returned by one of its batches. *)
Lemma scan_pages_found fuel : forall channel lastId n mt k,
  scan_pages' fuel channel lastId n = Some (Some mt, k) ->
  exists before n',
    scan_batch' (fetch channel 100 before) n' = (Return (Some mt), k).
Proof.
  induction fuel as [|fuel IH]; intros channel lastId n mt k; [discriminate|].
  rewrite scan_pages_step.
  destruct (fetch channel 100 lastId) as [|m0 b] eqn:F; [discriminate|].
  cbv zeta.
  destruct (scan_batch' (m0 :: b) n) as [[r|] k'] eqn:E.
  - intros H; inversion H; subst. exists lastId, n. rewrite F. exact E.
  - apply IH.
Qed.

End Pages.

(* ================================================================== *)
(** ** The matcher *)

Lemma string_eqb_eq a b : string_eqb a b = true <-> a = b.
Proof.
  unfold string_eqb. destruct (list_eq_dec ascii_dec a b); split;
    congruence.
Qed.

Lemma In_firstn (X : Type) (n : nat) (l : list X) x :
  In x (firstn n l) -> In x l.
Proof.
  intros H. rewrite <- (firstn_skipn n l). apply in_or_app; auto.
Qed.

Lemma In_take_while p l x : In x (Spec.take_while p l) -> In x l.
Proof.
  induction l as [|a l IH]; simpl; [auto|].
  destruct (p a); simpl; [|intros []]. intros [H|H]; auto.
Qed.

Lemma In_fetch channel limit before x :
  In x (fetch channel limit before) -> In x channel.
Proof.
  unfold fetch. intros H. apply In_firstn in H.
  destruct before; [apply filter_In in H as [H _]|]; exact H.
Qed.

Lemma In_scan channel cutoff n mt :
  In mt (Spec.scan channel cutoff n) ->
  In (message mt) channel
  /\ parseModmailMessageFromFullText (buildFullTextFromMessage (message mt))
     = Some (parsed mt).
Proof.
  unfold Spec.scan, Spec.window. intros H.
  apply in_flat_map in H as (m & Hm & Hr).
  apply In_take_while, In_firstn in Hm.
  unfold Spec.record_of in Hr.
  destruct (parseModmailMessageFromFullText (buildFullTextFromMessage m))
    as [p|] eqn:P; [|destruct Hr].
  destruct Hr as [<-|[]]. simpl. auto.
Qed.

Lemma findMatchingModmail_whole fuel now channel input member hours :
  newest_first channel ->
  length channel < fuel ->
  findMatchingModmail fuel now channel input member hours
  = Some (whole_scan (cutoff_of now hours) (normalize input)
            (normalize (username member))
            (normalize (globalName_or_empty member)) channel 0).
Proof.
  intros Hs Hf. unfold findMatchingModmail.
  apply (scan_pages_whole (cutoff_of now hours) (normalize input)
           (normalize (username member))
           (normalize (globalName_or_empty member)) [] channel 0 Hs Hf).
Qed.

Lemma passes_inv targetReddit un gn p :
  loop_checks targetReddit un gn p = true ->
  includes (str "banned") (toLowerCase (status p)) = false
  /\ normalize (redditName p) = targetReddit
  /\ (normalize (discordName p) = un
      \/ (gn <> [] /\ normalize (discordName p) = gn)).
Proof.
  unfold loop_checks. intros H.
  apply andb_true_iff in H as [H HD]. apply andb_true_iff in H as [HB HR].
  apply negb_true_iff in HB. apply string_eqb_eq in HR.
  split; [|split; [exact HR|]].
  - unfold is_banned in HB. destruct (status p); [reflexivity|]. exact HB.
  - unfold discordMatches in HD.
    destruct (string_eqb (normalize (discordName p)) un) eqn:E1.
    + left. apply string_eqb_eq, E1.
    + destruct (truthy gn && string_eqb (normalize (discordName p)) gn)
        eqn:E2; [|discriminate].
      apply andb_true_iff in E2 as [T E2]. right.
      split; [apply truthy_nonempty, T | apply string_eqb_eq, E2].
Qed.

Lemma normalize_token g :
  g <> [] -> forallb not_ws g = true -> normalize g <> [].
Proof.
  intros Hne Hg. unfold normalize. rewrite (trim_token Hne Hg).
  destruct g; [congruence | discriminate].
Qed.

(** On a record whose local identity claim is not blank, the checks of the
    loop body are the three checks of the specification on the query. *)
Lemma loop_checks_passes now input member hours p :
  normalize (discordName p) <> [] ->
  loop_checks (normalize input) (normalize (username member))
    (normalize (globalName_or_empty member)) p
  = Spec.passes (query_of now input member hours) p.
Proof.
  intros Hd. unfold loop_checks, Spec.passes, query_of; simpl.
  f_equal; [f_equal|].
  - unfold is_banned, Spec.banned. destruct (status p); reflexivity.
  - unfold discordMatches, candidate_names, globalName_or_empty, Spec.ci_eqb.
    simpl existsb.
    destruct (string_eqb (normalize (discordName p))
                (normalize (username member))); [reflexivity|].
    simpl. destruct (globalName member) as [g|]; simpl.
    + rewrite orb_false_r.
      destruct (normalize g) eqn:G; simpl.
      * symmetry.
        destruct (string_eqb (normalize (discordName p)) []) eqn:E;
          [|reflexivity].
        apply string_eqb_eq in E. congruence.
      * destruct (string_eqb (normalize (discordName p)) (a :: j));
          reflexivity.
    + reflexivity.
Qed.

Lemma find_ext_in (X : Type) (f g : X -> bool) (l : list X) :
  (forall x, In x l -> f x = g x) -> find f l = find g l.
Proof.
  induction l as [|a l IH]; intros H; [reflexivity|].
  simpl. rewrite <- (H a) by (simpl; auto).
  destruct (f a); [reflexivity|]. apply IH. intros x Hx. apply H. simpl; auto.
Qed.

(** On a sorted history, with fuel, the search is the matcher of the
    specification on the query of the call. *)
Lemma findMatchingModmail_spec fuel now channel input member hours :
  newest_first channel ->
  length channel < fuel ->
  exists k,
    findMatchingModmail fuel now channel input member hours
    = Some (Spec.findMatch channel (query_of now input member hours), k)
    /\ whole_scan (cutoff_of now hours) (normalize input)
         (normalize (username member))
         (normalize (globalName_or_empty member)) channel 0
       = (Spec.findMatch channel (query_of now input member hours), k).
Proof.
  intros Hs Hf.
  rewrite (findMatchingModmail_whole now input member hours Hs Hf).
  pose proof (whole_scan_findMatch (cutoff_of now hours) (normalize input)
                (normalize (username member))
                (normalize (globalName_or_empty member)) channel
                (Nat.le_0_l _)) as Hfind.
  rewrite Nat.sub_0_r in Hfind.
  rewrite (@find_ext_in _ _
             (fun mt => Spec.passes (query_of now input member hours)
                          (parsed mt))) in Hfind.
  2:{ intros mt Hin. apply In_scan in Hin as [_ Hp].
      apply loop_checks_passes.
      apply parsed_discordName_token in Hp as [Hne Hg].
      apply normalize_token; assumption. }
  destruct (whole_scan _ _ _ _ channel 0) as [r k].
  simpl in Hfind. subst r. exists k. split; reflexivity.
Qed.

Lemma found_match_checked fuel now channel input member hours mt k :
  findMatchingModmail fuel now channel input member hours = Some (Some mt, k) ->
  includes (str "banned") (toLowerCase (status (parsed mt))) = false
  /\ ci_equal (redditName (parsed mt)) input
  /\ (exists n, In n (candidate_names member)
                /\ ci_equal (discordName (parsed mt)) n)
  /\ In (message mt) channel
  /\ parseModmailMessageFromFullText (buildFullTextFromMessage (message mt))
     = Some (parsed mt).
Proof.
  unfold findMatchingModmail. intros H.
  apply scan_pages_found in H as (before & n' & H).
  apply scan_batch_found in H
    as (pre & post & E & _ & _ & _ & HP & Hpass & _).
  apply passes_inv in Hpass as (HB & HR & HD).
  split; [exact HB|]. split; [exact HR|]. split; [|split; [|exact HP]].
  - unfold candidate_names.
    destruct HD as [HD|[Hg HD]]; [exists (username member); simpl; auto|].
    unfold globalName_or_empty in *.
    destruct (globalName member) as [g|].
    + exists g. simpl; auto.
    + exfalso. apply Hg. reflexivity.
  - apply (In_fetch channel 100 before). rewrite E.
    apply in_or_app; simpl; auto.
Qed.

(** C2: a match that is returned has a status without the banned marker
    (so a record whose status contains the marker is never returned,
    whatever its identities), an external identity equal to the query's
    input up to case and surrounding white space, and a local identity
    claim equal, in the same sense, to one of the candidate names of the
    invoking account, its user name and its global name; and it is the
    parse of a message of the channel. *)
Theorem match_passes_all_checks fuel now channel input member hours mt k :
  findMatchingModmail fuel now channel input member hours = Some (Some mt, k) ->
  includes (str "banned") (toLowerCase (status (parsed mt))) = false
  /\ ci_equal (redditName (parsed mt)) input
  /\ (exists n, In n (candidate_names member)
                /\ ci_equal (discordName (parsed mt)) n)
  /\ In (message mt) channel
  /\ parseModmailMessageFromFullText (buildFullTextFromMessage (message mt))
     = Some (parsed mt).
Proof. apply found_match_checked. Qed.

Lemma match_passes_all_checks_witness :
  exists mt k,
    findMatchingModmail 6 now0 channel0 (str " hermit_TOAD ") toad 12
    = Some (Some mt, k)
    /\ includes (str "banned") (toLowerCase (status (parsed mt))) = false
    /\ ci_equal (redditName (parsed mt)) (str " hermit_TOAD ")
    /\ (exists n, In n (candidate_names toad)
                  /\ ci_equal (discordName (parsed mt)) n)
    /\ In (message mt) channel0
    /\ parseModmailMessageFromFullText (buildFullTextFromMessage (message mt))
       = Some (parsed mt).
Proof.
  eexists. eexists. split; [vm_compute; reflexivity|].
  eapply (@match_passes_all_checks 6 now0 channel0 (str " hermit_TOAD ")
            toad 12).
  vm_compute. reflexivity.
Defined.

(** C1: on a history in reverse-chronological order the matcher returns
    the first record of the scanner's newest-first sequence that passes
    the banned-status, external-identity and local-identity checks.  When
    it returns a record, it has consumed the messages up to that record's
    message and no more, none of the messages before it gave a passing
    record, and no passing record of the scan is newer: of two matching
    records the newer one is returned. *)
Theorem matcher_returns_newest_match fuel now channel input member hours :
  newest_first channel ->
  length channel < fuel ->
  let q := query_of now input member hours in
  exists k,
    findMatchingModmail fuel now channel input member hours
    = Some (Spec.findMatch channel q, k)
    /\ forall mt,
        Spec.findMatch channel q = Some mt ->
        (exists pre post,
            channel = pre ++ message mt :: post
            /\ k = length pre + 1
            /\ forall m p, In m pre ->
                 parseModmailMessageFromFullText (buildFullTextFromMessage m)
                 = Some p ->
                 Spec.passes q p = false)
        /\ forall mt',
            In mt' (Spec.scan channel (Spec.lookbackCutoff q)
                      (Spec.maxScanned q)) ->
            Spec.passes q (parsed mt') = true ->
            (createdTimestamp (message mt') <= createdTimestamp (message mt))%Z.
Proof.
  intros Hs Hf q.
  destruct (findMatchingModmail_spec now input member hours Hs Hf)
    as (k & Hrun & W).
  fold q in Hrun, W.
  exists k. split; [exact Hrun|].
  intros mt Hmt. rewrite Hmt in W.
  unfold whole_scan in W.
  destruct (scan_batch _ _ _ _ channel 0) as [[r|] k'] eqn:B;
    injection W as Hr Hk'; [|discriminate].
  subst r k'.
  apply scan_batch_found in B
    as (pre & post & E & Hk & _ & _ & _ & _ & Hpre).
  assert (Hpre' : forall m p, In m pre ->
             parseModmailMessageFromFullText (buildFullTextFromMessage m)
             = Some p ->
             Spec.passes q p = false).
  { intros m p Hin Hp. unfold q.
    rewrite <- (loop_checks_passes now input member hours).
    - apply (Hpre m p Hin Hp).
    - apply parsed_discordName_token in Hp as [Hne Hg].
      apply normalize_token; assumption. }
  split.
  - exists pre, post. split; [exact E|]. split; [lia | exact Hpre'].
  - intros mt' Hin Hpass.
    apply In_scan in Hin as [Hin Hparse].
    rewrite E in Hin. apply in_app_or in Hin as [Hin|[Heq|Hin]].
    + rewrite (Hpre' _ _ Hin Hparse) in Hpass. discriminate.
    + rewrite Heq. lia.
    + rewrite E in Hs. apply newest_first_app_inv in Hs as (_ & Hs & _).
      apply StronglySorted_inv in Hs as [_ Hs].
      rewrite Forall_forall in Hs. apply (Hs _ Hin).
Qed.

Lemma channel0_newest_first : newest_first channel0.
Proof.
  unfold channel0, newest_first.
  repeat (constructor;
          [|repeat (constructor;
                    [vm_compute; split; [reflexivity | discriminate]|]);
            constructor]).
  constructor.
Qed.

Lemma matcher_returns_newest_match_witness :
  newest_first channel0 /\ length channel0 < 6
  /\ let q := query_of now0 (str "Hermit_Toad") toad 12 in
     exists k,
       findMatchingModmail 6 now0 channel0 (str "Hermit_Toad") toad 12
       = Some (Spec.findMatch channel0 q, k)
       /\ forall mt,
           Spec.findMatch channel0 q = Some mt ->
           (exists pre post,
               channel0 = pre ++ message mt :: post
               /\ k = length pre + 1
               /\ forall m p, In m pre ->
                    parseModmailMessageFromFullText
                      (buildFullTextFromMessage m) = Some p ->
                    Spec.passes q p = false)
           /\ forall mt',
               In mt' (Spec.scan channel0 (Spec.lookbackCutoff q)
                         (Spec.maxScanned q)) ->
               Spec.passes q (parsed mt') = true ->
               (createdTimestamp (message mt')
                <= createdTimestamp (message mt))%Z.
Proof.
  assert (S0 := channel0_newest_first).
  assert (L0 : length channel0 < 6) by (simpl; lia).
  split; [exact S0|]. split; [exact L0|].
  exact (@matcher_returns_newest_match 6 now0 channel0 (str "Hermit_Toad")
           toad 12 S0 L0).
Defined.

(** On the channel of the examples the matcher of the specification
    selects the newer forward. *)
Example findMatch_channel0 :
  Spec.findMatch channel0 (query_of now0 (str "Hermit_Toad") toad 12)
  = Some {| parsed := {| redditName := str "Hermit_Toad";
                         discordName := str "PikachuCatcher88";
                         status := str "Active" |};
            message := newer_forward |}.
Proof. vm_compute. reflexivity. Qed.

(** The channel of the examples: the chatter is skipped, the newer of the
    two forwards inside the window is returned, after two messages. *)
Example findMatchingModmail_channel0 :
  findMatchingModmail 6 now0 channel0 (str "Hermit_Toad") toad 12
  = Some (Some {| parsed := {| redditName := str "Hermit_Toad";
                               discordName := str "PikachuCatcher88";
                               status := str "Active" |};
                  message := newer_forward |}, 2).
Proof. vm_compute. reflexivity. Qed.

(* ================================================================== *)
(** ** The scan boundary *)

(** C5: when the history holds a message [m] strictly older than the
    cutoff, the search ends at [m] at the latest: the counter of inspected
    messages does not pass [m], a record that is returned comes from a
    message before [m] and is not older than the cutoff, and the outcome
    is the same whatever messages follow [m]: none of them is inspected,
    parsed or matched. *)
Theorem scan_stops_at_cutoff fuel now pre m post input member hours :
  newest_first (pre ++ m :: post) ->
  length (pre ++ m :: post) < fuel ->
  (createdTimestamp m < cutoff_of now hours)%Z ->
  exists r k,
    findMatchingModmail fuel now (pre ++ m :: post) input member hours
    = Some (r, k)
    /\ k <= length pre + 1
    /\ (forall mt, r = Some mt ->
          In (message mt) pre
          /\ (cutoff_of now hours <= createdTimestamp (message mt))%Z)
    /\ (forall fuel' post',
          newest_first (pre ++ m :: post') ->
          length (pre ++ m :: post') < fuel' ->
          findMatchingModmail fuel' now (pre ++ m :: post') input member hours
          = Some (r, k)).
Proof.
  intros Hs Hf Hold.
  set (cutoff := cutoff_of now hours) in *.
  set (tr := normalize input).
  set (un := normalize (username member)).
  set (gn := normalize (globalName_or_empty member)).
  assert (W : forall post',
             whole_scan cutoff tr un gn (pre ++ m :: post') 0
             = match scan_batch cutoff tr un gn pre 0 with
               | (Return r, k) => (r, k)
               | (Exhausted, k) => (None, S k)
               end).
  { intros post'. unfold whole_scan. rewrite scan_batch_app.
    destruct (scan_batch cutoff tr un gn pre 0) as [[r|] k]; [reflexivity|].
    rewrite (scan_batch_old tr un gn _ post' k Hold). reflexivity. }
  rewrite (findMatchingModmail_whole now input member hours Hs Hf).
  fold cutoff tr un gn. rewrite W.
  destruct (scan_batch cutoff tr un gn pre 0) as [[r|] k] eqn:B.
  - exists r, k. split; [reflexivity|].
    split; [apply scan_batch_counter in B; lia|].
    split.
    + intros mt ->. apply scan_batch_found in B
        as (pre0 & post0 & E & _ & _ & Hc & _).
      split; [rewrite E; apply in_or_app; simpl; auto | exact Hc].
    + intros fuel' post' Hs' Hf'.
      rewrite (findMatchingModmail_whole now input member hours Hs' Hf').
      fold cutoff tr un gn. rewrite W. reflexivity.
  - exists None, (S k). split; [reflexivity|].
    split; [apply scan_batch_counter in B; lia|].
    split; [intros mt; discriminate|].
    intros fuel' post' Hs' Hf'.
    rewrite (findMatchingModmail_whole now input member hours Hs' Hf').
    fold cutoff tr un gn. rewrite W. reflexivity.
Qed.

Lemma scan_stops_at_cutoff_witness :
  exists r k,
    findMatchingModmail 6 now0
      ([chatter; newer_forward; older_forward]
       ++ stale_forward :: [ancient_forward])
      (str "Another_Toad") toad 12 = Some (r, k)
    /\ k <= length [chatter; newer_forward; older_forward] + 1
    /\ (forall mt, r = Some mt ->
          In (message mt) [chatter; newer_forward; older_forward]
          /\ (cutoff_of now0 12 <= createdTimestamp (message mt))%Z)
    /\ (forall fuel' post',
          newest_first ([chatter; newer_forward; older_forward]
                        ++ stale_forward :: post') ->
          length ([chatter; newer_forward; older_forward]
                  ++ stale_forward :: post') < fuel' ->
          findMatchingModmail fuel' now0
            ([chatter; newer_forward; older_forward]
             ++ stale_forward :: post')
            (str "Another_Toad") toad 12 = Some (r, k)).
Proof.
  apply (@scan_stops_at_cutoff 6 now0 [chatter; newer_forward; older_forward]
           stale_forward [ancient_forward] (str "Another_Toad") toad 12).
  - exact channel0_newest_first.
  - simpl; lia.
  - vm_compute; reflexivity.
Defined.

(** The scan of the example channel for a name no forward carries stops
    at the stale forward, the fourth message. *)
Example findMatchingModmail_stale :
  findMatchingModmail 6 now0 channel0 (str "Another_Toad") toad 12
  = Some (None, 4).
Proof. vm_compute. reflexivity. Qed.

(** Paging: behind 150 messages of chatter the forward is found in the
    second page, as the 151st message; behind 600 the scan gives up at the
    501st message, in the sixth page. *)
Example findMatchingModmail_second_page :
  findMatchingModmail 3 now0 (fillers 150 ++ [older_forward])
    (str "Hermit_Toad") toad 12
  = Some (Some {| parsed := {| redditName := str "Hermit_Toad";
                               discordName := str "pikachucatcher88";
                               status := str "Active" |};
                  message := older_forward |}, 151).
Proof. vm_compute. reflexivity. Qed.

Example findMatchingModmail_scan_cap :
  findMatchingModmail 7 now0 (fillers 600 ++ [older_forward])
    (str "Hermit_Toad") toad 12
  = Some (None, 501).
Proof. vm_compute. reflexivity. Qed.

(* ================================================================== *)
(** ** The verify command *)

Lemma is_banned_false st :
  includes (str "banned") (toLowerCase st) = false -> is_banned st = false.
Proof. unfold is_banned. intros ->. apply andb_false_r. Qed.

Lemma add_role_holds r a : existsb (N.eqb r) (roles (add_role r a)) = true.
Proof.
  unfold add_role; simpl.
  destruct (existsb (N.eqb r) (roles a)) eqn:E; [exact E|].
  simpl. rewrite N.eqb_refl. reflexivity.
Qed.

(** A run of the command up to the search, when the argument is present
    and the collaborators resolve. *)
Lemma handleVerifyCommand_search fuel cfg w content history member :
  2 <= length (split_ws (trim content)) ->
  guild_resolves w = true ->
  modmail_channel w = Some (true, history) ->
  member_of w = Some member ->
  handleVerifyCommand fuel cfg w content =
  let redditNameInput := verify_argument content in
  let searching := Replied (Searching (LOOKBACK_HOURS cfg) redditNameInput) in
  match findMatchingModmail fuel (clock w) history redditNameInput member
          (LOOKBACK_HOURS cfg) with
  | None => None
  | Some (None, _) =>
      Some ([searching;
             Replied (NoRecentModmail redditNameInput (LOOKBACK_HOURS cfg)
                        (username member))], account w)
  | Some (Some mt, _) =>
      let p := parsed mt in
      if is_banned (status p)
      then Some ([searching; Replied (StatusBlocked (redditName p) (status p))],
                 account w)
      else if negb (roles_add_succeeds w)
      then Some ([searching; RolesAdd (ROLE_ID cfg); LogRoleFailed;
                  Replied (RoleNotAdded (redditName p))], account w)
      else
        let a1 := add_role (ROLE_ID cfg) (account w) in
        let newNick := redditName p ++ str " | " ++ username member in
        Some ([searching; RolesAdd (ROLE_ID cfg); LogRoleAdded]
              ++ (if setNickname_succeeds w
                  then [SetNickname newNick; LogNicknameSet]
                  else [SetNickname newNick; LogNicknameFailed])
              ++ [Replied (Verified (redditName p) (username member)
                             (str "https://www.reddit.com/u/" ++ redditName p)
                             (discordName p))],
              if setNickname_succeeds w then set_nick newNick a1 else a1)
  end.
Proof.
  intros Hargs Hg Hc Hm. unfold handleVerifyCommand, verify_argument.
  apply Nat.ltb_ge in Hargs. rewrite Hargs, Hg, Hc, Hm. reflexivity.
Qed.



(** Scenario 2 of the specification, through the command: the role is
    granted and the display name set to the canonical form. *)
Example handleVerifyCommand_scenario2 :
  handleVerifyCommand 6 cfg0 world0 (str "!verify u/Hermit_Toad")
  = Some ([Replied (Searching 12 (str "Hermit_Toad"));
           RolesAdd 777; LogRoleAdded;
           SetNickname (str "Hermit_Toad | pikachucatcher88");
           LogNicknameSet;
           Replied (Verified (str "Hermit_Toad") (str "pikachucatcher88")
                      (str "https://www.reddit.com/u/Hermit_Toad")
                      (str "PikachuCatcher88"))],
          {| roles := [777%N];
             nickname := Some (str "Hermit_Toad | pikachucatcher88") |}).
Proof. vm_compute. reflexivity. Qed.

(* ================================================================== *)
(** ** The argument of the verify command *)

Lemma split_ws_token tok b :
  forallb not_ws tok = true -> split_ws_from b tok = [tok].
Proof.
  revert b. induction tok as [|c tok IH]; intros b H; [reflexivity|].
  simpl in H. apply andb_true_iff in H as [Hc Ht].
  unfold not_ws in Hc. apply negb_true_iff in Hc.
  simpl. rewrite Hc, (IH false Ht). reflexivity.
Qed.

Lemma split_ws_after_separator sep b :
  forallb is_ws sep = true -> forallb not_ws b = true ->
  split_ws_from true (sep ++ b) = [b].
Proof.
  intros Hs Hb. induction sep as [|c sep IH].
  - apply split_ws_token, Hb.
  - simpl in Hs. apply andb_true_iff in Hs as [Hc Hs].
    simpl. rewrite Hc. apply IH, Hs.
Qed.

Lemma split_ws_two a sep b :
  forallb not_ws a = true ->
  sep <> [] -> forallb is_ws sep = true ->
  forallb not_ws b = true ->
  split_ws (a ++ sep ++ b) = [a; b].
Proof.
  unfold split_ws. intros Ha Hne Hs Hb.
  induction a as [|c a IH].
  - destruct sep as [|d sep]; [congruence|].
    simpl in Hs. apply andb_true_iff in Hs as [Hd Hs].
    simpl. rewrite Hd, (split_ws_after_separator _ _ Hs Hb). reflexivity.
  - simpl in Ha. apply andb_true_iff in Ha as [Hc Ha].
    unfold not_ws in Hc. apply negb_true_iff in Hc.
    simpl. rewrite Hc, (IH Ha). reflexivity.
Qed.

(** The arguments of a command line made of a command word, white space
    and one token. *)
Lemma verify_args cmd sep tok :
  cmd <> [] -> forallb not_ws cmd = true ->
  sep <> [] -> forallb is_ws sep = true ->
  tok <> [] -> forallb not_ws tok = true ->
  split_ws (trim (cmd ++ sep ++ tok)) = [cmd; tok].
Proof.
  intros Hcne Hc Hsne Hs Hne Hws.
  assert (T : trim (cmd ++ sep ++ tok) = cmd ++ sep ++ tok).
  { destruct (exists_last Hne) as (t & c & ->).
    rewrite forallb_app in Hws. apply andb_true_iff in Hws as [_ Hl].
    simpl in Hl. rewrite andb_true_r in Hl.
    unfold not_ws in Hl. apply negb_true_iff in Hl.
    unfold trim, trimStart.
    destruct cmd as [|d cmd]; [congruence|].
    simpl in Hc. apply andb_true_iff in Hc as [Hd _].
    unfold not_ws in Hd. apply negb_true_iff in Hd.
    change (dropWhile is_ws ((d :: cmd) ++ sep ++ t ++ [c]))
      with (if is_ws d then dropWhile is_ws (cmd ++ sep ++ t ++ [c])
            else (d :: cmd) ++ sep ++ t ++ [c]).
    rewrite Hd.
    replace ((d :: cmd) ++ sep ++ t ++ [c])
      with (((d :: cmd) ++ sep ++ t) ++ [c])
      by (rewrite <- !app_assoc; reflexivity).
    apply trimEnd_snoc, Hl. }
  rewrite T. apply split_ws_two; assumption.
Qed.

(** C10: one leading [u/] (or [U/]) before a Reddit name is stripped from
    the argument of the verify command before the search.  The command
    line is a command word, white space and the argument; [Name] is a bare
    name: a token that does not itself begin with the prefix.  The
    argument read from [u/Name] is [Name], as from [Name]; from a doubled
    prefix only the first is taken away.  When guild, channel and member
    resolve, the run of the command on [u/Name] announces the search for
    [Name], searches the channel for [Name], and replies and acts on the
    result of that search.  In every world the run on [u/Name] is the run
    on [Name]: the same search, the same replies, the same changes to the
    account. *)
Theorem verify_u_prefix_stripped fuel cfg w (cmd sep prefix name : jsstring) :
  cmd <> [] -> forallb not_ws cmd = true ->
  sep <> [] -> forallb is_ws sep = true ->
  prefix = str "u/" \/ prefix = str "U/" ->
  name <> [] ->
  forallb not_ws name = true ->
  startsWith (str "u/") (toLowerCase name) = false ->
  verify_argument (cmd ++ sep ++ prefix ++ name) = name
  /\ verify_argument (cmd ++ sep ++ name) = name
  /\ verify_argument (cmd ++ sep ++ prefix ++ prefix ++ name) = prefix ++ name
  /\ handleVerifyCommand fuel cfg w (cmd ++ sep ++ prefix ++ name)
     = handleVerifyCommand fuel cfg w (cmd ++ sep ++ name)
  /\ (forall history member,
        guild_resolves w = true ->
        modmail_channel w = Some (true, history) ->
        member_of w = Some member ->
        handleVerifyCommand fuel cfg w (cmd ++ sep ++ prefix ++ name)
        = let searching := Replied (Searching (LOOKBACK_HOURS cfg) name) in
          match findMatchingModmail fuel (clock w) history name member
                  (LOOKBACK_HOURS cfg) with
          | None => None
          | Some (None, _) =>
              Some ([searching;
                     Replied (NoRecentModmail name (LOOKBACK_HOURS cfg)
                                (username member))], account w)
          | Some (Some mt, _) =>
              let p := parsed mt in
              if is_banned (status p)
              then Some ([searching;
                          Replied (StatusBlocked (redditName p) (status p))],
                         account w)
              else if negb (roles_add_succeeds w)
              then Some ([searching; RolesAdd (ROLE_ID cfg); LogRoleFailed;
                          Replied (RoleNotAdded (redditName p))], account w)
              else
                let a1 := add_role (ROLE_ID cfg) (account w) in
                let newNick := redditName p ++ str " | " ++ username member in
                Some ([searching; RolesAdd (ROLE_ID cfg); LogRoleAdded]
                      ++ (if setNickname_succeeds w
                          then [SetNickname newNick; LogNicknameSet]
                          else [SetNickname newNick; LogNicknameFailed])
                      ++ [Replied (Verified (redditName p) (username member)
                                     (str "https://www.reddit.com/u/"
                                      ++ redditName p)
                                     (discordName p))],
                      if setNickname_succeeds w then set_nick newNick a1
                      else a1)
          end).
Proof.
  intros Hcne Hc Hsne Hs Hp Hne Hws Hbare.
  assert (Hpws : forallb not_ws (prefix ++ name) = true).
  { rewrite forallb_app, Hws. destruct Hp as [-> | ->]; reflexivity. }
  assert (Hpne : prefix ++ name <> []).
  { destruct Hp as [-> | ->]; discriminate. }
  assert (Hppws : forallb not_ws (prefix ++ prefix ++ name) = true).
  { rewrite forallb_app, Hpws. destruct Hp as [-> | ->]; reflexivity. }
  assert (Hppne : prefix ++ prefix ++ name <> []).
  { destruct Hp as [-> | ->]; discriminate. }
  assert (S1 := @verify_args cmd sep _ Hcne Hc Hsne Hs Hpne Hpws).
  assert (S2 := @verify_args cmd sep _ Hcne Hc Hsne Hs Hne Hws).
  assert (S3 := @verify_args cmd sep _ Hcne Hc Hsne Hs Hppne Hppws).
  assert (A1 : verify_argument (cmd ++ sep ++ prefix ++ name) = name).
  { unfold verify_argument. rewrite S1. simpl nth.
    destruct Hp as [-> | ->]; reflexivity. }
  assert (A2 : verify_argument (cmd ++ sep ++ name) = name).
  { unfold verify_argument. rewrite S2. simpl nth.
    unfold strip_u_prefix. rewrite Hbare. reflexivity. }
  assert (A3 : verify_argument (cmd ++ sep ++ prefix ++ prefix ++ name)
               = prefix ++ name).
  { unfold verify_argument. rewrite S3. simpl nth.
    destruct Hp as [-> | ->]; reflexivity. }
  split; [exact A1|]. split; [exact A2|]. split; [exact A3|]. split.
  - unfold handleVerifyCommand.
    fold (verify_argument (cmd ++ sep ++ prefix ++ name)).
    fold (verify_argument (cmd ++ sep ++ name)).
    rewrite S1, S2, A1, A2. reflexivity.
  - intros history member Hg Hch Hm.
    assert (Hargs : 2 <= length (split_ws (trim (cmd ++ sep ++ prefix ++ name))))
      by (rewrite S1; simpl; lia).
    rewrite (@handleVerifyCommand_search fuel cfg w
               (cmd ++ sep ++ prefix ++ name) history member
               Hargs Hg Hch Hm).
    rewrite A1. reflexivity.
Qed.

Lemma verify_u_prefix_stripped_witness :
  verify_argument (str "!verify" ++ str " " ++ str "U/" ++ str "Hermit_Toad")
  = str "Hermit_Toad"
  /\ verify_argument (str "!verify" ++ str " " ++ str "Hermit_Toad")
     = str "Hermit_Toad"
  /\ verify_argument
       (str "!verify" ++ str " " ++ str "U/" ++ str "U/" ++ str "Hermit_Toad")
     = str "U/" ++ str "Hermit_Toad"
  /\ handleVerifyCommand 6 cfg0 world0
       (str "!verify" ++ str " " ++ str "U/" ++ str "Hermit_Toad")
     = handleVerifyCommand 6 cfg0 world0
         (str "!verify" ++ str " " ++ str "Hermit_Toad")
  /\ handleVerifyCommand 6 cfg0 world0
       (str "!verify" ++ str " " ++ str "U/" ++ str "Hermit_Toad")
     = Some ([Replied (Searching 12 (str "Hermit_Toad"));
              RolesAdd 777; LogRoleAdded;
              SetNickname (str "Hermit_Toad | pikachucatcher88");
              LogNicknameSet;
              Replied (Verified (str "Hermit_Toad") (str "pikachucatcher88")
                         (str "https://www.reddit.com/u/Hermit_Toad")
                         (str "PikachuCatcher88"))],
             {| roles := [777%N];
                nickname := Some (str "Hermit_Toad | pikachucatcher88") |}).
Proof.
  destruct (@verify_u_prefix_stripped 6 cfg0 world0 (str "!verify") (str " ")
              (str "U/") (str "Hermit_Toad")
              ltac:(discriminate) ltac:(reflexivity)
              ltac:(discriminate) ltac:(reflexivity)
              ltac:(right; reflexivity) ltac:(discriminate)
              ltac:(reflexivity) ltac:(reflexivity))
    as (A1 & A2 & A3 & E & S).
  split; [exact A1|]. split; [exact A2|]. split; [exact A3|].
  split; [exact E|].
  rewrite (S channel0 toad eq_refl eq_refl eq_refl).
  vm_compute. reflexivity.
Defined.

(** Exactly one prefix is stripped: a second one stays in the name that is
    searched for. *)
Example strip_u_prefix_once :
  strip_u_prefix (str "u/u/Hermit_Toad") = str "u/Hermit_Toad".
Proof. reflexivity. Qed.

(* ================================================================== *)
(** ** The external identity: which label wins *)

Section RegexMatches.

Variable A : Type.

Lemma startsWith_app p s : startsWith p (p ++ s) = true.
Proof.
  induction p as [|a p IH]; simpl; [reflexivity|].
  rewrite Ascii.eqb_refl. exact IH.
Qed.

(** A literal matches where the text begins with it, in any case. *)
Lemma lit_ci_matches p l (k : jsstring -> option A) rest :
  toLowerCase l = toLowerCase p ->
  lit_ci p k (l ++ rest) = k rest.
Proof.
  intros E. unfold lit_ci, toLowerCase in *.
  rewrite map_app, E, startsWith_app.
  assert (L : length p = length l)
    by (rewrite <- (length_map lower p), <- E; apply length_map).
  rewrite L, skipn_app, skipn_all, Nat.sub_diag. reflexivity.
Qed.

(** A greedy run takes all of [w] when the text stops the run there and
    the rest of the pattern matches after it. *)
Lemma star_cap_greedy c w : forall (k : jsstring -> jsstring -> option A) r x,
  forallb c w = true ->
  match r with [] => True | a :: _ => c a = false end ->
  k w r = Some x ->
  star_cap c k (w ++ r) = Some x.
Proof.
  induction w as [|a w IH]; intros k r x Hw Hr Hk; simpl.
  - destruct r as [|b r]; [exact Hk|]. simpl in *. rewrite Hr. exact Hk.
  - simpl in Hw. apply andb_true_iff in Hw as [Ha Hw].
    rewrite Ha, (IH (fun v r0 => k (a :: v) r0) r x Hw Hr Hk). reflexivity.
Qed.

(** A search passes over the positions where the pattern fails. *)
Lemma search_skip (m : jsstring -> option A) pre s :
  (forall n, n < length pre -> m (skipn n (pre ++ s)) = None) ->
  search m (pre ++ s) = search m s.
Proof.
  induction pre as [|c pre IH]; intros H; [reflexivity|].
  assert (H0 := H 0 (Nat.lt_0_succ _)). simpl in H0.
  simpl. rewrite H0.
  apply IH. intros n Hn. apply (H (S n)). simpl; lia.
Qed.

Lemma search_here (m : jsstring -> option A) s x :
  m s = Some x -> search m s = Some x.
Proof. intros H. destruct s; simpl; rewrite H; reflexivity. Qed.

End RegexMatches.

Lemma trim_nonempty v : v <> [] -> no_lead_ws v -> trim v <> [].
Proof.
  destruct v as [|c v]; [congruence|]. simpl. intros _ Hc.
  unfold trim, trimStart. simpl. rewrite Hc. rewrite trimEnd_cons.
  destruct (truthy (trimEnd v)); [discriminate|]. rewrite Hc. discriminate.
Qed.

(** The value captured after a label, at the leftmost place where the
    label occurs. *)
Lemma labelled_leftmost label pre l ws v post :
  (forall n, n < length pre ->
     startsWith (toLowerCase (str label))
       (toLowerCase (skipn n (pre ++ l ++ ws ++ v ++ post))) = false) ->
  toLowerCase l = toLowerCase (str label) ->
  forallb is_ws ws = true ->
  v <> [] -> no_lead_ws v -> forallb not_eol v = true ->
  match post with [] => True | e :: _ => not_eol e = false end ->
  Legacy.labelled label (pre ++ l ++ ws ++ v ++ post) = Some v.
Proof.
  intros Hpre Hl Hws Hne Hv Heol Hpost. unfold Legacy.labelled.
  rewrite search_skip.
  2:{ intros n Hn. unfold lit_ci. rewrite (Hpre n Hn). reflexivity. }
  apply search_here. rewrite (lit_ci_matches _ _ _ _ Hl).
  destruct v as [|c v]; [congruence|]. simpl in Hv.
  unfold rstar. apply star_cap_greedy; [exact Hws | exact Hv |].
  simpl in Heol. apply andb_true_iff in Heol as [Hc Heol].
  cbv beta. simpl app. unfold plus_cap. rewrite Hc.
  apply star_cap_greedy; [exact Heol | exact Hpost | reflexivity].
Qed.

(** C4, as stated, fails.  The parser knows no Participant label: on a
    text with a Participant line and an Author line it extracts the
    Author line's value.  The push-driven script prefers Participant, but
    takes the value at the leftmost occurrence of the label in the text,
    which need not begin a line. *)
Lemma participant_line_not_preferred :
  parseModmailMessageFromFullText participant_text
  = Some {| redditName := str "Bob";
            discordName := str "bobby";
            status := str "Unknown" |}
  /\ Legacy.finalRedditUser (Legacy.stripFormatting participant_midline)
     = str "zed".
Proof. split; vm_compute; reflexivity. Qed.

(** The value of a labelled line of the parser: what follows the label
    and the white space after it. *)
Lemma strip_label_value label l ws v :
  toLowerCase l = toLowerCase (str label) ->
  forallb is_ws ws = true ->
  no_lead_ws v ->
  strip_label label (l ++ ws ++ v) = v.
Proof.
  intros Hl Hws Hv. unfold strip_label.
  rewrite (lit_ci_matches _ _ _ _ Hl). unfold rstar.
  rewrite (@star_cap_greedy _ is_ws ws (fun _ r => Some r) v v Hws);
    [reflexivity | | reflexivity].
  destruct v; [exact I | exact Hv].
Qed.

(** C4, amended.  The parser recognises the Author label only: when a
    record is returned and the first line carrying the Author label has a
    value that is not empty after stripping, the external identity is
    that value, stripped, whatever the other lines are, Participant lines
    and the first line included.  In the push-driven script the external
    identity is the value that follows the leftmost occurrence of the
    Participant label in the stripped text (white space skipped, up to the
    end of the line), whatever Author lines and first line the text has. *)
Theorem external_identity_label_priority
    (text : jsstring) (r : Parsed) (al aws av : jsstring)
    (pre pl pws pv post : jsstring) :
  parseModmailMessageFromFullText text = Some r ->
  find (has_label "author:") (lines_of text) = Some (al ++ aws ++ av) ->
  toLowerCase al = str "author:" ->
  forallb is_ws aws = true ->
  no_lead_ws av ->
  stripMarkdown (trim av) <> [] ->
  (forall n, n < length pre ->
     startsWith (str "participant:")
       (toLowerCase (skipn n (pre ++ pl ++ pws ++ pv ++ post))) = false) ->
  toLowerCase pl = str "participant:" ->
  forallb is_ws pws = true ->
  pv <> [] -> no_lead_ws pv -> forallb not_eol pv = true ->
  match post with [] => True | e :: _ => not_eol e = false end ->
  redditName r = stripMarkdown (trim av)
  /\ Legacy.finalRedditUser (pre ++ pl ++ pws ++ pv ++ post) = trim pv.
Proof.
  intros HP HA Hal Haws Hav HN Hpre Hl Hws Hne Hv Heol Hpost. split.
  - apply parse_some_inv in HP as (f & rest & _ & _ & HR & _).
    rewrite HR. unfold parse_redditName. rewrite HA.
    rewrite (@strip_label_value "author:" al aws av Hal Haws Hav).
    apply truthy_nonempty in HN. rewrite HN. reflexivity.
  - unfold Legacy.finalRedditUser.
    rewrite (@labelled_leftmost "Participant:" pre pl pws pv post
               Hpre Hl Hws Hne Hv Heol Hpost).
    assert (T := trim_nonempty Hne Hv).
    destruct (trim pv) as [|c t]; [congruence | reflexivity].
Qed.

Lemma external_identity_label_priority_witness :
  redditName {| redditName := str "Bob"; discordName := str "bobby";
                status := str "Unknown" |}
  = stripMarkdown (trim (str "Bob"))
  /\ Legacy.finalRedditUser
       ((str "Subject: welcome" ++ [LF]) ++ str "PARTICIPANT:" ++ str " "
        ++ str "Alice" ++ (LF :: str "Author: Bob"))
     = trim (str "Alice").
Proof.
  apply (@external_identity_label_priority participant_text
           {| redditName := str "Bob"; discordName := str "bobby";
              status := str "Unknown" |}
           (str "Author:") (str " ") (str "Bob")
           (str "Subject: welcome" ++ [LF]) (str "PARTICIPANT:") (str " ")
           (str "Alice") (LF :: str "Author: Bob")).
  - vm_compute. reflexivity.
  - vm_compute. reflexivity.
  - reflexivity.
  - reflexivity.
  - reflexivity.
  - vm_compute. discriminate.
  - intros n Hn.
    do 17 (destruct n as [|n]; [vm_compute; reflexivity|]).
    simpl in Hn. lia.
  - reflexivity.
  - reflexivity.
  - discriminate.
  - reflexivity.
  - reflexivity.
  - reflexivity.
Defined.

(** On the text of the counterexample the push-driven script does take
    the Participant line's value. *)
Example legacy_prefers_participant :
  Legacy.finalRedditUser (Legacy.stripFormatting participant_text)
  = str "Alice".
Proof. vm_compute. reflexivity. Qed.

(* ================================================================== *)
(** ** The push-driven script: skipping and linking *)

(** Without a Discord name in the text the handler does nothing but log. *)
Lemma legacy_skips_without_discord_name w rawText :
  Legacy.discordName (Legacy.stripFormatting rawText) = None ->
  Legacy.onMessageCreate w rawText = [Legacy.LogBanned]
  \/ Legacy.onMessageCreate w rawText = [Legacy.LogNoDiscordName].
Proof.
  intros H. unfold Legacy.onMessageCreate.
  destruct (Legacy.status_banned _); [left; reflexivity|].
  rewrite H. right; reflexivity.
Qed.


(* ================================================================== *)
(** ** Names compared by the matcher *)

Lemma is_ws_lower c : is_ws (lower c) = is_ws c.
Proof. destruct c as [[] [] [] [] [] [] [] []]; vm_compute; reflexivity. Qed.

Lemma lower_idem c : lower (lower c) = lower c.
Proof. destruct c as [[] [] [] [] [] [] [] []]; vm_compute; reflexivity. Qed.

Lemma dropWhile_lower s :
  dropWhile is_ws (toLowerCase s) = toLowerCase (dropWhile is_ws s).
Proof.
  unfold toLowerCase. induction s as [|c s IH]; [reflexivity|].
  simpl. rewrite is_ws_lower. destruct (is_ws c); [exact IH | reflexivity].
Qed.

(** Trimming and lower-casing commute. *)
Lemma trim_lower s : trim (toLowerCase s) = toLowerCase (trim s).
Proof.
  unfold trim, trimEnd, trimStart.
  rewrite dropWhile_lower. unfold toLowerCase at 1.
  rewrite <- map_rev. fold (toLowerCase (rev (dropWhile is_ws s))).
  rewrite dropWhile_lower. unfold toLowerCase. rewrite map_rev. reflexivity.
Qed.

Lemma toLowerCase_idem s : toLowerCase (toLowerCase s) = toLowerCase s.
Proof.
  unfold toLowerCase. rewrite map_map. apply map_ext. apply lower_idem.
Qed.

(** X1: [normalize] is a normal form: a second pass changes nothing, and it
    does not see the case or the surrounding white space of its
    argument. *)
Theorem normalize_normal_form s :
  normalize (normalize s) = normalize s
  /\ normalize (toLowerCase s) = normalize s
  /\ normalize (trim s) = normalize s
  /\ trim (normalize s) = normalize s.
Proof.
  unfold normalize. repeat split.
  - rewrite trim_lower, trim_idem. apply toLowerCase_idem.
  - rewrite trim_lower. apply toLowerCase_idem.
  - rewrite trim_idem. reflexivity.
  - rewrite trim_lower, trim_idem. reflexivity.
Qed.

(* ================================================================== *)
(** ** The search: how much it reads, and when it ends *)

Section ScanBounds.

Variable cutoff : Z.
Variables targetReddit username' globalName' : jsstring.

Notation scan_batch' := (scan_batch cutoff targetReddit username' globalName').
Notation scan_pages' := (scan_pages cutoff targetReddit username' globalName').

(** A batch that is run through to its end was counted in full, and did
    not pass the cap. *)
Lemma scan_batch_exhausted h : forall n k,
  scan_batch' h n = (Exhausted, k) ->
  k = n + length h /\ (h <> [] -> k <= MAX_SCANNED).
Proof.
  induction h as [|m h IH]; intros n k; simpl.
  - intros H; inversion H; subst. split; [lia | congruence].
  - destruct (MAX_SCANNED <? S n) eqn:Hmax; [discriminate|].
    apply Nat.ltb_ge in Hmax.
    destruct (createdTimestamp m <? cutoff)%Z; [discriminate|].
    assert (Hrec : scan_batch' h (S n) = (Exhausted, k) ->
                   k = n + S (length h) /\ (m :: h <> [] -> k <= MAX_SCANNED)).
    { intros H. destruct (IH _ _ H) as [E Hle]. split; [lia|]. intros _.
      destruct h as [|m' h']; [simpl in E; lia | apply Hle; discriminate]. }
    destruct (parseModmailMessageFromFullText _) as [p|]; [|exact Hrec].
    destruct (is_banned _); [exact Hrec|].
    destruct (negb (string_eqb _ _)); [exact Hrec|].
    destruct (negb (discordMatches _ _ _)); [exact Hrec | discriminate].
Qed.

(** The counter stops at the cap plus one; a match or the end of a batch
    is reached within the cap. *)
Lemma scan_batch_cap h : forall n e k,
  n <= MAX_SCANNED ->
  scan_batch' h n = (e, k) ->
  k <= S MAX_SCANNED
  /\ (e <> Return None -> k <= MAX_SCANNED).
Proof.
  induction h as [|m h IH]; intros n e k Hn; simpl.
  - intros H; inversion H; subst. split; [lia | intros _; lia].
  - destruct (MAX_SCANNED <? S n) eqn:Hmax.
    { intros H; inversion H; subst. split; [lia | congruence]. }
    apply Nat.ltb_ge in Hmax.
    destruct (createdTimestamp m <? cutoff)%Z.
    { intros H; inversion H; subst. split; [lia | congruence]. }
    assert (Hrec := IH (S n) e k Hmax).
    destruct (parseModmailMessageFromFullText _) as [p|]; [|exact Hrec].
    destruct (is_banned _); [exact Hrec|].
    destruct (negb (string_eqb _ _)); [exact Hrec|].
    destruct (negb (discordMatches _ _ _)); [exact Hrec|].
    intros H; inversion H; subst. split; [lia | intros _; lia].
Qed.

(** More fuel does not change a result. *)
Lemma scan_pages_more_fuel fuel : forall channel lastId n x j,
  scan_pages' fuel channel lastId n = Some x ->
  scan_pages' (fuel + j) channel lastId n = Some x.
Proof.
  induction fuel as [|fuel IH]; intros channel lastId n x j; [discriminate|].
  change (S fuel + j) with (S (fuel + j)). rewrite !scan_pages_step.
  destruct (fetch channel 100 lastId) as [|m0 b]; [auto|]. cbv zeta.
  destruct (scan_batch' (m0 :: b) n) as [[r|] k]; [auto | apply IH].
Qed.

(** The loop ends on every channel, in any order: each further page adds
    at least one message to the counter, which the cap bounds. *)
Lemma scan_pages_ends fuel : forall channel lastId n,
  n <= MAX_SCANNED ->
  S MAX_SCANNED - n < fuel ->
  exists r k,
    scan_pages' fuel channel lastId n = Some (r, k)
    /\ k <= S MAX_SCANNED
    /\ (r <> None -> k <= MAX_SCANNED).
Proof.
  induction fuel as [|fuel IH]; intros channel lastId n Hn Hf; [lia|].
  rewrite scan_pages_step.
  destruct (fetch channel 100 lastId) as [|m0 b].
  { exists None, n. split; [reflexivity|]. split; [lia | congruence]. }
  cbv zeta.
  destruct (scan_batch' (m0 :: b) n) as [[r|] k] eqn:E.
  - destruct (scan_batch_cap _ Hn E) as [H1 H2].
    exists r, k. split; [reflexivity|]. split; [exact H1|].
    intros Hr. apply H2. intros Hc; inversion Hc; subst. congruence.
  - destruct (scan_batch_exhausted _ _ E) as [Hk Hle].
    specialize (Hle ltac:(discriminate)). simpl length in Hk.
    apply IH; lia.
Qed.

(** Widening the window keeps a match: with an earlier cutoff the same
    record is returned, at the same count. *)
Lemma scan_batch_earlier_cutoff cutoff2 h : forall n e k,
  (cutoff2 <= cutoff)%Z ->
  e <> Return None ->
  scan_batch' h n = (e, k) ->
  scan_batch cutoff2 targetReddit username' globalName' h n = (e, k).
Proof.
  induction h as [|m h IH]; intros n e k Hc He; simpl; [auto|].
  destruct (MAX_SCANNED <? S n).
  { intros H; inversion H; subst. congruence. }
  destruct (createdTimestamp m <? cutoff)%Z eqn:Hold.
  { intros H; inversion H; subst. congruence. }
  apply Z.ltb_ge in Hold.
  assert (Hnew : (createdTimestamp m <? cutoff2)%Z = false)
    by (apply Z.ltb_ge; lia).
  rewrite Hnew.
  assert (Hrec := IH (S n) e k Hc He).
  destruct (parseModmailMessageFromFullText _) as [p|]; [|exact Hrec].
  destruct (is_banned _); [exact Hrec|].
  destruct (negb (string_eqb _ _)); [exact Hrec|].
  destruct (negb (discordMatches _ _ _)); [exact Hrec | auto].
Qed.

Lemma scan_pages_earlier_cutoff cutoff2 fuel : forall channel lastId n mt k,
  (cutoff2 <= cutoff)%Z ->
  scan_pages' fuel channel lastId n = Some (Some mt, k) ->
  scan_pages cutoff2 targetReddit username' globalName'
    fuel channel lastId n = Some (Some mt, k).
Proof.
  induction fuel as [|fuel IH]; intros channel lastId n mt k Hc;
    [discriminate|].
  rewrite !scan_pages_step.
  destruct (fetch channel 100 lastId) as [|m0 b]; [discriminate|]. cbv zeta.
  destruct (scan_batch' (m0 :: b) n) as [[r|] k'] eqn:E.
  - intros H; inversion H; subst.
    rewrite (@scan_batch_earlier_cutoff cutoff2 (m0 :: b) n
               (Return (Some mt)) k Hc ltac:(discriminate) E).
    reflexivity.
  - rewrite (@scan_batch_earlier_cutoff cutoff2 (m0 :: b) n
               Exhausted k' Hc ltac:(discriminate) E).
    apply IH, Hc.
Qed.

(** On a sorted history every page but the last is full, so the pages
    that the cap allows are few. *)
Lemma scan_pages_whole_in_pages fuel : forall pre rest n,
  newest_first (pre ++ rest) ->
  1 <= fuel ->
  length rest <= 100 * (fuel - 1) \/ MAX_SCANNED <= 100 * (fuel - 1) + n ->
  scan_pages' fuel (pre ++ rest) (cursor pre) n
  = Some (whole_scan cutoff targetReddit username' globalName' rest n).
Proof.
  induction fuel as [|fuel IH]; intros pre rest n Hs H1 Hb; [lia|].
  rewrite scan_pages_step, (fetch_after_cursor _ _ _ Hs).
  destruct (firstn 100 rest) as [|m0 b] eqn:F.
  - destruct rest; [reflexivity | discriminate].
  - assert (E : rest = (m0 :: b) ++ skipn 100 rest)
      by (rewrite <- F; symmetry; apply firstn_skipn).
    unfold whole_scan.
    replace (scan_batch cutoff targetReddit username' globalName' rest n)
      with (scan_batch' ((m0 :: b) ++ skipn 100 rest) n)
      by (rewrite <- E; reflexivity).
    rewrite scan_batch_app.
    destruct (scan_batch' (m0 :: b) n) as [[r|] k] eqn:B; [reflexivity|].
    destruct (scan_batch_exhausted _ _ B) as [Hk Hle].
    specialize (Hle ltac:(discriminate)).
    assert (Lb : length (m0 :: b) = Nat.min 100 (length rest))
      by (rewrite <- F; apply length_firstn).
    assert (Lr : length (skipn 100 rest) = length rest - 100)
      by apply length_skipn.
    rewrite <- cursor_app with (pre := pre).
    assert (E' : pre ++ rest = (pre ++ m0 :: b) ++ skipn 100 rest)
      by (rewrite <- app_assoc; f_equal; exact E).
    rewrite E'.
    assert (L1 : 1 <= length (m0 :: b)) by (simpl; lia).
    apply IH.
    + rewrite <- E'. exact Hs.
    + unfold MAX_SCANNED in *. lia.
    + unfold MAX_SCANNED in *. lia.
Qed.

End ScanBounds.

(** X2: the search ends on every channel, whatever the order of its messages:
    502 page fetches are enough and further fuel changes nothing; at most
    501 messages are counted, and a match is one of the first 500. *)
Theorem search_ends_within_cap now channel input member hours :
  exists r k,
    (forall j, findMatchingModmail (S (S MAX_SCANNED) + j) now channel input
                 member hours = Some (r, k))
    /\ k <= S MAX_SCANNED
    /\ (r <> None -> k <= MAX_SCANNED).
Proof.
  unfold findMatchingModmail.
  destruct (@scan_pages_ends (now - hours * 60 * 60 * 1000)%Z
              (normalize input) (normalize (username member))
              (normalize (match globalName member with
                          | Some g => g | None => [] end))
              (S (S MAX_SCANNED)) channel None 0)
    as (r & k & H & H1 & H2); [lia | lia |].
  exists r, k. split; [|split; assumption].
  intros j. apply scan_pages_more_fuel, H.
Qed.

Lemma search_needs_six_pages_aux now channel input member hours :
  newest_first channel ->
  exists k,
    forall j,
      findMatchingModmail (6 + j) now channel input member hours
      = Some (Spec.findMatch channel (query_of now input member hours), k).
Proof.
  intros Hs.
  destruct (@findMatchingModmail_spec (S (length channel)) now channel input
              member hours Hs (Nat.lt_succ_diag_r _)) as (k & _ & W).
  exists k. intros j. rewrite <- W. unfold findMatchingModmail.
  apply (@scan_pages_whole_in_pages (cutoff_of now hours) (normalize input)
           (normalize (username member))
           (normalize (globalName_or_empty member)) (6 + j) [] channel 0 Hs).
  - lia.
  - right. unfold MAX_SCANNED. lia.
Qed.


(** X3: on a history in reverse-chronological order six page fetches are
    enough, however long the history: the search then returns the match
    of the specification's matcher, and further fuel changes nothing. *)
Theorem search_needs_six_pages now channel input member hours :
  newest_first channel ->
  exists k,
    forall j,
      findMatchingModmail (6 + j) now channel input member hours
      = Some (Spec.findMatch channel (query_of now input member hours), k).
Proof. apply search_needs_six_pages_aux. Qed.

Lemma search_needs_six_pages_witness :
  exists k,
    forall j,
      findMatchingModmail (6 + j) now0 channel0 (str "Hermit_Toad") toad 12
      = Some (Spec.findMatch channel0
                (query_of now0 (str "Hermit_Toad") toad 12), k).
Proof.
  exact (@search_needs_six_pages now0 channel0 (str "Hermit_Toad") toad 12
           channel0_newest_first).
Defined.

(** Six fetches on a long history: the cap stops the sixth page at its
    first message. *)
Example findMatchingModmail_six_fetches :
  findMatchingModmail 6 now0 (fillers 600 ++ [older_forward])
    (str "Hermit_Toad") toad 12
  = Some (None, 501).
Proof. vm_compute. reflexivity. Qed.

(** X4: widening the lookback keeps a match: a record found with a window of
    [hours] is found, at the same count, with any longer window. *)
Theorem wider_lookback_keeps_match
    fuel now channel input member hours hours' mt k :
  (hours <= hours')%Z ->
  findMatchingModmail fuel now channel input member hours = Some (Some mt, k) ->
  findMatchingModmail fuel now channel input member hours' = Some (Some mt, k).
Proof.
  unfold findMatchingModmail. intros Hh H.
  eapply scan_pages_earlier_cutoff; [|exact H]. lia.
Qed.

Lemma wider_lookback_keeps_match_witness :
  exists mt k,
    findMatchingModmail 6 now0 channel0 (str "Hermit_Toad") toad 12
    = Some (Some mt, k)
    /\ findMatchingModmail 6 now0 channel0 (str "Hermit_Toad") toad 48
       = Some (Some mt, k).
Proof.
  eexists. eexists. split; [vm_compute; reflexivity|].
  apply (@wider_lookback_keeps_match 6 now0 channel0 (str "Hermit_Toad")
           toad 12 48); [lia | vm_compute; reflexivity].
Defined.

Lemma forward_in_window_found now channel input member hours m p :
  newest_first channel ->
  In m (Spec.window channel (cutoff_of now hours) MAX_SCANNED) ->
  parseModmailMessageFromFullText (buildFullTextFromMessage m) = Some p ->
  Spec.passes (query_of now input member hours) p = true ->
  exists mt k,
    (forall j, findMatchingModmail (6 + j) now channel input member hours
               = Some (Some mt, k))
    /\ Spec.passes (query_of now input member hours) (parsed mt) = true
    /\ In (message mt) (Spec.window channel (cutoff_of now hours) MAX_SCANNED)
    /\ parseModmailMessageFromFullText (buildFullTextFromMessage (message mt))
       = Some (parsed mt).
Proof.
  intros Hs Hin Hp Hpass.
  destruct (@search_needs_six_pages_aux now channel input member hours Hs)
    as (k & Hk).
  set (q := query_of now input member hours) in *.
  destruct (Spec.findMatch channel q) as [mt|] eqn:F.
  - exists mt, k. split; [exact Hk|].
    unfold Spec.findMatch in F. apply find_some in F as [Fin Fp].
    split; [exact Fp|].
    unfold Spec.scan in Fin. apply in_flat_map in Fin as (m' & Hm' & Hr).
    unfold Spec.record_of in Hr.
    destruct (parseModmailMessageFromFullText (buildFullTextFromMessage m'))
      as [p'|] eqn:P'; [|destruct Hr].
    destruct Hr as [<-|[]]. simpl. split; [exact Hm' | exact P'].
  - exfalso. unfold Spec.findMatch in F.
    assert (Hscan : In {| parsed := p; message := m |}
                      (Spec.scan channel (Spec.lookbackCutoff q)
                         (Spec.maxScanned q))).
    { unfold Spec.scan. apply in_flat_map. exists m. split; [exact Hin|].
      unfold Spec.record_of. rewrite Hp. simpl; auto. }
    pose proof (find_none _ _ F _ Hscan) as N. simpl in N. congruence.
Qed.

(** X5: the search is complete: when some message of the window parses to a
    record that passes the three checks, a match is returned, it passes
    the checks too, and it is such a record of the window. *)
Theorem valid_forward_is_found now channel input member hours m p :
  newest_first channel ->
  In m (Spec.window channel (cutoff_of now hours) MAX_SCANNED) ->
  parseModmailMessageFromFullText (buildFullTextFromMessage m) = Some p ->
  Spec.passes (query_of now input member hours) p = true ->
  exists mt k,
    (forall j, findMatchingModmail (6 + j) now channel input member hours
               = Some (Some mt, k))
    /\ Spec.passes (query_of now input member hours) (parsed mt) = true
    /\ In (message mt) (Spec.window channel (cutoff_of now hours) MAX_SCANNED)
    /\ parseModmailMessageFromFullText (buildFullTextFromMessage (message mt))
       = Some (parsed mt).
Proof. apply forward_in_window_found. Qed.

Lemma valid_forward_is_found_witness :
  exists mt k,
    (forall j, findMatchingModmail (6 + j) now0 channel0 (str "Hermit_Toad")
                 toad 12 = Some (Some mt, k))
    /\ Spec.passes (query_of now0 (str "Hermit_Toad") toad 12) (parsed mt)
       = true
    /\ In (message mt) (Spec.window channel0 (cutoff_of now0 12) MAX_SCANNED)
    /\ parseModmailMessageFromFullText (buildFullTextFromMessage (message mt))
       = Some (parsed mt).
Proof.
  apply (@valid_forward_is_found now0 channel0 (str "Hermit_Toad") toad 12
           older_forward
           {| redditName := str "Hermit_Toad";
              discordName := str "pikachucatcher88";
              status := str "Active" |}).
  - exact channel0_newest_first.
  - vm_compute. right. right. left. reflexivity.
  - vm_compute. reflexivity.
  - vm_compute. reflexivity.
Defined.

(* ================================================================== *)
(** ** The verify command: what a run may change and say *)

(** Every run of the command, by the branch it takes. *)
Lemma handleVerifyCommand_cases fuel cfg w content trace a :
  handleVerifyCommand fuel cfg w content = Some (trace, a) ->
  (a = account w
   /\ (exists r, trace = [Replied r]
                 /\ (r = Usage \/ r = GuildNotFound
                     \/ r = ChannelMisconfigured \/ r = MemberUnresolved)))
  \/ (exists history member,
        modmail_channel w = Some (true, history)
        /\ member_of w = Some member
        /\ let searching :=
             Replied (Searching (LOOKBACK_HOURS cfg) (verify_argument content))
           in
           (a = account w
            /\ (exists k,
                  findMatchingModmail fuel (clock w) history
                    (verify_argument content) member (LOOKBACK_HOURS cfg)
                  = Some (None, k))
            /\ trace = [searching;
                        Replied (NoRecentModmail (verify_argument content)
                                   (LOOKBACK_HOURS cfg) (username member))])
           \/ (exists mt k,
                 findMatchingModmail fuel (clock w) history
                   (verify_argument content) member (LOOKBACK_HOURS cfg)
                 = Some (Some mt, k)
                 /\ ((roles_add_succeeds w = false
                      /\ a = account w
                      /\ trace = [searching; RolesAdd (ROLE_ID cfg);
                                  LogRoleFailed;
                                  Replied (RoleNotAdded
                                             (redditName (parsed mt)))])
                     \/ (roles_add_succeeds w = true
                         /\ exists nick_events,
                             trace = [searching; RolesAdd (ROLE_ID cfg);
                                      LogRoleAdded]
                                     ++ nick_events
                                     ++ [Replied
                                           (Verified (redditName (parsed mt))
                                              (username member)
                                              (str "https://www.reddit.com/u/"
                                               ++ redditName (parsed mt))
                                              (discordName (parsed mt)))]
                             /\ let newNick :=
                                  redditName (parsed mt) ++ str " | "
                                  ++ username member in
                                (setNickname_succeeds w = true
                                 /\ nick_events = [SetNickname newNick;
                                                   LogNicknameSet]
                                 /\ a = set_nick newNick
                                          (add_role (ROLE_ID cfg) (account w)))
                                \/ (setNickname_succeeds w = false
                                    /\ nick_events = [SetNickname newNick;
                                                      LogNicknameFailed]
                                    /\ a = add_role (ROLE_ID cfg)
                                             (account w)))))).
Proof.
  unfold handleVerifyCommand. fold (verify_argument content).
  destruct (length (split_ws (trim content)) <? 2).
  { intros H; inversion H; subst. left. split; [reflexivity|].
    exists Usage. auto. }
  destruct (guild_resolves w); simpl negb; cbv iota.
  2:{ intros H; inversion H; subst. left. split; [reflexivity|].
      exists GuildNotFound. auto. }
  destruct (modmail_channel w) as [[[|] history]|].
  2,3: intros H; inversion H; subst; left; (split; [reflexivity|]);
       exists ChannelMisconfigured; auto.
  destruct (member_of w) as [member|].
  2:{ intros H; inversion H; subst. left. split; [reflexivity|].
      exists MemberUnresolved. auto 6. }
  destruct (findMatchingModmail fuel (clock w) history
              (verify_argument content) member (LOOKBACK_HOURS cfg))
    as [[[mt|] k]|] eqn:F; [| |discriminate].
  2:{ intros H; inversion H; subst. right. exists history, member.
      split; [reflexivity|]. split; [reflexivity|]. left.
      split; [reflexivity|]. split; [exists k; exact F | reflexivity]. }
  assert (HB : is_banned (status (parsed mt)) = false).
  { apply is_banned_false.
    apply found_match_checked in F as (HB & _). exact HB. }
  rewrite HB.
  destruct (roles_add_succeeds w); simpl negb; cbv iota.
  - intros H; inversion H; subst. right. exists history, member.
    split; [reflexivity|]. split; [reflexivity|]. right.
    exists mt, k. split; [exact F|]. right. split; [reflexivity|].
    destruct (setNickname_succeeds w).
    + eexists. split; [reflexivity|]. left. auto.
    + eexists. split; [reflexivity|]. right. auto.
  - intros H; inversion H; subst. right. exists history, member.
    split; [reflexivity|]. split; [reflexivity|]. right.
    exists mt, k. split; [exact F|]. left. auto.
Qed.

(** X6: the command changes the account only after a match and a successful
    role grant.  The record matched then has the Reddit name that was
    typed and a Discord name of the invoking account (both up to case and
    surrounding white space); the account gains the configured role and
    nothing else, and its nickname is left alone or set to the record's
    Reddit name, a bar, and the user name. *)
Theorem verify_changes_account_only_on_match fuel cfg w content trace a :
  handleVerifyCommand fuel cfg w content = Some (trace, a) ->
  a = account w
  \/ exists history member mt k,
       modmail_channel w = Some (true, history)
       /\ member_of w = Some member
       /\ roles_add_succeeds w = true
       /\ findMatchingModmail fuel (clock w) history (verify_argument content)
            member (LOOKBACK_HOURS cfg) = Some (Some mt, k)
       /\ ci_equal (redditName (parsed mt)) (verify_argument content)
       /\ (exists n, In n (candidate_names member)
                     /\ ci_equal (discordName (parsed mt)) n)
       /\ includes (str "banned") (toLowerCase (status (parsed mt))) = false
       /\ roles a = roles (add_role (ROLE_ID cfg) (account w))
       /\ (nickname a = nickname (account w)
           \/ nickname a = Some (redditName (parsed mt) ++ str " | "
                                 ++ username member)).
Proof.
  intros H. apply handleVerifyCommand_cases in H.
  destruct H as [[Ha _]|(history & member & Hc & Hm & H)]; [left; exact Ha|].
  cbv zeta in H.
  destruct H as [(Ha & _)|(mt & k & F & H)]; [left; exact Ha|].
  destruct H as [(_ & Ha & _)|(Hr & ev & _ & H)]; [left; exact Ha|].
  right. exists history, member, mt, k.
  destruct (found_match_checked _ _ _ _ _ _ F) as (HB & HR & HD & _).
  split; [exact Hc|]. split; [exact Hm|]. split; [exact Hr|].
  split; [exact F|]. split; [exact HR|]. split; [exact HD|].
  split; [exact HB|].
  destruct H as [(_ & _ & ->)|(_ & _ & ->)]; simpl; auto.
Qed.

Lemma verify_changes_account_only_on_match_witness :
  exists trace a,
    handleVerifyCommand 6 cfg0 world0 (str "!verify u/Hermit_Toad")
    = Some (trace, a)
    /\ (a = account world0
        \/ exists history member mt k,
             modmail_channel world0 = Some (true, history)
             /\ member_of world0 = Some member
             /\ roles_add_succeeds world0 = true
             /\ findMatchingModmail 6 (clock world0) history
                  (verify_argument (str "!verify u/Hermit_Toad")) member
                  (LOOKBACK_HOURS cfg0) = Some (Some mt, k)
             /\ ci_equal (redditName (parsed mt))
                  (verify_argument (str "!verify u/Hermit_Toad"))
             /\ (exists n, In n (candidate_names member)
                           /\ ci_equal (discordName (parsed mt)) n)
             /\ includes (str "banned") (toLowerCase (status (parsed mt)))
                = false
             /\ roles a = roles (add_role (ROLE_ID cfg0) (account world0))
             /\ (nickname a = nickname (account world0)
                 \/ nickname a = Some (redditName (parsed mt) ++ str " | "
                                       ++ username member))).
Proof.
  eexists. eexists. split; [vm_compute; reflexivity|].
  eapply (@verify_changes_account_only_on_match 6 cfg0 world0
            (str "!verify u/Hermit_Toad")).
  vm_compute. reflexivity.
Defined.

(** X7: the status-blocked notice is never sent: a record with a banned status
    is skipped by the search, so the command cannot meet one. *)
Theorem verify_never_replies_status_blocked fuel cfg w content trace a :
  handleVerifyCommand fuel cfg w content = Some (trace, a) ->
  forall rn st, ~ In (Replied (StatusBlocked rn st)) trace.
Proof.
  intros H rn st Hin. apply handleVerifyCommand_cases in H.
  destruct H as [(_ & r & -> & Hr)|(history & member & _ & _ & H)].
  - destruct Hin as [E|[]]. inversion E; subst.
    destruct Hr as [Hr|[Hr|[Hr|Hr]]]; discriminate.
  - cbv zeta in H.
    destruct H as [(_ & _ & ->)|(mt & k & _ & H)].
    + simpl in Hin. destruct Hin as [E|[E|[]]]; discriminate.
    + destruct H as [(_ & _ & ->)|(_ & ev & -> & H)].
      * simpl in Hin.
        destruct Hin as [E|[E|[E|[E|[]]]]]; discriminate.
      * destruct H as [(_ & -> & _)|(_ & -> & _)]; simpl in Hin;
          destruct Hin as [E|[E|[E|[E|[E|[E|[]]]]]]]; discriminate.
Qed.

Lemma verify_never_replies_status_blocked_witness :
  exists trace a,
    handleVerifyCommand 6 cfg0 world_banned (str "!verify Hermit_Toad")
    = Some (trace, a)
    /\ forall rn st, ~ In (Replied (StatusBlocked rn st)) trace.
Proof.
  eexists. eexists. split; [vm_compute; reflexivity|].
  eapply (@verify_never_replies_status_blocked 6 cfg0 world_banned
            (str "!verify Hermit_Toad")).
  vm_compute. reflexivity.
Defined.

(** Scenario 4 through the command: the banned forward is passed over and
    the run ends with the notice that no recent modmail was found. *)
Example handleVerifyCommand_scenario4 :
  handleVerifyCommand 6 cfg0 world_banned (str "!verify Hermit_Toad")
  = Some ([Replied (Searching 12 (str "Hermit_Toad"));
           Replied (NoRecentModmail (str "Hermit_Toad") 12
                      (str "pikachucatcher88"))],
          {| roles := []; nickname := None |}).
Proof. vm_compute. reflexivity. Qed.

(* ================================================================== *)
(** ** Trimming text with white space around it *)

Lemma dropWhile_app_all p (a b : jsstring) :
  forallb p a = true -> dropWhile p (a ++ b) = dropWhile p b.
Proof.
  induction a as [|c a IH]; simpl; [reflexivity|].
  intros H. apply andb_true_iff in H as [Hc Ha]. rewrite Hc. apply IH, Ha.
Qed.

Lemma trimStart_ws ws s :
  forallb is_ws ws = true -> trimStart (ws ++ s) = trimStart s.
Proof. apply dropWhile_app_all. Qed.

Lemma trimEnd_ws s ws :
  forallb is_ws ws = true -> trimEnd (s ++ ws) = trimEnd s.
Proof.
  intros H. unfold trimEnd. rewrite rev_app_distr.
  rewrite dropWhile_app_all by (rewrite forallb_rev; exact H). reflexivity.
Qed.

(** A string without white space at either end is its own trim. *)
Lemma trim_fixed s :
  no_lead_ws s -> no_lead_ws (rev s) -> trim s = s.
Proof.
  intros H1 H2. unfold trim, trimStart, trimEnd.
  rewrite (@no_lead_ws_fixed _ H1), (@no_lead_ws_fixed _ H2).
  apply rev_involutive.
Qed.

Lemma trim_fixed_inv s :
  trim s = s -> no_lead_ws s /\ no_lead_ws (rev s).
Proof.
  intros H. split.
  - rewrite <- H. apply trim_no_lead_ws.
  - rewrite <- H. unfold trim, trimEnd. rewrite rev_involutive.
    apply dropWhile_no_lead_ws.
Qed.

(** White space around a trimmed text is all that [trim] removes. *)
Lemma trim_surrounded ws1 s ws2 :
  forallb is_ws ws1 = true -> forallb is_ws ws2 = true ->
  trim s = s ->
  trim (ws1 ++ s ++ ws2) = s.
Proof.
  intros H1 H2 Hs. destruct (@trim_fixed_inv _ Hs) as [Ha Hb].
  unfold trim. rewrite (@trimStart_ws ws1 _ H1).
  destruct s as [|c s].
  - simpl. unfold trimStart.
    assert (E : dropWhile is_ws ws2 = []) by (apply dropWhile_nil_iff, H2).
    rewrite E. reflexivity.
  - simpl in Ha. unfold trimStart. simpl. rewrite Ha.
    change (c :: s ++ ws2) with ((c :: s) ++ ws2).
    rewrite (@trimEnd_ws _ ws2 H2).
    unfold trimEnd. rewrite (@no_lead_ws_fixed _ Hb). apply rev_involutive.
Qed.

Lemma token_trimmed s : forallb not_ws s = true -> trim s = s.
Proof.
  intros H. destruct s as [|c s]; [reflexivity|].
  apply trim_token; [discriminate | exact H].
Qed.

(* ================================================================== *)
(** ** The verify command without an argument *)

(** X8: a command line of at most one word (the command alone, or nothing but
    white space) gets the usage notice: nothing is searched and the
    account is left as it was. *)
Theorem verify_without_argument_is_usage fuel cfg w (ws1 cmd ws2 : jsstring) :
  forallb is_ws ws1 = true ->
  forallb not_ws cmd = true ->
  forallb is_ws ws2 = true ->
  handleVerifyCommand fuel cfg w (ws1 ++ cmd ++ ws2)
  = Some ([Replied Usage], account w).
Proof.
  intros H1 Hc H2. unfold handleVerifyCommand.
  rewrite (@trim_surrounded ws1 cmd ws2 H1 H2 (@token_trimmed cmd Hc)).
  unfold split_ws. rewrite (@split_ws_token cmd false Hc). reflexivity.
Qed.

Lemma verify_without_argument_is_usage_witness :
  handleVerifyCommand 0 cfg0 world0 (str " " ++ str "!verify" ++ str "  ")
  = Some ([Replied Usage], account world0).
Proof.
  apply (@verify_without_argument_is_usage 0 cfg0 world0
           (str " ") (str "!verify") (str "  ")); reflexivity.
Defined.

(* ================================================================== *)
(** ** The parser and the bot's own notices *)

Lemma trim_ws_cons c s : is_ws c = true -> trim (c :: s) = trim s.
Proof. intros H. unfold trim, trimStart. simpl. rewrite H. reflexivity. Qed.

Lemma split_nonempty sep s : exists h r, split sep s = h :: r.
Proof.
  induction s as [|c s (h & r & IH)]; simpl; [eauto|].
  destruct (Ascii.eqb c sep); [eauto|]. rewrite IH. eauto.
Qed.

(** Leading white space, line breaks included, adds no line. *)
Lemma lines_of_ws ws s :
  forallb is_ws ws = true -> lines_of (ws ++ s) = lines_of s.
Proof.
  induction ws as [|c ws IH]; [reflexivity|].
  simpl. intros H. apply andb_true_iff in H as [Hc Hws].
  rewrite <- (IH Hws). unfold lines_of. simpl split.
  destruct (Ascii.eqb c LF); [reflexivity|].
  destruct (split_nonempty LF (ws ++ s)) as (h & r & E). rewrite E.
  simpl. rewrite (@trim_ws_cons c _ Hc). reflexivity.
Qed.

Lemma split_head sep p rest :
  forallb (not_char sep) p = true ->
  exists h r, split sep (p ++ rest) = (p ++ h) :: r.
Proof.
  induction p as [|c p IH]; simpl.
  - intros _. apply split_nonempty.
  - intros H. apply andb_true_iff in H as [Hc Hp].
    unfold not_char in Hc. apply negb_true_iff in Hc. rewrite Hc.
    destruct (IH Hp) as (h & r & E). rewrite E. eauto.
Qed.

Lemma trimEnd_keeps p z r :
  is_ws z = false -> exists t, trimEnd (p ++ z :: r) = p ++ z :: t.
Proof.
  intros Hz. induction p as [|c p (t & IH)].
  - simpl. rewrite trimEnd_cons. rewrite Hz.
    destruct (truthy (trimEnd r)); [exists (trimEnd r) | exists []]; reflexivity.
  - simpl. rewrite trimEnd_cons, IH.
    exists t. destruct (p ++ z :: t) eqn:E; [destruct p; discriminate|].
    reflexivity.
Qed.

(** Trimming keeps a prefix that has no white space at either end. *)
Lemma trim_keeps_prefix p r :
  p <> [] -> no_lead_ws p -> no_lead_ws (rev p) ->
  exists t, trim (p ++ r) = p ++ t.
Proof.
  intros Hne H1 H2.
  destruct (exists_last Hne) as (p0 & z & ->).
  rewrite rev_app_distr in H2. simpl in H2.
  unfold trim, trimStart.
  assert (E : dropWhile is_ws ((p0 ++ [z]) ++ r) = (p0 ++ [z]) ++ r).
  { apply no_lead_ws_fixed. destruct p0; simpl in *; assumption. }
  rewrite E, <- app_assoc. simpl.
  destruct (@trimEnd_keeps p0 z r H2) as [t Ht].
  exists t. rewrite Ht, <- app_assoc. reflexivity.
Qed.

(** X9: the parser passes over the bot's own notices: a text whose first
    written line begins with the success notice or with the
    member-not-found notice yields no record, whatever follows. *)
Theorem parse_rejects_bot_notices (ws rest : jsstring) :
  forallb is_ws ws = true ->
  parseModmailMessageFromFullText
    (ws ++ (check_mark ++ str " Linked Reddit") ++ rest) = None
  /\ parseModmailMessageFromFullText
       (ws ++ str "I couldn't find a member" ++ rest) = None.
Proof.
  intros Hws.
  assert (G : forall p,
    p <> [] -> no_lead_ws p -> no_lead_ws (rev p) ->
    forallb (not_char LF) p = true ->
    bot_echo p = true ->
    (forall t, bot_echo (p ++ t) = true) ->
    parseModmailMessageFromFullText (ws ++ p ++ rest) = None).
  { intros p Hne H1 H2 Hl Hb Hbt. unfold parseModmailMessageFromFullText.
    rewrite (@lines_of_ws ws _ Hws). unfold lines_of.
    destruct (@split_head LF p rest Hl) as (h & r & E). rewrite E.
    destruct (@trim_keeps_prefix p h Hne H1 H2) as (t & T).
    simpl map. rewrite T. simpl filter.
    destruct (p ++ t) eqn:Ept; [destruct p; [congruence | discriminate]|].
    simpl truthy. cbv iota. rewrite <- Ept, Hbt. reflexivity. }
  split.
  - apply G; [discriminate | vm_compute; reflexivity | vm_compute; reflexivity
             | reflexivity | reflexivity |].
    intros t. unfold bot_echo. rewrite startsWith_app. reflexivity.
  - apply G; [discriminate | vm_compute; reflexivity | vm_compute; reflexivity
             | reflexivity | reflexivity |].
    intros t. unfold bot_echo. rewrite startsWith_app. apply orb_true_r.
Qed.

Lemma parse_rejects_bot_notices_witness :
  parseModmailMessageFromFullText
    ([LF] ++ (check_mark ++ str " Linked Reddit")
     ++ str " **Hermit_Toad** to Discord **pikachucatcher88#0**")
  = None
  /\ parseModmailMessageFromFullText
       ([LF] ++ str "I couldn't find a member"
        ++ str " **Hermit_Toad** to Discord **pikachucatcher88#0**")
     = None.
Proof.
  apply (@parse_rejects_bot_notices [LF]
           (str " **Hermit_Toad** to Discord **pikachucatcher88#0**")).
  reflexivity.
Defined.

(* ================================================================== *)
(** ** The normalizers on the markup they are written for *)

Lemma lit_app A p (k : jsstring -> option A) s : lit p k (p ++ s) = k s.
Proof.
  unfold lit. rewrite startsWith_app.
  rewrite skipn_app, skipn_all, Nat.sub_diag. reflexivity.
Qed.

Lemma plus_cap_greedy A c w (k : jsstring -> jsstring -> option A) r x :
  w <> [] -> forallb c w = true ->
  match r with [] => True | a :: _ => c a = false end ->
  k w r = Some x ->
  plus_cap c k (w ++ r) = Some x.
Proof.
  intros Hne Hw Hr Hk. destruct w as [|a w]; [congruence|].
  simpl in *. apply andb_true_iff in Hw as [Ha Hw]. rewrite Ha.
  apply (@star_cap_greedy A c w (fun v r => k (a :: v) r) r x Hw Hr Hk).
Qed.

Lemma link_wrapper_match l u :
  l <> [] -> forallb (not_char "]"%char) l = true ->
  u <> [] -> forallb (not_char ")"%char) u = true ->
  link_wrapper (md_link l u) = Some l.
Proof.
  intros Hl Hl' Hu Hu'. unfold link_wrapper, md_link.
  rewrite lit_app.
  apply plus_cap_greedy; [assumption | assumption | reflexivity |].
  change (str "](" ++ u ++ str ")")
    with (str "]" ++ str "(" ++ u ++ str ")").
  rewrite !lit_app.
  apply plus_cap_greedy; [assumption | assumption | reflexivity |].
  reflexivity.
Qed.

Lemma link_at_match l u rest :
  l <> [] -> forallb (not_char "]"%char) l = true ->
  forallb (not_char ")"%char) u = true ->
  Legacy.link_at (md_link l u ++ rest) = Some (l, rest).
Proof.
  intros Hl Hl' Hu'. unfold Legacy.link_at, md_link.
  rewrite <- !app_assoc. rewrite lit_app.
  apply plus_cap_greedy; [assumption | assumption | reflexivity |].
  change (str "](" ++ u ++ str ")" ++ rest)
    with (str "]" ++ str "(" ++ u ++ str ")" ++ rest).
  rewrite !lit_app.
  apply star_cap_greedy; [assumption | reflexivity |].
  rewrite lit_app. reflexivity.
Qed.

Lemma last_is_star_snoc s c : last_is_star (s ++ [c]) = is_star c.
Proof.
  induction s as [|a s IH]; [reflexivity|].
  simpl app. destruct (s ++ [c]) eqn:E; [destruct s; discriminate|].
  exact IH.
Qed.

Lemma strip_trailing_stars_bold s :
  last_is_star s = false ->
  strip_trailing_stars (s ++ str "**") = s.
Proof.
  induction s as [|c t IH]; [reflexivity|]. intros L.
  change ((c :: t) ++ str "**") with (c :: (t ++ str "**")).
  rewrite strip_trailing_stars_step.
  assert (E : stars_to_end (c :: (t ++ str "**")) = false).
  { destruct t as [|d [|e t']]; reflexivity. }
  rewrite E. f_equal. apply IH.
  destruct t; [reflexivity | exact L].
Qed.

Lemma no_star_last s :
  forallb (not_char "*"%char) s = true -> last_is_star s = false.
Proof.
  induction s as [|c t IH]; [reflexivity|]. simpl forallb.
  intros H. apply andb_true_iff in H as [Hc Ht].
  destruct t as [|d t'].
  - simpl. unfold not_char in Hc. apply negb_true_iff in Hc. exact Hc.
  - apply IH, Ht.
Qed.

Section Replace.

Variable m : jsstring -> option (jsstring * jsstring).

Lemma replace_from_skip_app a : forall b,
  replace_from m (length a) (a ++ b) = replace_from m 0 b.
Proof.
  induction a as [|c a IH]; intros b; [reflexivity|].
  simpl app. simpl length. rewrite replace_from_cons. apply IH.
Qed.

(** Where the pattern matches a prefix, that prefix is replaced and the
    search goes on behind it. *)
Lemma replace_from_match p out rest :
  p <> [] -> m (p ++ rest) = Some (out, rest) ->
  replace_from m 0 (p ++ rest) = out ++ replace_from m 0 rest.
Proof.
  intros Hp Hm. destruct p as [|c p]; [congruence|].
  simpl app in *. rewrite replace_from_cons, Hm.
  f_equal. cbn [length]. rewrite length_app.
  replace (S (length p + length rest) - length rest - 1) with (length p)
    by lia.
  apply replace_from_skip_app.
Qed.

(** A stretch without the first character of the pattern is copied. *)
Lemma replace_from_copy x s : forall r,
  (forall t, m t <> None -> exists t', t = x :: t') ->
  forallb (not_char x) s = true ->
  replace_from m 0 (s ++ r) = s ++ replace_from m 0 r.
Proof.
  intros r Hm. induction s as [|a s IH]; [reflexivity|].
  simpl forallb. intros H. apply andb_true_iff in H as [Ha Hs].
  simpl app. rewrite replace_from_cons.
  destruct (m (a :: s ++ r)) as [[out rest]|] eqn:E.
  - destruct (Hm (a :: s ++ r)) as [t' Ht]; [congruence|].
    injection Ht as -> _. unfold not_char in Ha.
    rewrite Ascii.eqb_refl in Ha. discriminate.
  - f_equal. apply IH, Hs.
Qed.

End Replace.

Lemma erase_first x p t :
  Legacy.erase (String x p) t <> None -> exists t', t = x :: t'.
Proof. unfold Legacy.erase. apply lit_first. Qed.

Lemma link_at_first t :
  Legacy.link_at t <> None -> exists t', t = "["%char :: t'.
Proof. unfold Legacy.link_at. apply lit_first. Qed.

Lemma erase_match p rest :
  Legacy.erase p (str p ++ rest) = Some ([], rest).
Proof. unfold Legacy.erase. apply lit_app. Qed.

Lemma plain_name_parts n :
  plain_name n ->
  forallb (not_char "*"%char) n = true
  /\ forallb (not_char "`"%char) n = true
  /\ forallb (not_char "["%char) n = true.
Proof.
  intros (_ & _ & Hm & _). repeat split;
    apply marker_free_not_char; solve [reflexivity | assumption].
Qed.

(** Bold text loses its stars in the legacy normalizer. *)
Lemma erase_stars_bold n :
  forallb (not_char "*"%char) n = true ->
  replace_all (Legacy.erase "**") (bold n) = n.
Proof.
  intros Hs. unfold replace_all, bold.
  rewrite (@replace_from_match (Legacy.erase "**") (str "**") [] (n ++ str "**"));
    [|discriminate | apply erase_match].
  rewrite (@replace_from_copy (Legacy.erase "**") "*"%char n (str "**"));
    [|intros t; apply erase_first | assumption].
  rewrite <- (app_nil_r (str "**")).
  rewrite (@replace_from_match (Legacy.erase "**") (str "**") [] []);
    [|discriminate | apply erase_match].
  simpl. apply app_nil_r.
Qed.

Lemma stripMarkdown_plain n : plain_name n -> stripMarkdown n = n.
Proof.
  intros H. rewrite stripMarkdown_marker_free; apply H.
Qed.

Lemma stripFormatting_plain n : plain_name n -> Legacy.stripFormatting n = n.
Proof.
  intros H. rewrite stripFormatting_marker_free; apply H.
Qed.

Lemma stripMarkdown_tail n :
  plain_name n ->
  trim (strip_trailing_stars (strip_leading_stars n)) = n.
Proof.
  intros H. destruct (@plain_name_parts _ H) as (Hs & _ & _).
  rewrite strip_leading_stars_absent, strip_trailing_stars_absent
    by assumption.
  apply H.
Qed.

Lemma stripMarkdown_tail_bold n :
  plain_name n ->
  trim (strip_trailing_stars (strip_leading_stars (bold n))) = n.
Proof.
  intros H. destruct (@plain_name_parts _ H) as (Hs & _ & _).
  change (strip_leading_stars (bold n)) with (n ++ str "**").
  rewrite strip_trailing_stars_bold by (apply no_star_last, Hs).
  apply H.
Qed.

Lemma md_link_last l u : last_is_star (md_link l u) = false.
Proof.
  unfold md_link. rewrite !app_assoc.
  change (str ")") with [")"%char]. apply last_is_star_snoc.
Qed.

Lemma stripMarkdown_link l u :
  l <> [] -> forallb (not_char "]"%char) l = true -> link_target u ->
  stripMarkdown (md_link l u)
  = trim (strip_trailing_stars (strip_leading_stars l)).
Proof.
  intros Hl Hl' [Hu Hu']. unfold stripMarkdown.
  change (negb (truthy (md_link l u))) with false. cbv iota zeta.
  change (strip_leading_stars (md_link l u)) with (md_link l u).
  rewrite (@strip_trailing_stars_fixed _ (md_link_last l u)).
  rewrite link_wrapper_match by assumption. reflexivity.
Qed.

Lemma stripFormatting_link l u :
  l <> [] -> forallb (not_char "]"%char) l = true -> link_target u ->
  Legacy.stripFormatting (md_link l u)
  = trim (replace_all (Legacy.erase "`")
            (replace_all (Legacy.erase "**") l)).
Proof.
  intros Hl Hl' [Hu Hu']. unfold Legacy.stripFormatting.
  change (negb (truthy (md_link l u))) with false. cbv iota.
  unfold replace_all at 3. rewrite <- (app_nil_r (md_link l u)).
  rewrite (@replace_from_match Legacy.link_at (md_link l u) l []);
    [|discriminate | apply link_at_match; assumption].
  simpl replace_from. rewrite app_nil_r. reflexivity.
Qed.

Lemma no_star_bracket n :
  forallb (not_char "]"%char) n = true ->
  forallb (not_char "]"%char) (bold n) = true.
Proof.
  intros H. unfold bold. rewrite !forallb_app, H. reflexivity.
Qed.

(** X10: both normalizers give back the bare name from the markup the
    forwards carry: bold text, a link with the name as its label, a link
    with a bold label (the shape quoted in the source), and a bold link.
    On these shapes the two normalizers agree. *)
Theorem normalizers_unwrap_markup (n u : jsstring) :
  plain_name n -> link_target u ->
  (stripMarkdown (bold n) = n /\ Legacy.stripFormatting (bold n) = n)
  /\ (stripMarkdown (md_link n u) = n
      /\ Legacy.stripFormatting (md_link n u) = n)
  /\ (stripMarkdown (md_link (bold n) u) = n
      /\ Legacy.stripFormatting (md_link (bold n) u) = n)
  /\ (stripMarkdown (bold (md_link n u)) = n
      /\ Legacy.stripFormatting (bold (md_link n u)) = n).
Proof.
  intros Hn Hu.
  destruct (@plain_name_parts _ Hn) as (Hs & Hq & Hb).
  pose proof Hn as (Hne & Ht & _ & Hc).
  assert (Hq' : replace_all (Legacy.erase "`") n = n).
  { apply (@replace_all_absent "`"%char); [intros t; apply erase_first|assumption]. }
  assert (Hs' : replace_all (Legacy.erase "**") n = n).
  { apply (@replace_all_absent "*"%char); [intros t; apply erase_first|assumption]. }
  assert (Hbn : bold n <> []) by discriminate.
  split; [|split; [|split]]; split.
  - unfold stripMarkdown.
    change (negb (truthy (bold n))) with false. cbv iota zeta.
    change (strip_leading_stars (bold n)) with (n ++ str "**").
    rewrite strip_trailing_stars_bold by (apply no_star_last, Hs).
    rewrite link_wrapper_absent by assumption.
    apply stripMarkdown_tail, Hn.
  - unfold Legacy.stripFormatting.
    change (negb (truthy (bold n))) with false. cbv iota.
    rewrite (@replace_all_absent "["%char Legacy.link_at (bold n));
      [|apply link_at_first
       |unfold bold; rewrite !forallb_app, Hb; reflexivity].
    rewrite erase_stars_bold, Hq' by assumption. exact Ht.
  - rewrite stripMarkdown_link by assumption.
    apply stripMarkdown_tail, Hn.
  - rewrite stripFormatting_link by assumption.
    rewrite Hs', Hq'. exact Ht.
  - rewrite stripMarkdown_link;
      [|assumption | apply no_star_bracket, Hc | assumption].
    apply stripMarkdown_tail_bold, Hn.
  - rewrite stripFormatting_link;
      [|assumption | apply no_star_bracket, Hc | assumption].
    rewrite erase_stars_bold, Hq' by assumption. exact Ht.
  - unfold stripMarkdown.
    change (negb (truthy (bold (md_link n u)))) with false. cbv iota zeta.
    change (strip_leading_stars (bold (md_link n u)))
      with (md_link n u ++ str "**").
    rewrite (@strip_trailing_stars_bold _ (md_link_last n u)).
    destruct Hu as [Hu Hu'].
    rewrite link_wrapper_match by assumption.
    apply stripMarkdown_tail, Hn.
  - unfold Legacy.stripFormatting.
    change (negb (truthy (bold (md_link n u)))) with false. cbv iota.
    destruct Hu as [Hu Hu'].
    assert (E : replace_all Legacy.link_at (bold (md_link n u)) = bold n).
    { unfold replace_all, bold.
      rewrite (@replace_from_copy Legacy.link_at "["%char (str "**")
                 (md_link n u ++ str "**"));
        [|apply link_at_first | reflexivity].
      rewrite (@replace_from_match Legacy.link_at (md_link n u) n (str "**"));
        [|discriminate | apply link_at_match; assumption].
      reflexivity. }
    rewrite E, erase_stars_bold, Hq' by assumption. exact Ht.
Qed.

Lemma normalizers_unwrap_markup_witness :
  (stripMarkdown (bold (str "Hermit_Toad")) = str "Hermit_Toad"
   /\ Legacy.stripFormatting (bold (str "Hermit_Toad")) = str "Hermit_Toad")
  /\ (stripMarkdown (md_link (str "Hermit_Toad") (str "https://reddit.com/u/Hermit_Toad"))
       = str "Hermit_Toad"
      /\ Legacy.stripFormatting
           (md_link (str "Hermit_Toad") (str "https://reddit.com/u/Hermit_Toad"))
         = str "Hermit_Toad")
  /\ (stripMarkdown
        (md_link (bold (str "Hermit_Toad")) (str "https://reddit.com/u/Hermit_Toad"))
       = str "Hermit_Toad"
      /\ Legacy.stripFormatting
           (md_link (bold (str "Hermit_Toad")) (str "https://reddit.com/u/Hermit_Toad"))
         = str "Hermit_Toad")
  /\ (stripMarkdown
        (bold (md_link (str "Hermit_Toad") (str "https://reddit.com/u/Hermit_Toad")))
       = str "Hermit_Toad"
      /\ Legacy.stripFormatting
           (bold (md_link (str "Hermit_Toad") (str "https://reddit.com/u/Hermit_Toad")))
         = str "Hermit_Toad").
Proof.
  apply (@normalizers_unwrap_markup (str "Hermit_Toad")
           (str "https://reddit.com/u/Hermit_Toad")).
  - split; [discriminate | split; [reflexivity | split; reflexivity]].
  - split; [discriminate | reflexivity].
Defined.

Lemma stripMarkdown_length y : length (stripMarkdown y) <= length y.
Proof.
  unfold stripMarkdown. destruct (negb (truthy y)); [lia|]. cbv zeta.
  pose proof (proj1 (strip_leading_stars_length y)) as H1.
  pose proof (proj1 (strip_trailing_stars_length (strip_leading_stars y)))
    as H2.
  set (s1 := strip_trailing_stars (strip_leading_stars y)) in *.
  assert (H3 : length (match link_wrapper s1 with
                       | Some label => label | None => s1 end)
               <= length s1).
  { destruct (link_wrapper s1) eqn:E; [|lia].
    apply link_wrapper_shrinks in E. lia. }
  set (s2 := match link_wrapper s1 with
             | Some label => label | None => s1 end) in *.
  pose proof (proj1 (strip_leading_stars_length s2)) as H4.
  pose proof (proj1 (strip_trailing_stars_length (strip_leading_stars s2)))
    as H5.
  pose proof (trim_length (strip_trailing_stars (strip_leading_stars s2))).
  change (length s2 <= length s1) in H3. lia.
Qed.

(** X11: what every output of the normalizers has, whatever the input: it is
    never longer than the input and has no white space at either end;
    the legacy normalizer's output has no backquote left. *)
Theorem normalizer_output_invariants (x : jsstring) :
  (length (stripMarkdown x) <= length x
   /\ trim (stripMarkdown x) = stripMarkdown x)
  /\ (length (Legacy.stripFormatting x) <= length x
      /\ trim (Legacy.stripFormatting x) = Legacy.stripFormatting x
      /\ forallb (not_char "`"%char) (Legacy.stripFormatting x) = true).
Proof.
  split; [split | split; [|split]].
  - apply stripMarkdown_length.
  - apply stripMarkdown_trimmed.
  - apply stripFormatting_length.
  - apply stripFormatting_trimmed.
  - apply stripFormatting_no_backquote.
Qed.

(* ================================================================== *)
(** ** The parser on a well-formed forward *)

Section RegexGreedy.
Variable A : Type.

Lemma rstar_greedy c w (k : jsstring -> option A) r x :
  forallb c w = true ->
  match r with [] => True | a :: _ => c a = false end ->
  k r = Some x ->
  rstar c k (w ++ r) = Some x.
Proof.
  intros Hw Hr Hk. unfold rstar.
  apply (@star_cap_greedy A c w (fun _ r => k r) r x Hw Hr Hk).
Qed.

Lemma rplus_greedy c w (k : jsstring -> option A) r x :
  w <> [] -> forallb c w = true ->
  match r with [] => True | a :: _ => c a = false end ->
  k r = Some x ->
  rplus c k (w ++ r) = Some x.
Proof.
  intros Hne Hw Hr Hk. unfold rplus.
  apply (@plus_cap_greedy A c w (fun _ r => k r) r x Hne Hw Hr Hk).
Qed.

Lemma opt_group (g : (jsstring -> option A) -> jsstring -> option A) k s x :
  g k s = Some x -> opt g k s = Some x.
Proof. unfold opt. intros ->. reflexivity. Qed.

Lemma opt_skip (g : (jsstring -> option A) -> jsstring -> option A) k s :
  g k s = None -> opt g k s = k s.
Proof. unfold opt. intros ->. reflexivity. Qed.

End RegexGreedy.

Lemma plus_cap_all c w :
  w <> [] -> forallb c w = true ->
  plus_cap c (fun v _ => Some v) w = Some w.
Proof.
  intros Hne Hw. rewrite <- (app_nil_r w) at 1.
  apply plus_cap_greedy; [assumption | assumption | exact I | reflexivity].
Qed.

Lemma token_head d : token d -> no_lead_ws d.
Proof.
  intros [_ H]. destruct d as [|c d]; [exact I|].
  simpl in *. apply andb_true_iff in H as [Hc _].
  unfold not_ws in Hc. apply negb_true_iff in Hc. exact Hc.
Qed.

Lemma token_one_line d :
  forallb not_ws d = true -> forallb (not_char LF) d = true.
Proof.
  intros H. apply forallb_forall. intros c Hc.
  rewrite forallb_forall in H. specialize (H c Hc).
  unfold not_char. destruct (Ascii.eqb c LF) eqn:E; [|reflexivity].
  apply Ascii.eqb_eq in E. subst c. discriminate.
Qed.

Lemma token_field_value d : token d -> field_value d.
Proof.
  intros [Hne H]. split; [exact Hne|]. split.
  - apply trim_token; assumption.
  - apply token_one_line, H.
Qed.

(** A label in front of a field value gives a line that [lines_of]
    keeps as it is. *)
Lemma field_value_app p v :
  p <> [] -> no_lead_ws p -> forallb (not_char LF) p = true ->
  field_value v -> field_value (p ++ v).
Proof.
  intros Hp Hl Hn (Hv & Ht & Hvn). split; [|split].
  - destruct p; [congruence | discriminate].
  - destruct (@trim_fixed_inv _ Ht) as [_ Hr].
    apply trim_fixed.
    + destruct p; [congruence | exact Hl].
    + rewrite rev_app_distr.
      destruct (rev v) eqn:E.
      * apply (f_equal (@rev ascii)) in E. rewrite rev_involutive in E.
        simpl in E. congruence.
      * exact Hr.
  - rewrite forallb_app, Hn, Hvn. reflexivity.
Qed.

Lemma lines_of_three l1 l2 l3 :
  field_value l1 -> field_value l2 -> field_value l3 ->
  lines_of (l1 ++ LF :: l2 ++ LF :: l3) = [l1; l2; l3].
Proof.
  intros (N1 & T1 & L1) (N2 & T2 & L2) (N3 & T3 & L3).
  unfold lines_of.
  rewrite (@split_first_separator LF l1 _ L1).
  rewrite (@split_first_separator LF l2 _ L2).
  rewrite (@split_no_separator LF l3 L3).
  simpl map. rewrite T1, T2, T3.
  destruct l1; [congruence|]. destruct l2; [congruence|].
  destruct l3; [congruence|]. reflexivity.
Qed.

Lemma last_is_star_app p d :
  d <> [] -> last_is_star (p ++ d) = last_is_star d.
Proof.
  intros Hd. induction p as [|c p IH]; [reflexivity|].
  simpl app. destruct (p ++ d) eqn:E.
  - destruct p; simpl in E; congruence.
  - exact IH.
Qed.

(** A text without stars at its ends that is not a link wrapper goes
    through [stripMarkdown] trimmed and otherwise unchanged. *)
Lemma stripMarkdown_fixed s :
  first_is_star s = false -> last_is_star s = false ->
  link_wrapper s = None ->
  stripMarkdown s = trim s.
Proof.
  intros H1 H2 H3. unfold stripMarkdown.
  destruct s as [|c s]; [reflexivity|].
  change (negb (truthy (c :: s))) with false. cbv iota zeta.
  rewrite (@strip_leading_stars_fixed _ H1).
  rewrite (@strip_trailing_stars_fixed _ H2).
  rewrite H3.
  rewrite (@strip_leading_stars_fixed _ H1).
  rewrite (@strip_trailing_stars_fixed _ H2).
  reflexivity.
Qed.

(** The pattern of the body finds the name behind either phrase. *)
Lemma search_register_phrase d :
  token d -> search discord_id_at (register_phrase ++ d) = Some d.
Proof.
  intros Hd. pose proof (token_head Hd) as Hh. destruct Hd as [Hne Hd].
  change (register_phrase ++ d)
    with (str "Register " ++ str "Discord" ++ str " " ++ str "with"
          ++ str " " ++ str "Discord" ++ str " " ++ str "ID"
          ++ str ":" ++ str " " ++ d).
  rewrite search_skip.
  2:{ intros n Hn.
      do 9 (destruct n as [|n]; [reflexivity|]). simpl in Hn. lia. }
  apply search_here. unfold discord_id_at.
  rewrite lit_ci_matches by reflexivity.
  apply opt_group.
  apply rplus_greedy; [discriminate | reflexivity | reflexivity |].
  rewrite lit_ci_matches by reflexivity.
  apply rplus_greedy; [discriminate | reflexivity | reflexivity |].
  rewrite lit_ci_matches by reflexivity.
  apply rplus_greedy; [discriminate | reflexivity | reflexivity |].
  rewrite lit_ci_matches by reflexivity.
  rewrite lit_ci_matches by reflexivity.
  apply rstar_greedy; [reflexivity | destruct d; [exact I | exact Hh] |].
  apply plus_cap_all; assumption.
Qed.

Lemma search_verify_phrase d :
  token d -> search discord_id_at (verify_phrase ++ d) = Some d.
Proof.
  intros Hd. pose proof (token_head Hd) as Hh. destruct Hd as [Hne Hd].
  change (verify_phrase ++ d)
    with (str "Verify " ++ str "Discord" ++ str ":" ++ str " " ++ d).
  rewrite search_skip.
  2:{ intros n Hn.
      do 7 (destruct n as [|n]; [reflexivity|]). simpl in Hn. lia. }
  apply search_here. unfold discord_id_at.
  rewrite lit_ci_matches by reflexivity.
  rewrite opt_skip by reflexivity.
  rewrite lit_ci_matches by reflexivity.
  apply rstar_greedy; [reflexivity | destruct d; [exact I | exact Hh] |].
  apply plus_cap_all; assumption.
Qed.

Lemma parse_three_lines a body d st :
  field_value a -> marker_free a ->
  field_value body ->
  stripMarkdown body = body ->
  search discord_id_at body = Some d -> token d ->
  field_value st -> forallb (not_char ":"%char) st = true ->
  parseModmailMessageFromFullText (forward_text a body st)
  = Some {| redditName := a; discordName := d; status := st |}.
Proof.
  intros Ha Hma Hb Hsb Hs Hd Hst Hc.
  assert (E : forward_text a body st
              = (str "Author: " ++ a) ++ LF :: (str "Body: " ++ body)
                ++ LF :: (str "Status: " ++ st)).
  { unfold forward_text. rewrite <- !app_assoc. reflexivity. }
  unfold parseModmailMessageFromFullText. rewrite E.
  rewrite lines_of_three;
    try (apply field_value_app;
         [discriminate | reflexivity | reflexivity | assumption]).
  change (bot_echo (str "Author: " ++ a)) with false. cbv iota zeta.
  destruct Ha as (Na & Ta & La). destruct Hb as (Nb & Tb & Lb).
  destruct Hst as (Ns & Ts & Ls).
  destruct (@trim_fixed_inv _ Ta) as [Ha1 _].
  destruct (@trim_fixed_inv _ Tb) as [Hb1 _].
  match goal with
  | |- context [parse_discordName ?l] => set (lines := l)
  end.
  assert (R : parse_redditName lines = a).
  { unfold parse_redditName, lines.
    change (find (has_label "author:")
              [str "Author: " ++ a; str "Body: " ++ body;
               str "Status: " ++ st])
      with (Some (str "Author:" ++ str " " ++ a)).
    cbv beta iota zeta.
    rewrite (@strip_label_value "author:" (str "Author:") (str " ") a);
      [|reflexivity | reflexivity | exact Ha1].
    rewrite Ta, (stripMarkdown_marker_free Hma), Ta.
    destruct a; [congruence | reflexivity]. }
  assert (D : parse_discordName lines = Some d).
  { unfold parse_discordName, lines.
    change (find (has_label "body:")
              [str "Author: " ++ a; str "Body: " ++ body;
               str "Status: " ++ st])
      with (Some (str "Body:" ++ str " " ++ body)).
    cbv beta iota zeta.
    rewrite (@strip_label_value "body:" (str "Body:") (str " ") body);
      [|reflexivity | reflexivity | exact Hb1].
    rewrite Tb, Hsb, Hs.
    destruct Hd as [Nd Hd]. rewrite (trim_token Nd Hd). reflexivity. }
  assert (S3 : parse_status lines = st).
  { unfold lines. rewrite (@parse_status_single_separator _ (str "Status") (str " " ++ st));
      [|reflexivity | reflexivity | simpl; exact Hc].
    change (str " " ++ st) with (" "%char :: st).
    rewrite trim_ws_cons by reflexivity. rewrite Ts.
    unfold or_else. destruct st; [congruence | reflexivity]. }
  rewrite R, D, S3.
  destruct a; [congruence|]. destruct Hd as [Nd _].
  destruct d; [congruence|]. reflexivity.
Qed.

Lemma phrase_body_fixed phrase d :
  phrase = register_phrase \/ phrase = verify_phrase ->
  token d -> last_is_star d = false ->
  field_value (phrase ++ d)
  /\ stripMarkdown (phrase ++ d) = phrase ++ d
  /\ search discord_id_at (phrase ++ d) = Some d.
Proof.
  intros Hp Hd Hl.
  assert (F : field_value (phrase ++ d)).
  { apply field_value_app; [| | |apply token_field_value, Hd];
      destruct Hp as [-> | ->]; solve [discriminate | reflexivity]. }
  split; [exact F|]. split.
  - rewrite stripMarkdown_fixed; [apply F | | |].
    + destruct Hp as [-> | ->]; reflexivity.
    + rewrite last_is_star_app by apply Hd. exact Hl.
    + destruct Hp as [-> | ->]; reflexivity.
  - destruct Hp as [-> | ->];
      [apply search_register_phrase | apply search_verify_phrase]; exact Hd.
Qed.

(** X12: a forward with its three labelled lines, in either phrasing of the
    body, parses to exactly the record it carries, whether it arrives as
    the content of the message or as the fields of an embed: the author
    is any one-line value without markup characters, the Discord name any
    token that does not end in a star, the status any one-line value
    without a colon. *)
Theorem well_formed_forward_parses
    (i : N) (ts : Z) (phrase a d st : jsstring) :
  phrase = register_phrase \/ phrase = verify_phrase ->
  field_value a -> marker_free a ->
  token d -> last_is_star d = false ->
  field_value st -> forallb (not_char ":"%char) st = true ->
  parseModmailMessageFromFullText
    (buildFullTextFromMessage (plain i ts (forward_text a (phrase ++ d) st)))
  = Some {| redditName := a; discordName := d; status := st |}
  /\ parseModmailMessageFromFullText
       (buildFullTextFromMessage (forward_embed i ts a (phrase ++ d) st))
     = Some {| redditName := a; discordName := d; status := st |}.
Proof.
  intros Hp Ha Hma Hd Hl Hst Hc.
  destruct (phrase_body_fixed Hp Hd Hl) as (F & S1 & S2).
  assert (P := parse_three_lines Ha Hma F S1 S2 Hd Hst Hc).
  split.
  - assert (E : buildFullTextFromMessage
                  (plain i ts (forward_text a (phrase ++ d) st))
                = forward_text a (phrase ++ d) st).
    { unfold buildFullTextFromMessage, plain. cbn [content embeds].
      assert (T : trim (forward_text a (phrase ++ d) st) <> []).
      { apply trim_nonempty; [discriminate | reflexivity]. }
      destruct (trim (forward_text a (phrase ++ d) st)) eqn:Et;
        [congruence|].
      change (truthy (forward_text a (phrase ++ d) st)) with true.
      cbn [length Nat.ltb Nat.leb andb flat_map app join].
      reflexivity. }
    rewrite E. exact P.
  - assert (E : buildFullTextFromMessage
                  (forward_embed i ts a (phrase ++ d) st)
                = forward_text a (phrase ++ d) st).
    { unfold buildFullTextFromMessage, forward_embed, forward_text.
      cbn [content embeds description fields truthy andb flat_map map app
           name value join].
      rewrite <- !app_assoc. reflexivity. }
    rewrite E. exact P.
Qed.

Lemma well_formed_forward_parses_witness :
  parseModmailMessageFromFullText
    (buildFullTextFromMessage
       (plain 7 now0 (forward_text (str "Hermit_Toad")
                        (verify_phrase ++ str "pikachucatcher88")
                        (str "Active"))))
  = Some {| redditName := str "Hermit_Toad";
            discordName := str "pikachucatcher88";
            status := str "Active" |}
  /\ parseModmailMessageFromFullText
       (buildFullTextFromMessage
          (forward_embed 7 now0 (str "Hermit_Toad")
             (verify_phrase ++ str "pikachucatcher88") (str "Active")))
     = Some {| redditName := str "Hermit_Toad";
               discordName := str "pikachucatcher88";
               status := str "Active" |}.
Proof.
  apply (@well_formed_forward_parses 7%N now0 verify_phrase
           (str "Hermit_Toad") (str "pikachucatcher88") (str "Active")).
  - right; reflexivity.
  - split; [discriminate | split; reflexivity].
  - reflexivity.
  - split; [discriminate | reflexivity].
  - reflexivity.
  - split; [discriminate | split; reflexivity].
  - reflexivity.
Defined.

(* ================================================================== *)
(** ** The lookup command reads back what the verify command wrote *)

Lemma includes_here p s : startsWith p s = true -> includes p s = true.
Proof. intros H. destruct s; simpl; rewrite H; reflexivity. Qed.

Lemma includes_app p a b : includes p (a ++ p ++ b) = true.
Proof.
  induction a as [|c a IH].
  - simpl app. apply includes_here, startsWith_app.
  - simpl. rewrite IH. apply orb_true_r.
Qed.

Lemma nickname_shape rn un :
  rn ++ str " | " ++ un = (rn ++ str " ") ++ "|"%char :: str " " ++ un.
Proof. rewrite <- app_assoc. reflexivity. Qed.

(** The lookup on a nickname of the form the verify command writes. *)
Lemma lookup_nickname (rn un : jsstring) (mentioned self : option jsstring) :
  rn <> [] -> trim rn = rn ->
  forallb (not_char "|"%char) rn = true ->
  startsWith (str "u/") (toLowerCase rn) = false ->
  match mentioned with Some m => Some m | None => self end
  = Some (rn ++ str " | " ++ un) ->
  Commands.handleRedditCommand mentioned self
  = Commands.ProfileLink rn (rn ++ str " | " ++ un)
      (str "https://www.reddit.com/u/" ++ rn).
Proof.
  intros Hne Ht Hb Hu Htarget. unfold Commands.handleRedditCommand.
  cbv zeta.
  replace (match mentioned with Some m => Some m | None => self end)
    with (Some (rn ++ str " | " ++ un)).
  assert (T : truthy (rn ++ str " | " ++ un) = true)
    by (destruct rn; [congruence | reflexivity]).
  assert (I : includes (str "|") (rn ++ str " | " ++ un) = true).
  { rewrite nickname_shape. apply (includes_app (str "|")). }
  rewrite T, I. cbn [negb orb]. cbv zeta.
  assert (S1 : hd [] (split "|"%char (rn ++ str " | " ++ un))
               = rn ++ str " ").
  { rewrite nickname_shape, split_first_separator; [reflexivity|].
    rewrite forallb_app, Hb. reflexivity. }
  rewrite S1.
  assert (S2 : trim (rn ++ str " ") = rn).
  { apply (@trim_surrounded [] rn (str " ")); [reflexivity | reflexivity | exact Ht]. }
  rewrite S2, Hu. reflexivity.
Qed.

Lemma lower_not_bar c : not_char "|"%char (lower c) = not_char "|"%char c.
Proof. destruct c as [[] [] [] [] [] [] [] []]; vm_compute; reflexivity. Qed.

Lemma forallb_lower_bar s :
  forallb (not_char "|"%char) (toLowerCase s)
  = forallb (not_char "|"%char) s.
Proof.
  unfold toLowerCase. induction s as [|c s IH]; [reflexivity|].
  simpl. rewrite lower_not_bar, IH. reflexivity.
Qed.

Lemma parse_redditName_trimmed lines :
  trim (parse_redditName lines) = parse_redditName lines.
Proof.
  unfold parse_redditName.
  destruct (find (has_label "author:") lines) as [l|];
    [|apply stripMarkdown_trimmed].
  cbv zeta.
  destruct (truthy (stripMarkdown (trim (strip_label "author:" l))));
    apply stripMarkdown_trimmed.
Qed.

(** What the name of a match inherits from the name that was typed. *)
Lemma matched_name_shape fuel now channel input member hours mt k :
  findMatchingModmail fuel now channel input member hours
  = Some (Some mt, k) ->
  redditName (parsed mt) <> []
  /\ trim (redditName (parsed mt)) = redditName (parsed mt)
  /\ toLowerCase (redditName (parsed mt)) = normalize input.
Proof.
  intros H. apply found_match_checked in H as (_ & HR & _ & _ & HP).
  apply parse_some_inv in HP as (_ & _ & _ & _ & R & _ & _ & Hne & _).
  assert (T : trim (redditName (parsed mt)) = redditName (parsed mt))
    by (rewrite R; apply parse_redditName_trimmed).
  split; [exact Hne|]. split; [exact T|].
  unfold ci_equal, normalize in HR. rewrite T in HR. exact HR.
Qed.

Lemma verified_reply_lookup
    fuel cfg w content trace a rn un url dn
    (mentioned self : option jsstring) :
  handleVerifyCommand fuel cfg w content = Some (trace, a) ->
  In (Replied (Verified rn un url dn)) trace ->
  setNickname_succeeds w = true ->
  forallb (not_char "|"%char) (verify_argument content) = true ->
  startsWith (str "u/") (normalize (verify_argument content)) = false ->
  exists nick,
    nickname a = Some nick
    /\ In (SetNickname nick) trace
    /\ (match mentioned with Some m => Some m | None => self end = Some nick ->
        Commands.handleRedditCommand mentioned self
        = Commands.ProfileLink rn nick url).
Proof.
  intros H Hin Hset Hbar Hu. apply handleVerifyCommand_cases in H.
  destruct H as [(_ & r & -> & Hr)|(history & member & _ & _ & H)].
  { destruct Hin as [E|[]]. inversion E; subst.
    destruct Hr as [Hr|[Hr|[Hr|Hr]]]; discriminate. }
  cbv zeta in H.
  destruct H as [(_ & _ & ->)|(mt & k & F & H)].
  { simpl in Hin. destruct Hin as [E|[E|[]]]; discriminate. }
  destruct H as [(_ & _ & ->)|(_ & ev & -> & H)].
  { simpl in Hin. destruct Hin as [E|[E|[E|[E|[]]]]]; discriminate. }
  destruct H as [(_ & -> & ->)|(Hf & _ & _)]; [|congruence].
  simpl in Hin.
  destruct Hin as [E|[E|[E|[E|[E|[E|[]]]]]]]; try discriminate.
  inversion E; subst rn un url dn. clear E.
  destruct (@matched_name_shape _ _ _ _ _ _ _ _ F) as (Hne & Ht & Hl).
  exists (redditName (parsed mt) ++ str " | " ++ username member).
  split; [reflexivity|]. split; [simpl; auto|].
  intros Htarget. apply lookup_nickname; try assumption.
  - rewrite <- forallb_lower_bar, Hl. unfold normalize.
    rewrite forallb_lower_bar. apply forallb_trim, Hbar.
  - rewrite Hl. exact Hu.
Qed.

(** X13: the two commands compose: after a run of the verify command that
    announced a verification and set the nickname, for a typed name
    without a vertical bar that does not begin with a further [u/], the
    lookup command on the account (mentioned, or looked up by the account
    itself) reads the nickname back to the same Reddit name and the same
    profile address that the verify command announced. *)
Theorem lookup_reads_back_verified_name
    fuel cfg w content trace a rn un url dn :
  handleVerifyCommand fuel cfg w content = Some (trace, a) ->
  In (Replied (Verified rn un url dn)) trace ->
  setNickname_succeeds w = true ->
  forallb (not_char "|"%char) (verify_argument content) = true ->
  startsWith (str "u/") (normalize (verify_argument content)) = false ->
  exists nick,
    nickname a = Some nick
    /\ In (SetNickname nick) trace
    /\ (forall self,
          Commands.handleRedditCommand (Some nick) self
          = Commands.ProfileLink rn nick url)
    /\ Commands.handleRedditCommand None (Some nick)
       = Commands.ProfileLink rn nick url.
Proof.
  intros H Hin Hset Hbar Hu.
  destruct (@verified_reply_lookup fuel cfg w content trace a rn un url dn
              None None H Hin Hset Hbar Hu) as (nick & Hn & Hs & _).
  exists nick. split; [exact Hn|]. split; [exact Hs|]. split.
  - intros self.
    destruct (@verified_reply_lookup fuel cfg w content trace a rn un url dn
                (Some nick) self H Hin Hset Hbar Hu) as (nick' & Hn' & _ & L).
    assert (nick' = nick) by congruence. subst nick'. apply L. reflexivity.
  - destruct (@verified_reply_lookup fuel cfg w content trace a rn un url dn
                None (Some nick) H Hin Hset Hbar Hu) as (nick' & Hn' & _ & L).
    assert (nick' = nick) by congruence. subst nick'. apply L. reflexivity.
Qed.

Lemma lookup_reads_back_verified_name_witness :
  exists nick,
    nickname (set_nick (str "Hermit_Toad | pikachucatcher88")
                (add_role 777 (account world0))) = Some nick
    /\ In (SetNickname nick)
         [Replied (Searching 12 (str "Hermit_Toad")); RolesAdd 777;
          LogRoleAdded;
          SetNickname (str "Hermit_Toad | pikachucatcher88"); LogNicknameSet;
          Replied (Verified (str "Hermit_Toad") (str "pikachucatcher88")
                     (str "https://www.reddit.com/u/Hermit_Toad")
                     (str "PikachuCatcher88"))]
    /\ (forall self,
          Commands.handleRedditCommand (Some nick) self
          = Commands.ProfileLink (str "Hermit_Toad") nick
              (str "https://www.reddit.com/u/Hermit_Toad"))
    /\ Commands.handleRedditCommand None (Some nick)
       = Commands.ProfileLink (str "Hermit_Toad") nick
           (str "https://www.reddit.com/u/Hermit_Toad").
Proof.
  apply (@lookup_reads_back_verified_name 6 cfg0 world0
           (str "!verify Hermit_Toad")
           _ _ (str "Hermit_Toad") (str "pikachucatcher88")
           (str "https://www.reddit.com/u/Hermit_Toad")
           (str "PikachuCatcher88")).
  - vm_compute. reflexivity.
  - simpl. do 5 right. left. reflexivity.
  - reflexivity.
  - reflexivity.
  - reflexivity.
Defined.

(** Without a nickname of that form the lookup command gives no link: no
    member, an empty display name or one without a vertical bar. *)
Lemma lookup_without_bar (mentioned self : option jsstring) :
  (forall nick,
     match mentioned with Some m => Some m | None => self end = Some nick ->
     forallb (not_char "|"%char) nick = true ->
     Commands.handleRedditCommand mentioned self = Commands.NotLinked)
  /\ (mentioned = None -> self = None ->
      Commands.handleRedditCommand mentioned self = Commands.CouldNotResolve).
Proof.
  split.
  - intros nick Ht Hb. unfold Commands.handleRedditCommand. cbv zeta.
    replace (match mentioned with Some m => Some m | None => self end)
      with (Some nick).
    cbv beta iota.
    assert (I : includes (str "|") nick = false).
    { clear Ht. induction nick as [|c nick IH]; [reflexivity|].
      simpl in Hb. apply andb_true_iff in Hb as [Hc Hn].
      change (includes (str "|") (c :: nick))
        with ((Ascii.eqb "|"%char c && true) || includes (str "|") nick).
      rewrite (IH Hn). unfold not_char in Hc.
      apply negb_true_iff in Hc. rewrite Ascii.eqb_sym, Hc.
      reflexivity. }
    rewrite I. destruct (truthy nick); reflexivity.
  - intros -> ->. reflexivity.
Qed.

(* ================================================================== *)
(** ** From a forward in the channel to a verified account *)

Lemma buildFullText_forward_embed i ts a body st :
  buildFullTextFromMessage (forward_embed i ts a body st)
  = forward_text a body st.
Proof.
  unfold buildFullTextFromMessage, forward_embed, forward_text.
  cbn [content embeds description fields truthy andb flat_map map app
       name value join].
  rewrite <- !app_assoc. reflexivity.
Qed.

Lemma well_formed_parses i ts phrase a d st :
  well_formed phrase a d st ->
  parseModmailMessageFromFullText
    (buildFullTextFromMessage (forward_embed i ts a (phrase ++ d) st))
  = Some {| redditName := a; discordName := d; status := st |}.
Proof.
  intros (Hp & Ha & Hma & Hd & Hl & Hst & Hc).
  destruct (phrase_body_fixed Hp Hd Hl) as (F & S1 & S2).
  rewrite buildFullText_forward_embed.
  apply (parse_three_lines Ha Hma F S1 S2 Hd Hst Hc).
Qed.

Lemma command_line_argument cmd sep arg :
  command_line cmd sep arg ->
  startsWith (str "u/") (toLowerCase arg) = false ->
  2 <= length (split_ws (trim (cmd ++ sep ++ arg)))
  /\ verify_argument (cmd ++ sep ++ arg) = arg.
Proof.
  intros ([Hc1 Hc2] & Hs1 & Hs2 & [Ha1 Ha2]) Hu.
  assert (E := @verify_args cmd sep arg Hc1 Hc2 Hs1 Hs2 Ha1 Ha2).
  unfold verify_argument. rewrite E. split; [simpl; lia|].
  simpl nth. unfold strip_u_prefix. rewrite Hu. reflexivity.
Qed.

(** X14: the happy path, end to end: when the history, newest first, holds
    inside the search window a well-formed forward whose author is the
    name typed and whose Discord name is the user name of the account
    (both up to case), with a status that does not say banned, and the
    role can be granted, then the command announces the verification of
    that Reddit name and the account holds the role afterwards, whether
    or not the nickname could be set. *)
Theorem verify_succeeds_on_well_formed_forward
    cfg w channel member cmd sep arg i ts phrase a d st j :
  guild_resolves w = true ->
  modmail_channel w = Some (true, channel) ->
  member_of w = Some member ->
  roles_add_succeeds w = true ->
  newest_first channel ->
  command_line cmd sep arg ->
  startsWith (str "u/") (toLowerCase arg) = false ->
  well_formed phrase a d st ->
  ci_equal a arg ->
  ci_equal d (username member) ->
  includes (str "banned") (toLowerCase st) = false ->
  In (forward_embed i ts a (phrase ++ d) st)
     (Spec.window channel (cutoff_of (clock w) (LOOKBACK_HOURS cfg))
        MAX_SCANNED) ->
  exists trace acct rn dn,
    handleVerifyCommand (6 + j) cfg w (cmd ++ sep ++ arg)
    = Some (trace, acct)
    /\ In (Replied (Verified rn (username member)
                      (str "https://www.reddit.com/u/" ++ rn) dn)) trace
    /\ ci_equal rn arg
    /\ existsb (N.eqb (ROLE_ID cfg)) (roles acct) = true.
Proof.
  intros Hg Hch Hm Hr Hs Hcl Hu Hwf Ha Hd Hb Hin.
  destruct (command_line_argument Hcl Hu) as [Hargs Harg].
  rewrite (@handleVerifyCommand_search (6 + j) cfg w (cmd ++ sep ++ arg)
             channel member Hargs Hg Hch Hm).
  rewrite Harg. cbv zeta.
  pose proof (@well_formed_parses i ts phrase a d st Hwf) as P.
  assert (Hpass : Spec.passes
                    (query_of (clock w) arg member (LOOKBACK_HOURS cfg))
                    {| redditName := a; discordName := d; status := st |}
                  = true).
  { unfold Spec.passes, Spec.banned, Spec.ci_eqb, query_of, candidate_names.
    cbn [status redditName discordName Spec.externalIdentityInput
         Spec.candidateLocalNames existsb].
    rewrite Hb. unfold ci_equal in Ha, Hd. rewrite Ha, Hd.
    assert (E : forall x, string_eqb x x = true)
      by (intros x; apply string_eqb_eq; reflexivity).
    rewrite !E. reflexivity. }
  destruct (@forward_in_window_found (clock w) channel arg member
              (LOOKBACK_HOURS cfg) _ _ Hs Hin P Hpass)
    as (mt & k & Hfind & _ & _ & _).
  rewrite (Hfind j).
  pose proof (@found_match_checked _ _ _ _ _ _ _ _ (Hfind j))
    as (Hnb & Hrn & _).
  rewrite (is_banned_false _ Hnb), Hr. cbn [negb].
  eexists. eexists. exists (redditName (parsed mt)), (discordName (parsed mt)).
  split; [reflexivity|]. split; [|split; [exact Hrn|]].
  - apply in_or_app. right. apply in_or_app. right. left. reflexivity.
  - destruct (setNickname_succeeds w); [unfold set_nick; cbn [roles]|];
      apply add_role_holds.
Qed.

Lemma verify_succeeds_on_well_formed_forward_witness :
  exists trace acct rn dn,
    handleVerifyCommand (6 + 0) cfg0
      {| guild_resolves := true;
         modmail_channel :=
           Some (true,
                 [forward_embed 70 (now0 - hour) (str "Hermit_Toad")
                    (verify_phrase ++ str "PikachuCatcher88") (str "Active")]);
         member_of := Some toad;
         account := {| roles := []; nickname := None |};
         clock := now0;
         roles_add_succeeds := true;
         setNickname_succeeds := false |}
      (str "!verify" ++ str " " ++ str "hermit_toad")
    = Some (trace, acct)
    /\ In (Replied (Verified rn (username toad)
                      (str "https://www.reddit.com/u/" ++ rn) dn)) trace
    /\ ci_equal rn (str "hermit_toad")
    /\ existsb (N.eqb (ROLE_ID cfg0)) (roles acct) = true.
Proof.
  apply (@verify_succeeds_on_well_formed_forward cfg0
           {| guild_resolves := true;
              modmail_channel :=
                Some (true,
                      [forward_embed 70 (now0 - hour) (str "Hermit_Toad")
                         (verify_phrase ++ str "PikachuCatcher88")
                         (str "Active")]);
              member_of := Some toad;
              account := {| roles := []; nickname := None |};
              clock := now0;
              roles_add_succeeds := true;
              setNickname_succeeds := false |}
           [forward_embed 70 (now0 - hour) (str "Hermit_Toad")
              (verify_phrase ++ str "PikachuCatcher88") (str "Active")]
           toad (str "!verify") (str " ") (str "hermit_toad")
           70%N (now0 - hour)%Z verify_phrase
           (str "Hermit_Toad") (str "PikachuCatcher88") (str "Active") 0).
  - reflexivity.
  - reflexivity.
  - reflexivity.
  - reflexivity.
  - unfold newest_first. constructor; constructor.
  - split; [split; [discriminate | reflexivity]
           | split; [discriminate
                    | split; [reflexivity | split; [discriminate | reflexivity]]]].
  - reflexivity.
  - split; [right; reflexivity|].
    split; [split; [discriminate | split; reflexivity]|].
    split; [reflexivity|].
    split; [split; [discriminate | reflexivity]|].
    split; [reflexivity|].
    split; [split; [discriminate | split; reflexivity] | reflexivity].
  - reflexivity.
  - reflexivity.
  - reflexivity.
  - vm_compute. left. reflexivity.
Defined.

(* ================================================================== *)
(** ** The push-driven script on a well-formed forward *)

Section Blocked.
Variable A : Type.

(** A pattern that ends in [q] does not begin inside a stretch without
    [q] that is followed by a character foreign to the pattern, or by the
    end of the text. *)
Lemma startsWith_blocked q c rest : forall p0 x,
  forallb (not_char q) x = true ->
  forallb (not_char c) (p0 ++ [q]) = true ->
  startsWith (p0 ++ [q]) (x ++ c :: rest) = false.
Proof.
  assert (Hsym : forall u v, not_char u v = true -> Ascii.eqb u v = false).
  { intros u v H. unfold not_char in H. apply negb_true_iff in H.
    rewrite Ascii.eqb_sym. exact H. }
  induction p0 as [|p p0 IH]; intros x Hx Hp.
  - destruct x as [|h x]; simpl in *.
    + apply andb_true_iff in Hp as [Hq _].
      unfold not_char in Hq. apply negb_true_iff in Hq. rewrite Hq.
      reflexivity.
    + apply andb_true_iff in Hx as [Hh _]. rewrite (Hsym _ _ Hh).
      reflexivity.
  - simpl in Hp. apply andb_true_iff in Hp as [Hpc Hp].
    destruct x as [|h x]; simpl in *.
    + unfold not_char in Hpc. apply negb_true_iff in Hpc. rewrite Hpc.
      reflexivity.
    + apply andb_true_iff in Hx as [_ Hx].
      rewrite (IH x Hx Hp). apply andb_false_r.
Qed.

Lemma startsWith_blocked_end q : forall p0 x,
  forallb (not_char q) x = true ->
  startsWith (p0 ++ [q]) x = false.
Proof.
  induction p0 as [|p p0 IH]; intros x Hx.
  - destruct x as [|h x]; simpl in *; [reflexivity|].
    apply andb_true_iff in Hx as [Hh _].
    unfold not_char in Hh. apply negb_true_iff in Hh.
    rewrite Ascii.eqb_sym, Hh. reflexivity.
  - destruct x as [|h x]; simpl in *; [reflexivity|].
    apply andb_true_iff in Hx as [_ Hx].
    rewrite (IH x Hx). apply andb_false_r.
Qed.

Lemma search_miss (m : jsstring -> option A) c s :
  m (c :: s) = None -> search m (c :: s) = search m s.
Proof. intros H. simpl. rewrite H. reflexivity. Qed.

Lemma search_nil (m : jsstring -> option A) :
  m [] = None -> search m [] = None.
Proof. intros H. simpl. rewrite H. reflexivity. Qed.

Lemma search_blocked p p0 q (k : jsstring -> option A) x c rest :
  toLowerCase p = p0 ++ [q] ->
  forallb (not_char q) (toLowerCase x) = true ->
  forallb (not_char (lower c)) (p0 ++ [q]) = true ->
  search (lit_ci p k) (x ++ c :: rest) = search (lit_ci p k) rest.
Proof.
  intros Hp Hx Hc.
  assert (N : forall y, forallb (not_char q) (toLowerCase y) = true ->
                lit_ci p k (y ++ c :: rest) = None).
  { intros y Hy. unfold lit_ci. rewrite Hp. unfold toLowerCase at 1.
    rewrite map_app. cbn [map].
    rewrite (@startsWith_blocked q (lower c) (map lower rest) p0
               (map lower y) Hy Hc).
    reflexivity. }
  induction x as [|h x IH].
  - apply search_miss. exact (N [] eq_refl).
  - change ((h :: x) ++ c :: rest) with (h :: (x ++ c :: rest)).
    rewrite search_miss by exact (N (h :: x) Hx).
    simpl in Hx. apply andb_true_iff in Hx as [_ Hx]. apply IH, Hx.
Qed.

Lemma search_blocked_end p p0 q (k : jsstring -> option A) x :
  toLowerCase p = p0 ++ [q] ->
  forallb (not_char q) (toLowerCase x) = true ->
  search (lit_ci p k) x = None.
Proof.
  intros Hp Hx.
  assert (N : forall y, forallb (not_char q) (toLowerCase y) = true ->
                lit_ci p k y = None).
  { intros y Hy. unfold lit_ci. rewrite Hp.
    rewrite (@startsWith_blocked_end q p0 (toLowerCase y) Hy).
    reflexivity. }
  induction x as [|h x IH].
  - apply search_nil. exact (N [] eq_refl).
  - rewrite search_miss by exact (N (h :: x) Hx).
    simpl in Hx. apply andb_true_iff in Hx as [_ Hx]. apply IH, Hx.
Qed.

End Blocked.

Lemma lower_not_colon c : not_char ":"%char (lower c) = not_char ":"%char c.
Proof. destruct c as [[] [] [] [] [] [] [] []]; vm_compute; reflexivity. Qed.

Lemma colon_free_lower s :
  colon_free s -> forallb (not_char ":"%char) (toLowerCase s) = true.
Proof.
  unfold colon_free, toLowerCase. induction s as [|c s IH]; [reflexivity|].
  simpl. rewrite lower_not_colon. intros H.
  apply andb_true_iff in H as [-> H]. apply IH, H.
Qed.

Lemma trim_app_fixed p v :
  p <> [] -> no_lead_ws p -> v <> [] -> trim v = v ->
  trim (p ++ v) = p ++ v.
Proof.
  intros Hp Hl Hv Ht. destruct (@trim_fixed_inv _ Ht) as [_ Hr].
  apply trim_fixed.
  - destruct p; [congruence | exact Hl].
  - rewrite rev_app_distr. destruct (rev v) eqn:E.
    + apply (f_equal (@rev ascii)) in E. rewrite rev_involutive in E.
      simpl in E. congruence.
    + exact Hr.
Qed.

Lemma forward_text_shape phrase a d st :
  forward_text a (phrase ++ d) st
  = str "Author: " ++ a ++ LF :: (str "Body: " ++ phrase)
    ++ d ++ LF :: str "Status: " ++ st.
Proof. unfold forward_text. rewrite <- !app_assoc. reflexivity. Qed.

Lemma token_not_eol d : forallb not_ws d = true -> forallb not_eol d = true.
Proof.
  intros H. apply forallb_forall. intros c Hc.
  rewrite forallb_forall in H. specialize (H c Hc).
  unfold not_ws in H. apply negb_true_iff in H.
  unfold not_eol. apply negb_true_iff.
  destruct (Ascii.eqb c LF) eqn:E1.
  - apply Ascii.eqb_eq in E1. subst c. discriminate.
  - destruct (Ascii.eqb c CR) eqn:E2; [|reflexivity].
    apply Ascii.eqb_eq in E2. subst c. discriminate.
Qed.

(** The stripped text of a plain forward is the forward itself. *)
Lemma stripFormatting_plain_forward phrase a d st :
  plain_forward phrase a d st ->
  Legacy.stripFormatting (forward_text a (phrase ++ d) st)
  = forward_text a (phrase ++ d) st.
Proof.
  intros ((Hp & Ha & Hma & Hd & _ & Hst & _) & _ & _ & Hmd & _ & _ & Hms).
  rewrite stripFormatting_marker_free.
  - unfold forward_text.
    replace (str "Author: " ++ a ++ LF :: str "Body: " ++ (phrase ++ d)
             ++ LF :: str "Status: " ++ st)
      with ((str "Author: " ++ a ++ LF :: str "Body: " ++ (phrase ++ d)
             ++ LF :: str "Status: ") ++ st)
      by (rewrite <- !app_assoc; simpl; rewrite <- !app_assoc; reflexivity).
    apply trim_app_fixed; [discriminate | reflexivity | apply Hst | apply Hst].
  - unfold marker_free in *. unfold forward_text.
    repeat (rewrite !forallb_app || cbn [forallb]).
    rewrite Hma, Hmd, Hms.
    destruct Hp as [-> | ->]; reflexivity.
Qed.

Section LegacyReads.

Variables phrase a d st : jsstring.
Hypothesis Hplain : plain_forward phrase a d st.

Lemma legacy_no_participant :
  Legacy.labelled "Participant:" (forward_text a (phrase ++ d) st) = None.
Proof.
  destruct Hplain
    as ((Hp & Ha & Hma & Hd & _ & Hst & Hcs) & _ & Hca & Hmd & Hcd & _ & _).
  rewrite forward_text_shape. unfold Legacy.labelled.
  rewrite search_skip.
  2:{ intros n Hn. do 8 (destruct n as [|n]; [reflexivity|]).
      simpl in Hn. lia. }
  rewrite (@search_blocked _ (str "Participant:") (str "participant")
             ":"%char); [|reflexivity | apply colon_free_lower, Hca
                          | reflexivity].
  rewrite search_skip.
  2:{ intros n Hn. destruct Hp as [-> | ->].
      - do 40 (destruct n as [|n]; [reflexivity|]). simpl in Hn. lia.
      - do 22 (destruct n as [|n]; [reflexivity|]). simpl in Hn. lia. }
  rewrite (@search_blocked _ (str "Participant:") (str "participant")
             ":"%char); [|reflexivity | apply colon_free_lower, Hcd
                          | reflexivity].
  rewrite search_skip.
  2:{ intros n Hn. do 8 (destruct n as [|n]; [reflexivity|]).
      simpl in Hn. lia. }
  apply (@search_blocked_end _ (str "Participant:") (str "participant")
           ":"%char); [reflexivity | apply colon_free_lower, Hcs].
Qed.

Lemma legacy_author :
  Legacy.labelled "Author:" (forward_text a (phrase ++ d) st) = Some a.
Proof.
  destruct Hplain
    as ((Hp & (Na & Ta & _) & _) & Hea & _).
  destruct (@trim_fixed_inv _ Ta) as [Ha1 _].
  unfold forward_text.
  apply (@labelled_leftmost "Author:" [] (str "Author:") (str " ") a
           (LF :: str "Body: " ++ (phrase ++ d) ++ LF :: str "Status: " ++ st)).
  - intros n Hn. simpl in Hn. lia.
  - reflexivity.
  - reflexivity.
  - exact Na.
  - exact Ha1.
  - exact Hea.
  - reflexivity.
Qed.

Lemma legacy_status :
  Legacy.labelled "Status:" (forward_text a (phrase ++ d) st) = Some st.
Proof.
  destruct Hplain
    as ((Hp & Ha & Hma & Hd & _ & (Ns & Ts & _) & Hcs)
        & _ & Hca & Hmd & Hcd & Hes & _).
  destruct (@trim_fixed_inv _ Ts) as [Hs1 _].
  rewrite forward_text_shape. unfold Legacy.labelled.
  rewrite search_skip.
  2:{ intros n Hn. do 8 (destruct n as [|n]; [reflexivity|]).
      simpl in Hn. lia. }
  rewrite (@search_blocked _ (str "Status:") (str "status") ":"%char);
    [|reflexivity | apply colon_free_lower, Hca | reflexivity].
  rewrite search_skip.
  2:{ intros n Hn. destruct Hp as [-> | ->].
      - do 40 (destruct n as [|n]; [reflexivity|]). simpl in Hn. lia.
      - do 22 (destruct n as [|n]; [reflexivity|]). simpl in Hn. lia. }
  rewrite (@search_blocked _ (str "Status:") (str "status") ":"%char);
    [|reflexivity | apply colon_free_lower, Hcd | reflexivity].
  apply search_here.
  change (str "Status: " ++ st) with (str "Status:" ++ str " " ++ st).
  rewrite lit_ci_matches by reflexivity.
  rewrite <- (app_nil_r st).
  apply rstar_greedy;
    [reflexivity | rewrite app_nil_r; destruct st; [exact I | exact Hs1] |].
  rewrite app_nil_r. apply plus_cap_all; assumption.
Qed.

Lemma legacy_discordName :
  Legacy.discordName (forward_text a (phrase ++ d) st) = Some d.
Proof.
  destruct Hplain
    as ((Hp & Ha & Hma & Hd & _ & Hst & Hcs) & _ & Hca & Hmd & Hcd & _ & _).
  pose proof (token_head Hd) as Hh. destruct Hd as [Nd Hd].
  assert (Hhd : match d ++ LF :: str "Status: " ++ st with
                | [] => True | c :: _ => is_ws c = false end)
    by (destruct d; [congruence | exact Hh]).
  unfold Legacy.discordName, Legacy.body_phrase.
  rewrite forward_text_shape.
  destruct Hp as [-> | ->].
  - (* the register phrasing: the verify pattern finds nothing *)
    assert (V : search
                  (lit_ci (str "Body:")
                     (rstar is_ws
                        (lit_ci (str "Verify Discord:")
                           (rstar is_ws
                              (plus_cap not_ws (fun v _ => Some v))))))
                  (str "Author: " ++ a ++ LF :: (str "Body: " ++ register_phrase)
                   ++ d ++ LF :: str "Status: " ++ st) = None).
    { rewrite search_skip.
      2:{ intros n Hn. do 8 (destruct n as [|n]; [reflexivity|]).
          simpl in Hn. lia. }
      rewrite (@search_blocked _ (str "Body:") (str "body") ":"%char);
        [|reflexivity | apply colon_free_lower, Hca | reflexivity].
      rewrite search_skip.
      2:{ intros n Hn. do 40 (destruct n as [|n]; [reflexivity|]).
          simpl in Hn. lia. }
      rewrite (@search_blocked _ (str "Body:") (str "body") ":"%char);
        [|reflexivity | apply colon_free_lower, Hcd | reflexivity].
      rewrite search_skip.
      2:{ intros n Hn. do 8 (destruct n as [|n]; [reflexivity|]).
          simpl in Hn. lia. }
      apply (@search_blocked_end _ (str "Body:") (str "body") ":"%char);
        [reflexivity | apply colon_free_lower, Hcs]. }
    rewrite V.
    rewrite search_skip.
    2:{ intros n Hn. do 8 (destruct n as [|n]; [reflexivity|]).
        simpl in Hn. lia. }
    rewrite (@search_blocked _ (str "Body:") (str "body") ":"%char);
      [|reflexivity | apply colon_free_lower, Hca | reflexivity].
    rewrite (@search_here _ _ _ d); [rewrite (trim_token Nd Hd); reflexivity|].
    change ((str "Body: " ++ register_phrase)
            ++ d ++ LF :: str "Status: " ++ st)
      with (str "Body:" ++ str " "
            ++ str "Register Discord with Discord ID:" ++ str " "
            ++ d ++ LF :: str "Status: " ++ st).
    rewrite lit_ci_matches by reflexivity.
    apply rstar_greedy; [reflexivity | reflexivity |].
    rewrite lit_ci_matches by reflexivity.
    apply rstar_greedy; [reflexivity | exact Hhd |].
    apply plus_cap_greedy; [exact Nd | exact Hd | reflexivity | reflexivity].
  - rewrite search_skip.
    2:{ intros n Hn. do 8 (destruct n as [|n]; [reflexivity|]).
        simpl in Hn. lia. }
    rewrite (@search_blocked _ (str "Body:") (str "body") ":"%char);
      [|reflexivity | apply colon_free_lower, Hca | reflexivity].
    rewrite (@search_here _ _ _ d); [rewrite (trim_token Nd Hd); reflexivity|].
    change ((str "Body: " ++ verify_phrase)
            ++ d ++ LF :: str "Status: " ++ st)
      with (str "Body:" ++ str " " ++ str "Verify Discord:" ++ str " "
            ++ d ++ LF :: str "Status: " ++ st).
    rewrite lit_ci_matches by reflexivity.
    apply rstar_greedy; [reflexivity | reflexivity |].
    rewrite lit_ci_matches by reflexivity.
    apply rstar_greedy; [reflexivity | exact Hhd |].
    apply plus_cap_greedy; [exact Nd | exact Hd | reflexivity | reflexivity].
Qed.

Lemma legacy_finalRedditUser :
  Legacy.finalRedditUser (forward_text a (phrase ++ d) st) = a.
Proof.
  unfold Legacy.finalRedditUser.
  rewrite legacy_no_participant, legacy_author.
  destruct Hplain as ((_ & (Na & Ta & _) & _) & _).
  rewrite Ta. cbv zeta. destruct a; [congruence | reflexivity].
Qed.

Lemma legacy_status_banned :
  Legacy.status_banned (forward_text a (phrase ++ d) st)
  = includes (str "banned") (toLowerCase st).
Proof.
  unfold Legacy.status_banned. rewrite legacy_status.
  destruct Hplain as ((_ & _ & _ & _ & _ & (_ & Ts & _) & _) & _).
  rewrite Ts. reflexivity.
Qed.

End LegacyReads.

(** X15: on a well-formed forward without markup the push-driven script reads
    the very record that the parser of the command-driven bot reads: the
    same Reddit user, the same Discord name, and the banned test on the
    same status.  A forward whose status says banned is dropped; otherwise,
    with the member found and the role present, the script sets the
    nickname made of the two names and answers with the link notice. *)
Theorem legacy_reads_plain_forward
    (w : Legacy.World) (phrase a d st tag : jsstring) :
  plain_forward phrase a d st ->
  let text := forward_text a (phrase ++ d) st in
  parseModmailMessageFromFullText text
  = Some {| redditName := a; discordName := d; status := st |}
  /\ Legacy.finalRedditUser (Legacy.stripFormatting text) = a
  /\ Legacy.discordName (Legacy.stripFormatting text) = Some d
  /\ Legacy.status_banned (Legacy.stripFormatting text)
     = includes (str "banned") (toLowerCase st)
  /\ (includes (str "banned") (toLowerCase st) = true ->
      Legacy.onMessageCreate w text = [Legacy.LogBanned])
  /\ (includes (str "banned") (toLowerCase st) = false ->
      Legacy.target_member w = Some tag ->
      Legacy.role_exists w = true ->
      exists role_events nick_log,
        Legacy.onMessageCreate w text
        = role_events
          ++ [Legacy.SetNickname (a ++ str " | " ++ d); nick_log]
          ++ [Legacy.RepliedLinked a tag]).
Proof.
  intros Hplain text.
  pose proof (stripFormatting_plain_forward Hplain) as E. fold text in E.
  pose proof (legacy_finalRedditUser Hplain) as U. fold text in U.
  pose proof (legacy_discordName Hplain) as D. fold text in D.
  pose proof (legacy_status_banned Hplain) as B. fold text in B.
  rewrite E.
  split; [|split; [exact U | split; [exact D | split; [exact B|]]]].
  - destruct Hplain as ((Hp & Ha & Hma & Hd & Hl & Hst & Hc) & _).
    destruct (phrase_body_fixed Hp Hd Hl) as (F & S1 & S2).
    apply (parse_three_lines Ha Hma F S1 S2 Hd Hst Hc).
  - split.
    + intros Hb. unfold Legacy.onMessageCreate. rewrite E, B, Hb.
      reflexivity.
    + intros Hb Ht Hr. unfold Legacy.onMessageCreate.
      rewrite E, B, Hb, U, D. cbv zeta.
      destruct Hplain as ((_ & _ & _ & (Nd & _) & _) & _).
      destruct d as [|c d']; [congruence|].
      cbn [Legacy.first_truthy]. rewrite Ht, Hr. cbn [negb].
      destruct (Legacy.setNickname_succeeds w); eexists; eexists; reflexivity.
Qed.

Lemma legacy_reads_plain_forward_witness :
  let text := forward_text (str "Hermit_Toad")
                (register_phrase ++ str "pikachucatcher88") (str "Active") in
  let w := {| Legacy.target_member := Some (str "pikachucatcher88#0");
              Legacy.role_exists := true;
              Legacy.has_role := false;
              Legacy.roles_add_succeeds := true;
              Legacy.setNickname_succeeds := true |} in
  parseModmailMessageFromFullText text
  = Some {| redditName := str "Hermit_Toad";
            discordName := str "pikachucatcher88";
            status := str "Active" |}
  /\ Legacy.finalRedditUser (Legacy.stripFormatting text) = str "Hermit_Toad"
  /\ Legacy.discordName (Legacy.stripFormatting text)
     = Some (str "pikachucatcher88")
  /\ Legacy.status_banned (Legacy.stripFormatting text)
     = includes (str "banned") (toLowerCase (str "Active"))
  /\ (includes (str "banned") (toLowerCase (str "Active")) = true ->
      Legacy.onMessageCreate w text = [Legacy.LogBanned])
  /\ (includes (str "banned") (toLowerCase (str "Active")) = false ->
      Legacy.target_member w = Some (str "pikachucatcher88#0") ->
      Legacy.role_exists w = true ->
      exists role_events nick_log,
        Legacy.onMessageCreate w text
        = role_events
          ++ [Legacy.SetNickname
                (str "Hermit_Toad" ++ str " | " ++ str "pikachucatcher88");
              nick_log]
          ++ [Legacy.RepliedLinked (str "Hermit_Toad")
                (str "pikachucatcher88#0")]).
Proof.
  apply (@legacy_reads_plain_forward
           {| Legacy.target_member := Some (str "pikachucatcher88#0");
              Legacy.role_exists := true;
              Legacy.has_role := false;
              Legacy.roles_add_succeeds := true;
              Legacy.setNickname_succeeds := true |}
           register_phrase (str "Hermit_Toad") (str "pikachucatcher88")
           (str "Active") (str "pikachucatcher88#0")).
  split.
  - split; [left; reflexivity|].
    split; [split; [discriminate | split; reflexivity]|].
    split; [reflexivity|].
    split; [split; [discriminate | reflexivity]|].
    split; [reflexivity|].
    split; [split; [discriminate | split; reflexivity] | reflexivity].
  - repeat split; reflexivity.
Defined.

(* ================================================================== *)
(** ** The push-driven script and forwards carried by embed fields *)

Lemma getMessageText_content a body st :
  LegacyMessage.getMessageText (LegacyMessage.forward_content a body st)
  = forward_text a body st.
Proof. reflexivity. Qed.

Lemma getMessageText_fields a body st :
  a <> [] -> body <> [] -> st <> [] ->
  LegacyMessage.getMessageText (LegacyMessage.forward_fields a body st)
  = str "Author" ++ LF :: a ++ LF :: str "Body" ++ LF :: body
    ++ LF :: str "Status" ++ LF :: st.
Proof.
  intros Ha Hb Hs. unfold LegacyMessage.getMessageText,
    LegacyMessage.forward_fields.
  destruct a as [|a0 a']; [congruence|].
  destruct body as [|b0 b']; [congruence|].
  destruct st as [|s0 s']; [congruence|].
  reflexivity.
Qed.

Section LegacyFields.

Variables phrase a d st : jsstring.
Hypothesis Hplain : plain_forward phrase a d st.

Lemma fields_text_shape :
  LegacyMessage.getMessageText
    (LegacyMessage.forward_fields a (phrase ++ d) st)
  = (str "Author" ++ [LF]) ++ a ++ LF :: (str "Body" ++ LF :: phrase)
    ++ d ++ LF :: (str "Status" ++ [LF]) ++ st.
Proof.
  destruct Hplain as ((Hp & (Na & _) & _ & (Nd & _) & _ & (Ns & _) & _) & _).
  rewrite getMessageText_fields;
    [|exact Na | destruct phrase; [simpl; exact Nd | discriminate] | exact Ns].
  repeat rewrite <- app_assoc. simpl. repeat rewrite <- app_assoc. reflexivity.
Qed.

Lemma fields_text_stripped :
  Legacy.stripFormatting
    (LegacyMessage.getMessageText
       (LegacyMessage.forward_fields a (phrase ++ d) st))
  = LegacyMessage.getMessageText
      (LegacyMessage.forward_fields a (phrase ++ d) st).
Proof.
  rewrite fields_text_shape.
  destruct Hplain
    as ((Hp & Ha & Hma & Hd & _ & Hst & _) & _ & _ & Hmd & _ & _ & Hms).
  rewrite stripFormatting_marker_free.
  - replace ((str "Author" ++ [LF]) ++ a ++ LF :: (str "Body" ++ LF :: phrase)
             ++ d ++ LF :: (str "Status" ++ [LF]) ++ st)
      with (((str "Author" ++ [LF]) ++ a ++ LF :: (str "Body" ++ LF :: phrase)
             ++ d ++ LF :: (str "Status" ++ [LF])) ++ st)
      by (repeat rewrite <- app_assoc; simpl; repeat rewrite <- app_assoc; reflexivity).
    apply trim_app_fixed; [discriminate | reflexivity | apply Hst | apply Hst].
  - unfold marker_free in *.
    repeat (rewrite !forallb_app || cbn [forallb]).
    rewrite Hma, Hmd, Hms.
    destruct Hp as [-> | ->]; reflexivity.
Qed.

(** No label of the script is followed by its colon in such a text. *)
Lemma fields_text_no_label label p0 (k : jsstring -> option jsstring) :
  In (label, p0)
     [("Body:"%string, str "body"); ("Status:"%string, str "status");
      ("Participant:"%string, str "participant");
      ("Author:"%string, str "author")] ->
  search (lit_ci (str label) k)
    (LegacyMessage.getMessageText
       (LegacyMessage.forward_fields a (phrase ++ d) st)) = None.
Proof.
  intros Hl. rewrite fields_text_shape.
  destruct Hplain
    as ((Hp & Ha & Hma & Hd & _ & Hst & Hcs) & _ & Hca & Hmd & Hcd & _ & _).
  assert (Hlow : toLowerCase (str label) = p0 ++ [":"%char]
                 /\ forallb (not_char (lower LF)) (p0 ++ [":"%char]) = true).
  { simpl in Hl.
    destruct Hl as [E|[E|[E|[E|[]]]]]; inversion E; subst; split; reflexivity. }
  destruct Hlow as [Hlow HLF].
  rewrite search_skip.
  2:{ intros n Hn. simpl in Hl.
      destruct Hl as [E|[E|[E|[E|[]]]]]; inversion E; subst;
        (do 7 (destruct n as [|n]; [reflexivity|])); simpl in Hn; lia. }
  rewrite (@search_blocked _ (str label) p0 ":"%char);
    [|exact Hlow | apply colon_free_lower, Hca | exact HLF].
  rewrite search_skip.
  2:{ intros n Hn. simpl in Hl.
      destruct Hp as [-> | ->];
        destruct Hl as [E|[E|[E|[E|[]]]]]; inversion E; subst;
        first [ (do 39 (destruct n as [|n]; [reflexivity|]));
                simpl in Hn; lia
              | (do 21 (destruct n as [|n]; [reflexivity|]));
                simpl in Hn; lia ]. }
  rewrite (@search_blocked _ (str label) p0 ":"%char);
    [|exact Hlow | apply colon_free_lower, Hcd | exact HLF].
  rewrite search_skip.
  2:{ intros n Hn. simpl in Hl.
      destruct Hl as [E|[E|[E|[E|[]]]]]; inversion E; subst;
        (do 7 (destruct n as [|n]; [reflexivity|])); simpl in Hn; lia. }
  apply (@search_blocked_end _ (str label) p0 ":"%char);
    [exact Hlow | apply colon_free_lower, Hcs].
Qed.

Lemma fields_text_skipped w :
  Legacy.onMessageCreate w
    (LegacyMessage.getMessageText
       (LegacyMessage.forward_fields a (phrase ++ d) st))
  = [Legacy.LogNoDiscordName].
Proof.
  unfold Legacy.onMessageCreate. rewrite fields_text_stripped.
  assert (S0 : Legacy.status_banned
                 (LegacyMessage.getMessageText
                    (LegacyMessage.forward_fields a (phrase ++ d) st))
               = false).
  { unfold Legacy.status_banned, Legacy.labelled.
    rewrite (@fields_text_no_label "Status:" (str "status") _
               (or_intror (or_introl eq_refl))).
    reflexivity. }
  assert (D0 : Legacy.discordName
                 (LegacyMessage.getMessageText
                    (LegacyMessage.forward_fields a (phrase ++ d) st))
               = None).
  { unfold Legacy.discordName, Legacy.body_phrase.
    rewrite !(@fields_text_no_label "Body:" (str "body") _
                (or_introl eq_refl)).
    reflexivity. }
  rewrite S0, D0. reflexivity.
Qed.

End LegacyFields.

(** X16: the push-driven script cannot read a forward that arrives as the
    fields of an embed: its text puts each field name and each value on a
    line of its own, so no label is followed by its colon, and the
    message is skipped for want of a Discord name, whatever the guild
    holds.  The parser of the command-driven bot reads the same forward,
    and the script reads it when it arrives as the content. *)
Theorem legacy_skips_embed_fields
    (w : Legacy.World) (i : N) (ts : Z) (phrase a d st : jsstring) :
  plain_forward phrase a d st ->
  Legacy.onMessageCreate w
    (LegacyMessage.getMessageText
       (LegacyMessage.forward_fields a (phrase ++ d) st))
  = [Legacy.LogNoDiscordName]
  /\ parseModmailMessageFromFullText
       (buildFullTextFromMessage (forward_embed i ts a (phrase ++ d) st))
     = Some {| redditName := a; discordName := d; status := st |}
  /\ Legacy.discordName
       (Legacy.stripFormatting
          (LegacyMessage.getMessageText
             (LegacyMessage.forward_content a (phrase ++ d) st)))
     = Some d.
Proof.
  intros Hplain. split; [apply fields_text_skipped, Hplain|]. split.
  - apply well_formed_parses, Hplain.
  - rewrite getMessageText_content.
    rewrite (stripFormatting_plain_forward Hplain).
    apply legacy_discordName, Hplain.
Qed.

Lemma legacy_skips_embed_fields_witness :
  Legacy.onMessageCreate
    {| Legacy.target_member := Some (str "pikachucatcher88#0");
       Legacy.role_exists := true;
       Legacy.has_role := false;
       Legacy.roles_add_succeeds := true;
       Legacy.setNickname_succeeds := true |}
    (LegacyMessage.getMessageText
       (LegacyMessage.forward_fields (str "Hermit_Toad")
          (verify_phrase ++ str "pikachucatcher88") (str "Active")))
  = [Legacy.LogNoDiscordName]
  /\ parseModmailMessageFromFullText
       (buildFullTextFromMessage
          (forward_embed 7 now0 (str "Hermit_Toad")
             (verify_phrase ++ str "pikachucatcher88") (str "Active")))
     = Some {| redditName := str "Hermit_Toad";
               discordName := str "pikachucatcher88";
               status := str "Active" |}
  /\ Legacy.discordName
       (Legacy.stripFormatting
          (LegacyMessage.getMessageText
             (LegacyMessage.forward_content (str "Hermit_Toad")
                (verify_phrase ++ str "pikachucatcher88") (str "Active"))))
     = Some (str "pikachucatcher88").
Proof.
  apply (@legacy_skips_embed_fields
           {| Legacy.target_member := Some (str "pikachucatcher88#0");
              Legacy.role_exists := true;
              Legacy.has_role := false;
              Legacy.roles_add_succeeds := true;
              Legacy.setNickname_succeeds := true |}
           7%N now0 verify_phrase (str "Hermit_Toad")
           (str "pikachucatcher88") (str "Active")).
  split.
  - split; [right; reflexivity|].
    split; [split; [discriminate | split; reflexivity]|].
    split; [reflexivity|].
    split; [split; [discriminate | reflexivity]|].
    split; [reflexivity|].
    split; [split; [discriminate | split; reflexivity] | reflexivity].
  - repeat split; reflexivity.
Defined.

(* ================================================================== *)
(** ** The verify command reads its second word *)

Lemma trimEnd_app_nonws p z r :
  is_ws z = false -> trimEnd (p ++ z :: r) = p ++ z :: trimEnd r.
Proof.
  intros Hz. induction p as [|c p IH].
  - simpl app. rewrite trimEnd_cons, Hz.
    destruct (trimEnd r); reflexivity.
  - simpl app. rewrite trimEnd_cons, IH.
    destruct (p ++ z :: trimEnd r) eqn:E; [destruct p; discriminate|].
    reflexivity.
Qed.

(** What is left of a text that begins with white space, once the white
    space at its end is gone: nothing, or a text that begins with white
    space. *)
Lemma trimEnd_after_ws w x :
  is_ws w = true ->
  trimEnd (w :: x) = [] \/ exists t, trimEnd (w :: x) = w :: t.
Proof.
  intros Hw. rewrite trimEnd_cons, Hw.
  destruct (truthy (trimEnd x)); [right; eauto | left; reflexivity].
Qed.

Lemma split_ws_gap t :
  t = [] \/ (exists w t', t = w :: t' /\ is_ws w = true) ->
  exists r, split_ws_from false t = [] :: r.
Proof.
  intros [->|(w & t' & -> & Hw)]; simpl; [eauto|].
  rewrite Hw. eauto.
Qed.

Lemma split_ws_word tok t r b :
  tok <> [] -> forallb not_ws tok = true ->
  split_ws_from false t = [] :: r ->
  split_ws_from b (tok ++ t) = tok :: r.
Proof.
  intros Hne Htok Ht. revert b.
  induction tok as [|c tok IH]; [congruence|]. intros b.
  simpl in Htok. apply andb_true_iff in Htok as [Hc Htok].
  unfold not_ws in Hc. apply negb_true_iff in Hc.
  simpl. rewrite Hc.
  destruct tok as [|c' tok'].
  - simpl app. rewrite Ht. reflexivity.
  - rewrite (IH ltac:(discriminate) Htok false). reflexivity.
Qed.

Lemma split_ws_skip sep t :
  forallb is_ws sep = true ->
  split_ws_from true (sep ++ t) = split_ws_from true t.
Proof.
  induction sep as [|w sep IH]; [reflexivity|].
  simpl. intros H. apply andb_true_iff in H as [Hw Hs].
  rewrite Hw. apply IH, Hs.
Qed.

Lemma split_ws_two_words cmd sep name t :
  command_line cmd sep name ->
  t = [] \/ (exists w t', t = w :: t' /\ is_ws w = true) ->
  exists r, split_ws (cmd ++ sep ++ name ++ t) = cmd :: name :: r.
Proof.
  intros ([Nc Hc] & Ns & Hs & [Nn Hn]) Ht.
  destruct (@split_ws_gap t Ht) as [r Hr].
  exists r. unfold split_ws.
  apply split_ws_word; [exact Nc | exact Hc |].
  destruct sep as [|w sep]; [congruence|].
  simpl in Hs. apply andb_true_iff in Hs as [Hw Hs].
  simpl. rewrite Hw. f_equal.
  rewrite (@split_ws_skip sep _ Hs).
  apply split_ws_word; assumption.
Qed.

Lemma trim_command_line ws0 cmd sep name sep' rest :
  forallb is_ws ws0 = true ->
  command_line cmd sep name ->
  sep' <> [] -> forallb is_ws sep' = true ->
  exists t,
    trim (ws0 ++ cmd ++ sep ++ name ++ sep' ++ rest)
    = cmd ++ sep ++ name ++ t
    /\ (t = [] \/ exists w t', t = w :: t' /\ is_ws w = true).
Proof.
  intros H0 ([Nc Hc] & Ns & Hs & [Nn Hn]) Ns' Hs'.
  unfold trim. rewrite (@trimStart_ws ws0 _ H0).
  assert (S1 : trimStart (cmd ++ sep ++ name ++ sep' ++ rest)
               = cmd ++ sep ++ name ++ sep' ++ rest).
  { unfold trimStart. apply no_lead_ws_fixed.
    destruct cmd as [|c cmd]; [congruence|]. simpl in *.
    apply andb_true_iff in Hc as [Hc _].
    unfold not_ws in Hc. apply negb_true_iff in Hc. exact Hc. }
  rewrite S1.
  destruct (exists_last Nn) as (n0 & z & ->).
  rewrite forallb_app in Hn. apply andb_true_iff in Hn as [_ Hz].
  simpl in Hz. rewrite andb_true_r in Hz.
  unfold not_ws in Hz. apply negb_true_iff in Hz.
  exists (trimEnd (sep' ++ rest)). split.
  - replace (cmd ++ sep ++ (n0 ++ [z]) ++ sep' ++ rest)
      with ((cmd ++ sep ++ n0) ++ z :: (sep' ++ rest))
      by (repeat rewrite <- app_assoc; reflexivity).
    rewrite (@trimEnd_app_nonws _ z _ Hz).
    repeat rewrite <- app_assoc. reflexivity.
  - destruct sep' as [|w s']; [congruence|].
    simpl in Hs'. apply andb_true_iff in Hs' as [Hw _].
    simpl app. destruct (@trimEnd_after_ws w (s' ++ rest) Hw) as [E|(t & E)];
      rewrite E; [left; reflexivity | right; eauto].
Qed.

(** X17: the command reads its second word and nothing else of the line:
    white space before the command and whatever follows the second word
    change neither the search, nor the replies, nor the account. *)
Theorem verify_reads_second_word
    fuel cfg w (ws0 cmd sep name sep' rest : jsstring) :
  forallb is_ws ws0 = true ->
  command_line cmd sep name ->
  sep' <> [] -> forallb is_ws sep' = true ->
  handleVerifyCommand fuel cfg w (ws0 ++ cmd ++ sep ++ name ++ sep' ++ rest)
  = handleVerifyCommand fuel cfg w (cmd ++ sep ++ name).
Proof.
  intros H0 Hcl Ns' Hs'.
  destruct (@trim_command_line ws0 cmd sep name sep' rest H0 Hcl Ns' Hs')
    as (t & Et & Ht).
  destruct (@split_ws_two_words cmd sep name t Hcl Ht) as (r & Er).
  pose proof Hcl as ([Nc Hc] & Ns & Hs & [Nn Hn]).
  pose proof (@verify_args cmd sep name Nc Hc Ns Hs Nn Hn) as E2.
  unfold handleVerifyCommand. rewrite Et, Er, E2. reflexivity.
Qed.

Lemma verify_reads_second_word_witness :
  handleVerifyCommand 6 cfg0 world0
    (str " " ++ str "!verify" ++ str " " ++ str "Hermit_Toad" ++ str "  "
     ++ str "please, and thank you")
  = handleVerifyCommand 6 cfg0 world0
      (str "!verify" ++ str " " ++ str "Hermit_Toad").
Proof.
  apply (@verify_reads_second_word 6 cfg0 world0 (str " ") (str "!verify")
           (str " ") (str "Hermit_Toad") (str "  ")
           (str "please, and thank you")).
  - reflexivity.
  - split; [split; [discriminate | reflexivity]
           | split; [discriminate
                    | split; [reflexivity | split; [discriminate | reflexivity]]]].
  - discriminate.
  - reflexivity.
Defined.
